(** * HSE incident analyser: hierarchy-diagram core

    A shallow embedding of the diagram generator
    ([incident.repository.ts]), the depth assigner
    ([hierarchy-diagram.component.ts]), the diagram editor
    ([incident-edit-modal]) and the level extraction of the history page,
    together with the properties the specification states about them. *)

From Stdlib Require Import String Ascii.
From Stdlib Require Import ZArith NArith List Bool Lia Permutation Sorted.
Import ListNotations.

Local Open Scope Z_scope.

(** ** JavaScript values used by the code *)

Module Js.

(** A JavaScript string is a sequence of UTF-16 code units; [length],
    [substring] and [trim] all work on code units. *)
Definition jsstring : Type := list N.

(** An ASCII string literal of the source. *)
Definition lit (s : string) : jsstring :=
  map N_of_ascii (list_ascii_of_string s).

(** [s.length] *)
Definition strlen (s : jsstring) : Z := Z.of_nat (length s).

(** [s.substring(0, n)] for a non-negative literal [n]. *)
Definition substring0 (n : nat) (s : jsstring) : jsstring := firstn n s.

(** White space and line terminators stripped by [String.prototype.trim]
    (ECMAScript WhiteSpace and LineTerminator productions). *)
Definition is_space (c : N) : bool :=
  ((9 <=? c) && (c <=? 13) || (c =? 32) || (c =? 160) || (c =? 5760)
   || (8192 <=? c) && (c <=? 8202) || (c =? 8232) || (c =? 8233)
   || (c =? 8239) || (c =? 8287) || (c =? 12288) || (c =? 65279))%N.

Fixpoint trimStart (s : jsstring) : jsstring :=
  match s with
  | [] => []
  | c :: r => if is_space c then trimStart r else s
  end.

Definition trimEnd (s : jsstring) : jsstring := rev (trimStart (rev s)).

(** [s.trim()] *)
Definition trim (s : jsstring) : jsstring := trimEnd (trimStart s).

(** Truthiness of a string value that may be [null]/[undefined]. *)
Definition truthy_str (v : option jsstring) : bool :=
  match v with
  | None => false
  | Some [] => false
  | Some (_ :: _) => true
  end.

(** Truthiness of an optional number: [undefined] and [0] are falsy. *)
Definition truthy_num (v : option Z) : bool :=
  match v with
  | None => false
  | Some n => negb (n =? 0)
  end.

(** [for (let i = i0; i < i0 + n; i++) body] with the loop state made
    explicit; [n] is the number of iterations left. *)
Fixpoint for_upto {S : Type} (n : nat) (i : Z) (body : Z -> S -> S) (s : S) : S :=
  match n with
  | O => s
  | Datatypes.S n' => for_upto n' (i + 1) body (body i s)
  end.

(** [arr[i]] for an integer index; [None] is [undefined]. *)
Definition index {A : Type} (arr : list A) (i : Z) : option A :=
  if i <? 0 then None else nth_error arr (Z.to_nat i).

(** [Math.max(...xs, 0)] *)
Definition max_with_0 (xs : list Z) : Z := fold_right Z.max 0 xs.

(** Numbers are binary64 values.  [round_double z] is the one nearest
    to the integer [z], a tie going to the even significand; every
    integer up to [2^53] in magnitude is such a value itself. *)
Definition round_double (z : Z) : Z :=
  let a := Z.abs z in
  if a <=? 2 ^ 53 then z
  else
    let e := Z.log2 a - 52 in
    let q := Z.shiftr a e in
    let r := a - Z.shiftl q e in
    let half := Z.shiftl 1 (e - 1) in
    let q' := if r <? half then q
              else if half <? r then q + 1
              else if Z.even q then q else q + 1 in
    Z.sgn z * Z.shiftl q' e.

(** [a + b] on numbers that are integers: the exact sum, rounded.  (A
    sum of a number and 1 never leaves the finite range.) *)
Definition num_add (a b : Z) : Z := round_double (a + b).

(** The values an [&&] chain over a string, a comparison and a string
    or [null] can deliver. *)
Inductive jsvalue : Type :=
| VUndefined
| VNull
| VBool (b : bool)
| VStr (s : jsstring).

Definition truthy (v : jsvalue) : bool :=
  match v with
  | VUndefined => false
  | VNull => false
  | VBool b => b
  | VStr s => truthy_str (Some s)
  end.

End Js.
Import Js.

(** ** Data model ([incident.model.ts]) *)

Module Model.

#[warnings="-register-all"]
Inductive TreeNodeData : Type := mkTreeNodeData {
  key : Z;
  name : jsstring;
  parent : option Z;
  level : option Z;
  category : option jsstring;
  color : option jsstring;
  description : option jsstring;
  children : option (list TreeNodeData)
}.

(** The object literal [{ key, parent, name }]; all other properties
    are absent. *)
Definition node (k : Z) (p : option Z) (nm : jsstring) : TreeNodeData :=
  mkTreeNodeData k nm p None None None None None.

(** [{ ...n, name: nm }] *)
Definition with_name (n : TreeNodeData) (nm : jsstring) : TreeNodeData :=
  mkTreeNodeData (key n) nm (parent n) (level n) (category n) (color n)
                 (description n) (children n).

(** [!node.parent] *)
Definition no_parent (n : TreeNodeData) : bool := negb (truthy_num (parent n)).

(** The [parent] property is absent. *)
Definition is_root (n : TreeNodeData) : bool :=
  match parent n with
  | None => true
  | Some _ => false
  end.

Record Diagram : Type := mkDiagram {
  id : Z;
  incidentId : Z;
  title : jsstring;
  diagramJson : jsstring;
  diagramPdf : option (list N);
  createdAt : Z
}.

End Model.
Import Model.

(** ** Diagram generator ([IncidentRepository]) *)

Module Generator.

Definition level1Names : list jsstring :=
  map lit ["Human Factor"; "Equipment Issue"; "Environmental Factor";
           "Process Issue"; "Management Factor"]%string.

Definition level2Names : list jsstring :=
  map lit ["Inadequate Training"; "Fatigue/Stress"; "Maintenance Issue";
           "Design Flaw"; "Unsafe Conditions"; "Weather Impact"]%string.

Definition truncateIncidentName (incident : jsstring) : jsstring :=
  if strlen incident <=? 30 then incident
  else substring0 27 incident ++ lit "...".

(** The local variables of [generateGenericData]. *)
Record locals : Type := mkLocals {
  data : list TreeNodeData;
  keyCounter : Z;
  level1Keys : list Z
}.

(** A name read from one of the two fixed arrays.  Both loops stop
    before the end of their array (at most 5, respectively 6,
    iterations), so the [None] branch is never taken. *)
Definition name_at (names : list jsstring) (i : Z) : jsstring :=
  match index names i with
  | Some s => s
  | None => []
  end.

(** Body of the first loop. *)
Definition level1_body (i : Z) (st : locals) : locals :=
  let nd := node (keyCounter st) (Some 1) (name_at level1Names i) in
  mkLocals (data st ++ [nd]) (keyCounter st + 1) (level1Keys st ++ [key nd]).

(** Body of the second loop. *)
Definition level2_body (i : Z) (st : locals) : locals :=
  let parentKey := index (level1Keys st) (i mod Z.of_nat (length (level1Keys st))) in
  let nd := node (keyCounter st) parentKey (name_at level2Names i) in
  mkLocals (data st ++ [nd]) (keyCounter st + 1) (level1Keys st).

Definition generateGenericData (incident : jsstring) (lvl : Z) : list TreeNodeData :=
  let st0 := mkLocals [node 1 None (truncateIncidentName incident)] 2 [] in
  let st1 := for_upto (Z.to_nat (Z.min 5 (lvl + 2))) 0 level1_body st0 in
  let st2 :=
    if lvl >=? 2 then
      for_upto (Z.to_nat (Z.min (Z.of_nat (length (level1Keys st1)) * 2) 6))
               0 level2_body st1
    else st1 in
  data st2.

(** The name of the first node of the output. *)
Definition root_name (text : jsstring) (lvl : Z) : option jsstring :=
  option_map name (hd_error (generateGenericData text lvl)).

End Generator.
Import Generator.

(** ** Parent links of a flat node list *)

Module Links.

(** [child.parent === k] *)
Definition parent_is (n : TreeNodeData) (k : Z) : bool :=
  match parent n with
  | Some p => p =? k
  | None => false
  end.

(** [DepthOf ns k d]: following [parent] links from the node with key
    [k] ends, after [d] steps, at a node of [ns] that has no parent. *)
Inductive DepthOf (ns : list TreeNodeData) : Z -> nat -> Prop :=
| depth_root n :
    In n ns -> parent n = None -> DepthOf ns (key n) 0
| depth_child n p d :
    In n ns -> parent n = Some p -> DepthOf ns p d ->
    DepthOf ns (key n) (S d).

(** [Desc ns a k j]: the parent chain of [k] reaches [a] after [j]
    steps ([k] lies in the subtree of [a], [j] levels below it). *)
Inductive Desc (ns : list TreeNodeData) (a : Z) : Z -> nat -> Prop :=
| desc_self : Desc ns a a 0
| desc_child n p j :
    In n ns -> parent n = Some p -> Desc ns a p j ->
    Desc ns a (key n) (S j).

Definition in_subtree (ns : list TreeNodeData) (a k : Z) : Prop :=
  exists j, Desc ns a k j.

Definition reachable (ns : list TreeNodeData) (k : Z) : Prop :=
  exists d, DepthOf ns k d.

(** The invariants of the data model: keys are unique, exactly one
    node has no parent, and the parent chain of every node ends at it. *)
Record is_tree (ns : list TreeNodeData) : Prop := mk_is_tree {
  tree_keys : NoDup (map key ns);
  tree_root : exists r, In r ns /\ parent r = None /\
                        forall n, In n ns -> parent n = None -> n = r;
  tree_chains : forall n, In n ns -> reachable ns (key n)
}.

End Links.
Import Links.

(** ** Depth assigner ([HierarchyDiagramComponent]) *)

Module Display.

(** [TreeNodeData & { displayLevel: number }] *)
Record Leveled : Type := mkLeveled {
  base : TreeNodeData;
  displayLevel : Z
}.

(** [Map<number, ...>]: entries in insertion order, one per key. *)
Definition NodeMap : Type := list (Z * Leveled).

(** [nodeMap.set(k, v)]: an existing key keeps its position. *)
Fixpoint map_set (k : Z) (v : Leveled) (m : NodeMap) : NodeMap :=
  match m with
  | [] => [(k, v)]
  | (k', v') :: r => if k' =? k then (k, v) :: r else (k', v') :: map_set k v r
  end.

(** [nodeMap.get(k)] *)
Fixpoint map_get (k : Z) (m : NodeMap) : option Leveled :=
  match m with
  | [] => None
  | (k', v) :: r => if k' =? k then Some v else map_get k r
  end.

(** [nodeMap.get(k).displayLevel = d]: the object stored under [k] is
    updated in place; every entry holds an object of its own. *)
Fixpoint set_level (k : Z) (d : Z) (m : NodeMap) : NodeMap :=
  match m with
  | [] => []
  | (k', v) :: r =>
      if k' =? k then (k', mkLeveled (base v) d) :: r
      else (k', v) :: set_level k d r
  end.

(** [nodeMap.forEach(child => { if (child.parent === nodeKey) visit(child.key) })].
    The callback only writes [displayLevel], so the keys and parents
    seen by the iteration are those of [entries]; the map itself is
    threaded through the visits.  [None] is a visit that did not
    return. *)
Fixpoint forEach_child (visit : Z -> NodeMap -> option NodeMap) (nodeKey : Z)
         (entries : NodeMap) (m : NodeMap) : option NodeMap :=
  match entries with
  | [] => Some m
  | (_, child) :: rest =>
      if parent_is (base child) nodeKey then
        match visit (key (base child)) m with
        | Some m' => forEach_child visit nodeKey rest m'
        | None => None
        end
      else forEach_child visit nodeKey rest m
  end.

(** The recursion is not structural; [fuel] bounds the call depth and
    [None] means the bound was hit. *)
Fixpoint assignDisplayLevelRecursive (fuel : nat) (nodeKey : Z) (lvl : Z)
         (nodeMap : NodeMap) : option NodeMap :=
  match fuel with
  | O => None
  | S fuel' =>
      match map_get nodeKey nodeMap with
      | Some _ =>
          let m1 := set_level nodeKey lvl nodeMap in
          forEach_child
            (fun k m => assignDisplayLevelRecursive fuel' k (lvl + 1) m)
            nodeKey m1 m1
      | None => Some nodeMap
      end
  end.

Definition assignDisplayLevels (fuel : nat) (data : list TreeNodeData)
  : option (list Leveled) :=
  let nodeMap :=
    fold_left (fun m n => map_set (key n) (mkLeveled n 0) m) data [] in
  let filled :=
    match find no_parent data with
    | Some root => assignDisplayLevelRecursive fuel (key root) 0 nodeMap
    | None => Some nodeMap
    end in
  option_map (map snd) filled.

(** Views of a map used to state what the recursion does. *)

(** The keys and nodes of a map, without the levels. *)
Definition erase (m : NodeMap) : list (Z * TreeNodeData) :=
  map (fun e => (fst e, base (snd e))) m.

(** The level stored under a key. *)
Definition lvl_of (m : NodeMap) (k : Z) : option Z :=
  option_map displayLevel (map_get k m).

(** A map over the nodes of [ns], in their order. *)
Definition over_ns (ns : list TreeNodeData) (m : NodeMap) : Prop :=
  erase m = map (fun n => (key n, n)) ns.

(** What one call of the recursion achieves on the node [c] at depth
    [dc], given fuel for the levels below it: it returns, the levels of
    the subtree of [c] are their depths, and no other level is written. *)
Definition visit_ok (ns : list TreeNodeData) (f : nat) : Prop :=
  forall c dc cur,
    over_ns ns cur -> DepthOf ns c dc -> (length ns <= f + dc)%nat ->
    exists m',
      assignDisplayLevelRecursive f c (Z.of_nat dc) cur = Some m' /\
      (forall x j, Desc ns c x j -> lvl_of m' x = Some (Z.of_nat (dc + j))) /\
      (forall x, lvl_of m' x = lvl_of cur x \/ in_subtree ns c x).

End Display.
Import Display.

(** ** Analysis-level labels *)

Module LevelLabel.

(** [\d] *)
Definition is_digit (c : N) : bool := ((48 <=? c) && (c <=? 57))%N.

(** Comparison of a code unit with an ASCII pattern character; under the
    [i] flag both sides are folded to upper case (a code unit above 127
    never folds onto an ASCII one). *)
Definition fold_case (c : N) : N :=
  if ((97 <=? c) && (c <=? 122))%N then (c - 32)%N else c.

Definition char_matches (ignoreCase : bool) (p c : N) : bool :=
  if ignoreCase then (fold_case p =? fold_case c)%N else (p =? c)%N.

(** Matches the literal [pat] at the start of [s]; returns the rest. *)
Fixpoint match_literal (ignoreCase : bool) (pat s : jsstring) : option jsstring :=
  match pat, s with
  | [], _ => Some s
  | p :: pat', c :: s' =>
      if char_matches ignoreCase p c then match_literal ignoreCase pat' s'
      else None
  | _ :: _, [] => None
  end.

(** [\d+] is greedy: the longest run of digits. *)
Fixpoint take_digits (s : jsstring) : jsstring :=
  match s with
  | c :: r => if is_digit c then c :: take_digits r else []
  | [] => []
  end.

(** [/Level (\d+)/] anchored at the start of [s]; the capture group. *)
Definition match_here (ignoreCase : bool) (s : jsstring) : option jsstring :=
  match match_literal ignoreCase (lit "Level ") s with
  | Some r =>
      match take_digits r with
      | [] => None
      | ds => Some ds
      end
  | None => None
  end.

(** [s.match(/Level (\d+)/)] (with the [i] flag when [ignoreCase]):
    the leftmost match; the result is [match[1]]. *)
Fixpoint match_Level (ignoreCase : bool) (s : jsstring) : option jsstring :=
  match match_here ignoreCase s with
  | Some ds => Some ds
  | None =>
      match s with
      | [] => None
      | _ :: r => match_Level ignoreCase r
      end
  end.

(** [parseInt(ds, 10)] on a non-empty run of decimal digits (exact as
    long as the value stays below 2^53). *)
Definition parseInt10 (ds : jsstring) : Z :=
  fold_left (fun acc c => acc * 10 + (Z.of_N c - 48)) ds 0.

(** [history.page.ts] *)
Definition extractLevelFromAnalysisLevel (analysisLevel : jsstring) : Z :=
  match match_Level false analysisLevel with
  | Some ds => parseInt10 ds
  | None => 1
  end.

(** [incident-edit-modal]; the argument is optional. *)
Definition extractLevelNumber (analysisLevel : option jsstring) : Z :=
  if negb (truthy_str analysisLevel) then 3
  else
    match analysisLevel with
    | Some l =>
        match match_Level false l with
        | Some ds => parseInt10 ds
        | None => 3
        end
    | None => 3
    end.

(** [UserDashboardComponent.extractLevelNumber], the third copy, which
    carries the [i] flag. *)
Definition dashboard_extractLevelNumber (analysisLevel : jsstring) : Z :=
  if negb (truthy_str (Some analysisLevel)) then 0
  else
    match match_Level true analysisLevel with
    | Some ds => parseInt10 ds
    | None => 0
    end.

End LevelLabel.
Import LevelLabel.

(** ** The mock store ([IncidentRepository]) *)

Module Repository.

Record IncidentRecord : Type := mkIncidentRecord {
  rec_id : Z;
  rec_userName : jsstring;
  rec_title : jsstring;
  rec_description : option jsstring;
  rec_details : option jsstring;
  rec_analysisLevel : option jsstring;
  rec_recordedDate : Z
}.

Record Stats : Type := mkStats {
  total : Z;
  thisMonth : Z;
  byAnalysisLevel : list (jsstring * Z)
}.

Record IncidentsData : Type := mkIncidentsData {
  incidents : list IncidentRecord;
  diagrams : list Diagram;
  stats : Stats
}.

(** [this.incidentsData]; [None] is [null] (not loaded yet). *)
Definition Store : Type := option IncidentsData.

(** A repository call: it either delivers a value or throws
    [new Error(msg)], and leaves a store behind. *)
Inductive outcome (A : Type) : Type :=
| Ok (a : A)
| Throw (msg : jsstring).
Arguments Ok {A} a.
Arguments Throw {A} msg.

Definition repo (A : Type) : Type := Store -> outcome A * Store.

Definition ret {A : Type} (a : A) : repo A := fun st => (Ok a, st).
Definition throw {A : Type} (msg : jsstring) : repo A := fun st => (Throw msg, st).
Definition bind {A B : Type} (c : repo A) (k : A -> repo B) : repo B :=
  fun st =>
    match c st with
    | (Ok a, st') => k a st'
    | (Throw msg, st') => (Throw msg, st')
    end.
Definition get_store : repo Store := fun st => (Ok st, st).
Definition put_store (st' : Store) : repo unit := fun _ => (Ok tt, st').

Notation "x <- c ;; k" := (bind c (fun x => k))
  (at level 61, c at next level, right associativity).

(** [fakeApiCall]: the delay aside, the generated data. *)
Definition fakeApiCall (incident : jsstring) (lvl : Z) : repo (list TreeNodeData) :=
  let mockData := generateGenericData incident lvl in
  ret mockData.

Definition generateDiagram (incident : jsstring) (lvl : Z) : repo (list TreeNodeData) :=
  fakeApiCall incident lvl.

(** [arr.findIndex(pred)]; [None] is [-1]. *)
Fixpoint findIndex {A : Type} (pred : A -> bool) (arr : list A) : option nat :=
  match arr with
  | [] => None
  | x :: r => if pred x then Some O else option_map S (findIndex pred r)
  end.

(** [arr[i] = v] for an index inside the array. *)
Fixpoint assign_at {A : Type} (i : nat) (v : A) (arr : list A) : list A :=
  match arr, i with
  | [], _ => []
  | _ :: r, O => v :: r
  | x :: r, S i' => x :: assign_at i' v r
  end.

(** [Partial<Diagram>] as built by [updateDiagram]. *)
Record DiagramUpdates : Type := mkUpdates {
  upd_title : option jsstring;
  upd_diagramJson : option jsstring
}.

(** [{ ...d, ...updates }] *)
Definition spread (d : Diagram) (u : DiagramUpdates) : Diagram :=
  mkDiagram (id d) (incidentId d)
            (match upd_title u with Some t => t | None => title d end)
            (match upd_diagramJson u with Some j => j | None => diagramJson d end)
            (diagramPdf d) (createdAt d).

Section WithJSON.

(** [JSON.stringify] on a node list. *)
Variable JSON_stringify : list TreeNodeData -> jsstring.

Definition updateDiagram (diagramId : Z) (newTitle : option jsstring)
           (diagramData : option (list TreeNodeData)) : repo Diagram :=
  st <- get_store ;;
  match st with
  | None => throw (lit "Incidents data not loaded")
  | Some dat =>
      match findIndex (fun d => id d =? diagramId) (diagrams dat) with
      | None => throw (lit "Diagram not found")
      | Some index =>
          let updates :=
            mkUpdates
              (if truthy_str newTitle then newTitle else None)
              (match diagramData with
               | Some nodes => Some (JSON_stringify nodes)
               | None => None
               end) in
          match nth_error (diagrams dat) index with
          | Some old =>
              let d' := spread old updates in
              _ <- put_store
                     (Some (mkIncidentsData (incidents dat)
                              (assign_at index d' (diagrams dat))
                              (stats dat))) ;;
              ret d'
          | None =>
              (* [index] came from [findIndex], so the read above
                 always succeeds *)
              throw (lit "Diagram not found")
          end
      end
  end.

End WithJSON.

End Repository.

(** ** Diagram editor ([IncidentEditModalComponent]) *)

Module Editor.

Import Repository.

(** Values of the controls of [editForm]; [None] is [null]. *)
Record Form : Type := mkForm {
  form_title : option jsstring;
  form_analysisLevel : option jsstring;
  form_description : option jsstring;
  form_details : option jsstring
}.

(** The form, and the signals of the component that the editing
    operations touch.  [canRegenerateDiagram_value] is what the computed
    signal [canRegenerateDiagram] holds: [None] until it is first read,
    the value computed at that read from then on. *)
Record State : Type := mkState {
  editForm : Form;
  diagramData : list TreeNodeData;
  editingNodeId : option Z;
  originalLevel : Z;
  diagramError : jsstring;
  isGeneratingDiagram : bool;
  canRegenerateDiagram_value : option jsvalue
}.

Definition set_diagramData (v : list TreeNodeData) (s : State) : State :=
  mkState (editForm s) v (editingNodeId s) (originalLevel s)
          (diagramError s) (isGeneratingDiagram s) (canRegenerateDiagram_value s).
Definition set_editingNodeId (v : option Z) (s : State) : State :=
  mkState (editForm s) (diagramData s) v (originalLevel s)
          (diagramError s) (isGeneratingDiagram s) (canRegenerateDiagram_value s).
Definition set_diagramError (v : jsstring) (s : State) : State :=
  mkState (editForm s) (diagramData s) (editingNodeId s) (originalLevel s)
          v (isGeneratingDiagram s) (canRegenerateDiagram_value s).
Definition set_isGeneratingDiagram (v : bool) (s : State) : State :=
  mkState (editForm s) (diagramData s) (editingNodeId s) (originalLevel s)
          (diagramError s) v (canRegenerateDiagram_value s).
Definition set_canRegenerateDiagram_value (v : option jsvalue) (s : State) : State :=
  mkState (editForm s) (diagramData s) (editingNodeId s) (originalLevel s)
          (diagramError s) (isGeneratingDiagram s) v.

(** The controls of the form take new values ([patchValue], or the user
    typing); the form is a plain object, no signal. *)
Definition set_editForm (v : Form) (s : State) : State :=
  mkState v (diagramData s) (editingNodeId s) (originalLevel s)
          (diagramError s) (isGeneratingDiagram s) (canRegenerateDiagram_value s).

(** The form as [initializeForm] builds it in the constructor. *)
Definition initializeForm : Form :=
  mkForm (Some []) (Some (lit "Level 3 - Moderate Analysis")) (Some []) (Some []).

(** [this.editForm.get('description')?.value?.trim()] *)
Definition trimmed_description (s : State) : option jsstring :=
  option_map trim (form_description (editForm s)).

(** The computation given to [computed] for [canRegenerateDiagram]:
    [description && description.length > 10 && level] on the form values
    of the moment (the form is set by the constructor, so [!this.editForm]
    is false). *)
Definition canRegenerateDiagram_body (s : State) : jsvalue :=
  match trimmed_description s with
  | None => VUndefined
  | Some description =>
      if negb (truthy_str (Some description)) then VStr description
      else if negb (strlen description >? 10) then VBool false
      else
        match form_analysisLevel (editForm s) with
        | Some lvl => VStr lvl
        | None => VNull
        end
  end.

(** A read of the computed signal [canRegenerateDiagram()].  The
    computation reads the form and no signal, so it runs at the first
    read only; every later read delivers the value of the first. *)
Definition canRegenerateDiagram (s : State) : jsvalue * State :=
  match canRegenerateDiagram_value s with
  | Some v => (v, s)
  | None =>
      let v := canRegenerateDiagram_body s in
      (v, set_canRegenerateDiagram_value (Some v) s)
  end.

Definition stopEditingNode (s : State) : State := set_editingNodeId None s.
Definition startEditingNode (nodeKey : Z) (s : State) : State :=
  set_editingNodeId (Some nodeKey) s.

(** [regenerateDiagram], with the awaited repository call run to its
    result on the store [st]; [try]/[catch]/[finally] are written out. *)
Definition regenerateDiagram (st : Store) (s : State) : State :=
  let (can, s0) := canRegenerateDiagram s in
  if negb (truthy can) then
    set_diagramError
      (lit "Please provide incident description and select a level first.") s0
  else
    let s1 := set_editingNodeId None
                (set_diagramError [] (set_isGeneratingDiagram true s0)) in
    let description := trimmed_description s1 in
    let analysisLevel := form_analysisLevel (editForm s1) in
    let lvl := extractLevelNumber analysisLevel in
    let s2 :=
      match description with
      | Some d =>
          if negb (truthy_str description) || (strlen d <? 10) then
            set_diagramError
              (lit "Incident description must be at least 10 characters long.") s1
          else
            match fst (generateDiagram d lvl st) with
            | Ok newDiagramData =>
                if 0 <? Z.of_nat (length newDiagramData) then
                  set_diagramData newDiagramData s1
                else
                  set_diagramError
                    (lit "No diagram data was generated. Please try again.") s1
            | Throw msg => set_diagramError msg s1
            end
      | None =>
          set_diagramError
            (lit "Incident description must be at least 10 characters long.") s1
      end in
    set_isGeneratingDiagram false s2.

Definition updateNodeText (nodeKey : Z) (newText : jsstring) (s : State) : State :=
  if negb (truthy_str (Some newText)) || negb (truthy_str (Some (trim newText))) then
    set_diagramError (lit "Node text cannot be empty.") s
  else
    let s1 :=
      set_diagramData
        (map (fun n => if key n =? nodeKey then with_name n (trim newText) else n)
             (diagramData s)) s in
    set_diagramError [] (stopEditingNode s1).

Definition addNewNode (s : State) : State :=
  let maxKey := max_with_0 (map key (diagramData s)) in
  let newNode := node (num_add maxKey 1) None (lit "New Analysis Point") in
  let s1 := set_diagramData (diagramData s ++ [newNode]) s in
  set_editingNodeId (Some (key newNode)) s1.

(** One round of [for (const child of children)]:
    [result.push(...recurse(child.key))]; a call that does not return
    ends the loop. *)
Definition push_subtree (recurse : Z -> option (list Z))
           (acc : option (list Z)) (child : TreeNodeData) : option (list Z) :=
  match acc with
  | Some res =>
      match recurse (key child) with
      | Some sub => Some (res ++ sub)
      | None => None
      end
  | None => None
  end.

(** [getNodeAndChildren]; [fuel] bounds the call depth, [None] means
    the bound was hit. *)
Fixpoint getNodeAndChildren (fuel : nat) (nodeKey : Z) (nodes : list TreeNodeData)
  : option (list Z) :=
  match fuel with
  | O => None
  | S fuel' =>
      let result := [nodeKey] in
      let children := filter (fun n => parent_is n nodeKey) nodes in
      fold_left
        (push_subtree (fun k => getNodeAndChildren fuel' k nodes))
        children (Some result)
  end.

(** [xs.includes(k)] *)
Definition includes (xs : list Z) (k : Z) : bool := existsb (Z.eqb k) xs.

Definition removeNode (fuel : nat) (nodeKey : Z) (s : State) : option State :=
  match getNodeAndChildren fuel nodeKey (diagramData s) with
  | Some nodesToRemove =>
      let s1 :=
        set_diagramData
          (filter (fun n => negb (includes nodesToRemove (key n))) (diagramData s)) s in
      Some (match editingNodeId s1 with
            | Some e => if e =? nodeKey then set_editingNodeId None s1 else s1
            | None => s1
            end)
  | None => None
  end.

(** [rootNodesCount] *)
Definition rootNodesCount (s : State) : Z :=
  Z.of_nat (length (filter no_parent (diagramData s))).

End Editor.

(** ** Sample data *)

Module Samples.

Import Editor.

(** A root with two children, one of which has a child of its own. *)
Definition small_tree : list TreeNodeData :=
  [ node 1 None (lit "Slip Incident");
    node 2 (Some 1) (lit "Environmental Factors");
    node 3 (Some 2) (lit "Wet Floor Condition");
    node 4 (Some 1) (lit "Safety Protocol Issues") ].

Definition form_with (description lvl : string) : Form :=
  mkForm (Some []) (Some (lit lvl)) (Some (lit description)) (Some []).

(** An editor showing [nodes], with node [editing] in edit mode. *)
Definition editor_on (nodes : list TreeNodeData) (editing : option Z) : State :=
  mkState (form_with "Worker slipped on wet floor" "Level 3 - Moderate Analysis")
          nodes editing 3 [] false None.

(** The root found by the depth assigner depends on the order here:
    the first node refers to key 0 as its parent. *)
Definition zero_keyed_root : list TreeNodeData :=
  [ node 5 (Some 0) (lit "Cause"); node 0 None (lit "Incident") ].

(** A description of exactly ten characters; the guard was not read
    yet. *)
Definition ten_character_editor : State :=
  mkState (form_with "Oil spill." "Level 3 - Moderate Analysis")
          small_tree None 3 [] false None.

Definition ten_character_form : Form :=
  form_with "Oil spill." "Level 3 - Moderate Analysis".

(** A description of 27 characters. *)
Definition long_form : Form :=
  form_with "Worker slipped on wet floor" "Level 3 - Moderate Analysis".

(** The editor as the constructor leaves it, showing [small_tree]. *)
Definition constructed_editor : State :=
  mkState initializeForm small_tree None 3 [] false None.

(** Nodes whose largest key is [2^53]. *)
Definition huge_keys : list TreeNodeData :=
  [ node 1 None (lit "Incident"); node 9007199254740992 (Some 1) (lit "Cause") ].

Definition negative_keys : list TreeNodeData :=
  [ node (-5) None (lit "Incident") ].

(** A loaded store with two diagrams and no incidents. *)
Definition warehouse_diagram : Diagram :=
  mkDiagram 1 1 (lit "Warehouse Slip") (lit "[]") None 1705314600.
Definition fire_diagram : Diagram :=
  mkDiagram 2 2 (lit "Control Panel Fire") (lit "[]") None 1708438500.
Definition two_diagrams : Repository.Store :=
  Some (Repository.mkIncidentsData [] [warehouse_diagram; fire_diagram]
          (Repository.mkStats 0 0 [])).

(** A stand-in serializer: the node names one after the other. *)
Definition names_only (nodes : list TreeNodeData) : jsstring :=
  concat (map name nodes).

End Samples.

(** ** Editor: level views and save validation ([IncidentEditModalComponent]) *)

Module EditorViews.

Import Editor.

(** The [while (currentNode.parent)] loop of [getNodeLevel]; [fuel]
    bounds the number of loop tests, [None] means the bound was hit. *)
Fixpoint getNodeLevel_loop (fuel : nat) (lvl : Z) (currentNode : TreeNodeData)
         (nodes : list TreeNodeData) : option Z :=
  match fuel with
  | O => None
  | S fuel' =>
      if truthy_num (parent currentNode) then
        let lvl' := lvl + 1 in
        match find (fun n => parent_is currentNode (key n)) nodes with
        | Some parentNode => getNodeLevel_loop fuel' lvl' parentNode nodes
        | None => Some lvl'
        end
      else Some lvl
  end.

Definition getNodeLevel (fuel : nat) (s : State) (n : TreeNodeData) : option Z :=
  getNodeLevel_loop fuel 0 n (diagramData s).

(** [xs.map(f)] for a callback that may not return. *)
Fixpoint map_returning {A B : Type} (f : A -> option B) (xs : list A)
  : option (list B) :=
  match xs with
  | [] => Some []
  | x :: r =>
      match f x with
      | Some y =>
          match map_returning f r with
          | Some ys => Some (y :: ys)
          | None => None
          end
      | None => None
      end
  end.

Definition getMaxLevel (fuel : nat) (s : State) : option Z :=
  option_map max_with_0 (map_returning (getNodeLevel fuel s) (diagramData s)).

(** The object [nodesByLevel], used as a map from level to bucket. *)
Definition LevelObject : Type := list (Z * list TreeNodeData).

Fixpoint obj_get (k : Z) (o : LevelObject) : option (list TreeNodeData) :=
  match o with
  | [] => None
  | (k', b) :: r => if k' =? k then Some b else obj_get k r
  end.

(** [if (!o[k]) o[k] = []; o[k].push(n)] *)
Fixpoint obj_push (k : Z) (n : TreeNodeData) (o : LevelObject) : LevelObject :=
  match o with
  | [] => [(k, [n])]
  | (k', b) :: r =>
      if k' =? k then (k', b ++ [n]) :: r else (k', b) :: obj_push k n r
  end.

(** The [forEach] of [getNodesByLevel]. *)
Fixpoint group_nodes (level_of : TreeNodeData -> option Z) (xs : list TreeNodeData)
         (o : LevelObject) : option LevelObject :=
  match xs with
  | [] => Some o
  | n :: r =>
      match level_of n with
      | Some l => group_nodes level_of r (obj_push l n o)
      | None => None
      end
  end.

Definition getNodesByLevel (fuel : nat) (s : State)
  : option (list (list TreeNodeData)) :=
  match group_nodes (getNodeLevel fuel s) (diagramData s) [] with
  | Some nodesByLevel =>
      match getMaxLevel fuel s with
      | Some maxLevel =>
          Some (for_upto (Z.to_nat (maxLevel + 1)) 0
                  (fun i result =>
                     result ++ [match obj_get i nodesByLevel with
                                | Some b => b
                                | None => []
                                end])
                  [])
      | None => None
      end
  | None => None
  end.

(** [Array.from({ length: maxLevel + 1 }, (_, i) => i)] *)
Definition getLevelsArray (fuel : nat) (s : State) : option (list Z) :=
  option_map (fun maxLevel =>
                for_upto (Z.to_nat (maxLevel + 1)) 0 (fun i arr => arr ++ [i]) [])
             (getMaxLevel fuel s).

(** The bucket read back from the object: [o[k] || []]. *)
Definition bucket (k : Z) (o : LevelObject) : list TreeNodeData :=
  match obj_get k o with
  | Some b => b
  | None => []
  end.

(** The nodes for which [level_of] returns [k]. *)
Definition at_level (level_of : TreeNodeData -> option Z) (k : Z)
           (n : TreeNodeData) : bool :=
  match level_of n with
  | Some l => l =? k
  | None => false
  end.

Definition isRootNode (n : TreeNodeData) : bool := no_parent n.

Definition totalNodesCount (s : State) : Z := Z.of_nat (length (diagramData s)).


(** The callback of that check on one node. *)
Definition invalid_name (n : TreeNodeData) : bool :=
  negb (truthy_str (Some (name n))) || (strlen (trim (name n)) =? 0).

Definition getLevelFromNumber (lvl : Z) : jsstring :=
  if lvl =? 1 then lit "Level 1 - Basic Analysis"
  else if lvl =? 2 then lit "Level 2 - Low Priority"
  else if lvl =? 3 then lit "Level 3 - Moderate Analysis"
  else if lvl =? 4 then lit "Level 4 - Detailed Analysis"
  else if lvl =? 5 then lit "Level 5 - Comprehensive Analysis"
  else lit "Level 3 - Moderate Analysis".

(** [MainPage.mapLevelToAnalysisLevel]: [levelMap[level] || default]. *)
Definition mapLevelToAnalysisLevel (lvl : Z) : jsstring :=
  let levelMap :=
    [ (3, lit "Level 3 - Basic Analysis");
      (4, lit "Level 4 - Detailed Analysis");
      (5, lit "Level 5 - Comprehensive Analysis") ] in
  match find (fun e => fst e =? lvl) levelMap with
  | Some e => snd e
  | None => lit "Level 3 - Basic Analysis"
  end.

End EditorViews.

(** ** Node colours ([HierarchyDiagramComponent]) *)

Module Colours.

Definition levelColors : list jsstring :=
  map lit ["#E3F2FD"; "#F3E5F5"; "#E8F5E8"; "#FFF3E0";
           "#FCE4EC"; "#F1F8E9"; "#E0F2F1"; "#FFF8E1"]%string.

(** The [fill] binding of the node template; [%] is the remainder that
    takes the sign of the dividend. *)
Definition fill (displayLevel : Z) : jsstring :=
  if displayLevel =? 0 then lit "#4A90E2"
  else
    let c := index levelColors
                   (Z.rem (displayLevel - 1) (Z.of_nat (length levelColors))) in
    if truthy_str c then
      match c with
      | Some colour => colour
      | None => lit "#E3F2FD"
      end
    else lit "#E3F2FD".

(** The [stroke] binding of the label. *)
Definition stroke (displayLevel : Z) : jsstring :=
  if displayLevel =? 0 then lit "white" else lit "#333".

End Colours.

(** ** More of the mock store ([IncidentRepository]) *)

Module RepositoryOps.

Import Repository.

(** [a === b] on strings. *)
Fixpoint str_eqb (a b : jsstring) : bool :=
  match a, b with
  | [], [] => true
  | x :: a', y :: b' => (x =? y)%N && str_eqb a' b'
  | _, _ => false
  end.

(** [s.split(' ')]: always at least one piece. *)
Fixpoint split_space (s : jsstring) : list jsstring :=
  match s with
  | [] => [[]]
  | c :: r =>
      if (c =? 32)%N then [] :: split_space r
      else
        match split_space r with
        | w :: ws => (c :: w) :: ws
        | [] => [[c]]
        end
  end.

(** [words.join(' ')] *)
Fixpoint join_space (words : list jsstring) : jsstring :=
  match words with
  | [] => []
  | [w] => w
  | w :: r => w ++ 32%N :: join_space r
  end.

(** [generateTitle]; [MainPage.generateTitleFromIncident] is the same
    without the first line. *)
Definition generateTitle (description : jsstring) : jsstring :=
  if negb (truthy_str (Some description)) then lit "Untitled Incident"
  else
    let words := firstn 4 (split_space description) in
    join_space words
    ++ (if Z.of_nat (length (split_space description)) >? 4 then lit "..." else []).

(** [generateId] *)
Definition generateId (st : Store) : Z :=
  match st with
  | None => 1
  | Some dat =>
      let maxId := max_with_0 (map rec_id (incidents dat) ++ map id (diagrams dat)) in
      num_add maxId 1
  end.

(** The property names an object literal inherits from
    [Object.prototype]: reading one of them from [{}] does not give
    [undefined]. *)
Definition inherited_names : list jsstring :=
  map lit ["constructor"; "toString"; "toLocaleString"; "valueOf";
           "hasOwnProperty"; "isPrototypeOf"; "propertyIsEnumerable";
           "__proto__"; "__defineGetter__"; "__defineSetter__";
           "__lookupGetter__"; "__lookupSetter__"]%string.

(** [acc[level]] on the tally object. *)
Fixpoint tally_get (k : jsstring) (acc : list (jsstring * Z)) : option Z :=
  match acc with
  | [] => None
  | (k', v) :: r => if str_eqb k' k then Some v else tally_get k r
  end.

(** [acc[level] = v] *)
Fixpoint tally_set (k : jsstring) (v : Z) (acc : list (jsstring * Z))
  : list (jsstring * Z) :=
  match acc with
  | [] => [(k, v)]
  | (k', v') :: r =>
      if str_eqb k' k then (k', v) :: r else (k', v') :: tally_set k v r
  end.

(** The callback of the [reduce] in [updateStats]:
    [acc[level] = (acc[level] || 0) + 1] with
    [level = record.analysisLevel || 'Unknown'].  The object is used as a
    map from label to count; this is what the code does for every label
    outside [inherited_names]. *)
Definition tally_step (acc : list (jsstring * Z)) (r : IncidentRecord)
  : list (jsstring * Z) :=
  let lvl := if truthy_str (rec_analysisLevel r)
             then match rec_analysisLevel r with Some l => l | None => [] end
             else lit "Unknown" in
  let old := match tally_get lvl acc with
             | Some v => if v =? 0 then 0 else v
             | None => 0
             end in
  tally_set lvl (old + 1) acc.

(** [record.analysisLevel || 'Unknown'] *)
Definition label_or_unknown (r : IncidentRecord) : jsstring :=
  if truthy_str (rec_analysisLevel r)
  then match rec_analysisLevel r with Some l => l | None => [] end
  else lit "Unknown".

(** The count stored for a label, 0 when the label has no entry. *)
Definition tally_count (k : jsstring) (acc : list (jsstring * Z)) : Z :=
  match tally_get k acc with
  | Some v => v
  | None => 0
  end.

(** [arr.splice(index, 1)] for an index inside the array. *)
Fixpoint splice1 {A : Type} (i : nat) (arr : list A) : list A :=
  match arr, i with
  | [], _ => []
  | _ :: r, O => r
  | x :: r, S i' => x :: splice1 i' r
  end.

(** [CreateIncidentRequest] *)
Record CreateIncidentRequest : Type := mkCreateIncidentRequest {
  dto_userName : jsstring;
  dto_title : jsstring;
  dto_description : option jsstring;
  dto_details : option jsstring;
  dto_analysisLevel : option jsstring
}.

(** [v || ''] *)
Definition or_empty (v : option jsstring) : jsstring :=
  match v with
  | Some x => x
  | None => []
  end.

(** An incident with its [diagrams] property filled in. *)
Record IncidentWithDiagrams : Type := mkIncidentWithDiagrams {
  incident_record : IncidentRecord;
  incident_diagrams : list Diagram
}.

(** [arr.sort(cmp)]: the sort is stable, so for a comparator that is a
    difference of numbers the result is the one of a stable insertion
    sort. *)
Fixpoint insert_sorted {A : Type} (cmp : A -> A -> Z) (x : A) (l : list A) : list A :=
  match l with
  | [] => [x]
  | y :: r => if cmp x y <=? 0 then x :: y :: r else y :: insert_sorted cmp x r
  end.

Definition stable_sort {A : Type} (cmp : A -> A -> Z) (l : list A) : list A :=
  fold_right (insert_sorted cmp) [] l.

(** [(a, b) => b.recordedDate.getTime() - a.recordedDate.getTime()] *)
Definition newest_first (a b : IncidentRecord) : Z :=
  rec_recordedDate b - rec_recordedDate a.

(** [a] is not older than [b]. *)
Definition not_older (a b : IncidentRecord) : Prop :=
  rec_recordedDate b <= rec_recordedDate a.

Definition with_diagrams (dat : IncidentsData) (r : IncidentRecord)
  : IncidentWithDiagrams :=
  mkIncidentWithDiagrams r (filter (fun d => incidentId d =? rec_id r) (diagrams dat)).

(** What [getHistoryForUser] delivers on the loaded data (the constructor
    loads it); the store is only read. *)
Definition getHistoryForUser (dat : IncidentsData) (userName : jsstring)
  : list IncidentWithDiagrams :=
  map (with_diagrams dat)
      (stable_sort newest_first
         (filter (fun r => str_eqb (rec_userName r) userName) (incidents dat))).

(** [getAllIncidents] on the loaded data: the array of the store is
    sorted in place, so the call also leaves a store behind. *)
Definition getAllIncidents (dat : IncidentsData)
  : list IncidentWithDiagrams * IncidentsData :=
  let sorted := stable_sort newest_first (incidents dat) in
  let dat' := mkIncidentsData sorted (diagrams dat) (stats dat) in
  (map (with_diagrams dat') sorted, dat').

(** What [getIncidentById] delivers on the loaded data. *)
Definition getIncidentById (dat : IncidentsData) (incidentId : Z)
  : option IncidentWithDiagrams :=
  match find (fun r => rec_id r =? incidentId) (incidents dat) with
  | Some r => Some (with_diagrams dat r)
  | None => None
  end.

Section WithClock.

(** [new Date()] at the time of the call, and the first instant of its
    month ([setDate(1); setHours(0, 0, 0, 0)]), both as epoch times. *)
Variable now : Z.
Variable monthStart : Z.

(** [JSON.stringify] on a node list. *)
Variable JSON_stringify : list TreeNodeData -> jsstring.

(** [updateStats] on loaded data with the given incidents. *)
Definition updateStats (dat : IncidentsData) : IncidentsData :=
  let thisMonthCount :=
    Z.of_nat (length (filter (fun r => rec_recordedDate r >=? monthStart)
                             (incidents dat))) in
  let byLevel := fold_left tally_step (incidents dat) [] in
  mkIncidentsData (incidents dat) (diagrams dat)
    (mkStats (Z.of_nat (length (incidents dat))) thisMonthCount byLevel).

Definition saveIncident (userName : jsstring) (dto : CreateIncidentRequest)
  : repo IncidentRecord :=
  st <- get_store ;;
  match st with
  | None => throw (lit "Incidents data not loaded")
  | Some dat =>
      let newRecord :=
        mkIncidentRecord
          (generateId st) userName
          (if truthy_str (Some (dto_title dto)) then dto_title dto
           else generateTitle (if truthy_str (dto_description dto)
                               then or_empty (dto_description dto) else []))
          (Some (if truthy_str (dto_description dto)
                 then or_empty (dto_description dto) else []))
          (Some (if truthy_str (dto_details dto)
                 then or_empty (dto_details dto) else []))
          (Some (if truthy_str (dto_analysisLevel dto)
                 then or_empty (dto_analysisLevel dto) else []))
          now in
      _ <- put_store
             (Some (updateStats
                      (mkIncidentsData (incidents dat ++ [newRecord])
                                       (diagrams dat) (stats dat)))) ;;
      ret newRecord
  end.

Definition createDiagram (incId : Z) (newTitle : jsstring)
           (diagramData : list TreeNodeData) : repo Diagram :=
  st <- get_store ;;
  match st with
  | None => throw (lit "Incidents data not loaded")
  | Some dat =>
      let newDiagram :=
        mkDiagram (generateId st) incId newTitle (JSON_stringify diagramData)
                  None now in
      _ <- put_store
             (Some (mkIncidentsData (incidents dat)
                                    (diagrams dat ++ [newDiagram]) (stats dat))) ;;
      ret newDiagram
  end.

Definition deleteIncident (incId : Z) : repo bool :=
  st <- get_store ;;
  match st with
  | None => throw (lit "Incidents data not loaded")
  | Some dat =>
      match findIndex (fun r => rec_id r =? incId) (incidents dat) with
      | None => throw (lit "Incident record not found")
      | Some index =>
          let diagrams' :=
            filter (fun d => negb (incidentId d =? incId)) (diagrams dat) in
          let incidents' := splice1 index (incidents dat) in
          _ <- put_store
                 (Some (updateStats
                          (mkIncidentsData incidents' diagrams' (stats dat)))) ;;
          ret true
      end
  end.

End WithClock.

End RepositoryOps.

(** ** History page: pagination ([HistoryComponent]) *)

Module HistoryPage.

(** [arr.slice(start, end)] *)
Definition slice {A : Type} (start stop : Z) (arr : list A) : list A :=
  let len := Z.of_nat (length arr) in
  let k := if start <? 0 then Z.max (len + start) 0 else Z.min start len in
  let final := if stop <? 0 then Z.max (len + stop) 0 else Z.min stop len in
  firstn (Z.to_nat (final - k)) (skipn (Z.to_nat k) arr).

(** [Math.ceil(n / d)] for a count [n] and a positive [d]. *)
Definition ceil_div (n d : Z) : Z := - ((- n) / d).

Section Paging.

Variable A : Type.

(** The signals behind the pager, with the filtered list as it is read. *)
Record Pager : Type := mkPager {
  filteredIncidents : list A;
  currentPage : Z;
  itemsPerPage : Z
}.

Definition paginatedIncidents (p : Pager) : list A :=
  let start := (currentPage p - 1) * itemsPerPage p in
  let stop := start + itemsPerPage p in
  slice start stop (filteredIncidents p).

Definition totalPages (p : Pager) : Z :=
  ceil_div (Z.of_nat (length (filteredIncidents p))) (itemsPerPage p).

(** The page shown for the list [l] when the pager stands at [k]. *)
Definition page (l : list A) (per k : Z) : list A :=
  paginatedIncidents (mkPager l k per).

Definition goToPage (page : Z) (p : Pager) : Pager :=
  if (page >=? 1) && (page <=? totalPages p)
  then mkPager (filteredIncidents p) page (itemsPerPage p)
  else p.

End Paging.

End HistoryPage.

(** ** Checking the tree invariants *)

Module TreeCheck.

(** A walk up the parent links, looking nodes up by key. *)
Fixpoint depth_walk (fuel : nat) (ns : list TreeNodeData) (k : Z) : option nat :=
  match fuel with
  | O => None
  | S fuel' =>
      match find (fun n => key n =? k) ns with
      | Some n =>
          match parent n with
          | Some p => option_map S (depth_walk fuel' ns p)
          | None => Some O
          end
      | None => None
      end
  end.

(** A decision procedure for the tree invariants. *)
Definition tree_check (ns : list TreeNodeData) : bool :=
  match filter is_root ns with
  | [_] =>
      forallb (fun n => match depth_walk (length ns) ns (key n) with
                        | Some _ => true
                        | None => false
                        end) ns
  | _ => false
  end.

End TreeCheck.
Import TreeCheck.

(** ** Sample store *)

Module SampleStore.

Import Repository RepositoryOps.

Definition slip_record : IncidentRecord :=
  mkIncidentRecord 1 (lit "jdoe") (lit "Warehouse Slip Incident")
    (Some (lit "Worker slipped on wet floor in warehouse section B"))
    (Some []) (Some (lit "Level 3 - Moderate Analysis")) 1705314600.

Definition fire_record : IncidentRecord :=
  mkIncidentRecord 2 (lit "admin") (lit "Control Panel Fire")
    (Some (lit "Fire started in electrical control panel"))
    (Some []) (Some (lit "Level 4 - Detailed Analysis")) 1708438500.

Definition ladder_record : IncidentRecord :=
  mkIncidentRecord 6 (lit "jdoe") (lit "Ladder Fall Incident")
    (Some (lit "Employee fell from ladder while changing light bulb"))
    (Some []) (Some (lit "Level 4 - Detailed Analysis")) 1721049600.

(** Three incidents, two of them with a diagram. *)
Definition loaded : IncidentsData :=
  mkIncidentsData [slip_record; fire_record; ladder_record]
                  [Samples.warehouse_diagram; Samples.fire_diagram]
                  (mkStats 3 0 []).

Definition near_miss_request : CreateIncidentRequest :=
  mkCreateIncidentRequest (lit "jdoe") []
    (Some (lit "Near miss - forklift almost collided with pedestrian"))
    None (Some (lit "Level 2 - Basic Analysis")).

End SampleStore.

(** * Properties *)

(** ** Generator *)

Module GeneratorSpec.

(** Both loops only append, so the first element stays the root. *)
Lemma for_upto_data_head (body : Z -> locals -> locals) :
  (forall i st, exists nd, data (body i st) = data st ++ [nd]) ->
  forall n i st r rest,
    data st = r :: rest ->
    exists rest', data (for_upto n i body st) = r :: rest'.
Proof.
  intros Hbody n; induction n as [|n IH]; intros i st r rest Hd; simpl.
  - eauto.
  - destruct (Hbody i st) as [nd Hnd].
    apply (IH (i + 1) (body i st) r (rest ++ [nd])).
    rewrite Hnd, Hd; reflexivity.
Qed.

Lemma generate_head (text : jsstring) (lvl : Z) :
  exists rest,
    generateGenericData text lvl = node 1 None (truncateIncidentName text) :: rest.
Proof.
  unfold generateGenericData.
  set (st0 := mkLocals _ 2 []).
  destruct (for_upto_data_head level1_body
              (fun i st => ex_intro _ _ eq_refl)
              (Z.to_nat (Z.min 5 (lvl + 2))) 0 st0 _ [] eq_refl) as [r1 H1].
  destruct (lvl >=? 2).
  - eapply for_upto_data_head; [intros i st; eexists; reflexivity | exact H1].
  - eauto.
Qed.

Lemma strlen_repeat (c : N) (n : nat) : strlen (repeat c n) = Z.of_nat n.
Proof. unfold strlen; now rewrite repeat_length. Qed.

(** C6. The root name is the incident text itself when the text has at
    most 30 code units; a longer text is cut to its first 27 code units
    followed by the three-character marker, 30 code units in all.  In
    particular 29 repetitions of "x" stay as they are and 31 repetitions
    become 27 of them and the marker. *)
Theorem root_name_truncation (text : jsstring) (lvl : Z) :
  (strlen text <= 30 -> root_name text lvl = Some text) /\
  (30 < strlen text ->
     root_name text lvl = Some (firstn 27 text ++ lit "...") /\
     strlen (firstn 27 text ++ lit "...") = 30) /\
  root_name (repeat 120%N 29) lvl = Some (repeat 120%N 29) /\
  root_name (repeat 120%N 31) lvl = Some (repeat 120%N 27 ++ lit "...").
Proof.
  assert (Hname : root_name text lvl = Some (truncateIncidentName text)).
  { unfold root_name. destruct (generate_head text lvl) as [rest ->]. reflexivity. }
  assert (Hx : forall m, root_name (repeat 120%N m) lvl
                         = Some (truncateIncidentName (repeat 120%N m))).
  { intro m. unfold root_name.
    destruct (generate_head (repeat 120%N m) lvl) as [rest ->]. reflexivity. }
  repeat split.
  - intro Hle. rewrite Hname. unfold truncateIncidentName.
    destruct (Z.leb_spec (strlen text) 30); [reflexivity | lia].
  - rewrite Hname. unfold truncateIncidentName.
    destruct (Z.leb_spec (strlen text) 30); [lia | reflexivity].
  - unfold strlen in *. rewrite length_app, firstn_length_le by lia.
    reflexivity.
  - rewrite Hx. reflexivity.
  - rewrite Hx. reflexivity.
Qed.

Lemma root_name_truncation_witness :
  30 < strlen (lit "A forklift reversed into the loading bay door") /\
  root_name (lit "A forklift reversed into the loading bay door") 3
  = Some (lit "A forklift reversed into th...").
Proof.
  split; [reflexivity |].
  destruct (root_name_truncation
              (lit "A forklift reversed into the loading bay door") 3)
    as (_ & Hlong & _).
  apply Hlong. reflexivity.
Defined.

(** Case analysis on an index into a list of at most six elements. *)
Ltac by_index i H :=
  destruct i as [|[|[|[|[|[|[|i]]]]]]]; cbv in H;
  first
    [ discriminate H
    | inversion H; subst; clear H;
      repeat match goal with
             | |- _ /\ _ => split
             | |- exists _, _ => eexists
             end; reflexivity ].

(** C1. For a level between 1 and 5 the output is the root (key 1, no
    parent), then [min(5, level + 2)] first-layer nodes with parent 1
    and keys 2, 3, ... named after the fixed category list, then, when
    the level is at least 2, [min(2 * firstLayerCount, 6)] second-layer
    nodes, the i-th of which hangs under first-layer node
    [i mod firstLayerCount]; the root is the only node without a parent;
    the example of the specification has 12 nodes. *)
Theorem generate_structure (text : jsstring) (lvl : Z) :
  1 <= lvl <= 5 ->
  let flc := Z.to_nat (Z.min 5 (lvl + 2)) in
  let slc := if lvl >=? 2 then Z.to_nat (Z.min (Z.of_nat flc * 2) 6) else O in
  (exists root first second,
     generateGenericData text lvl = root :: first ++ second /\
     key root = 1 /\ parent root = None /\
     name root = truncateIncidentName text /\
     length first = flc /\
     (forall i n, nth_error first i = Some n ->
        key n = 2 + Z.of_nat i /\ parent n = Some 1 /\
        nth_error level1Names i = Some (name n)) /\
     length second = slc /\
     (forall i n, nth_error second i = Some n ->
        key n = 2 + Z.of_nat flc + Z.of_nat i /\
        (exists p, nth_error first (i mod flc) = Some p /\
                   parent n = Some (key p)) /\
        nth_error level2Names i = Some (name n))) /\
  length (filter is_root (generateGenericData text lvl)) = 1%nat /\
  length (filter no_parent (generateGenericData text lvl)) = 1%nat /\
  length (generateGenericData (lit "Worker slipped on wet floor") 3) = 12%nat.
Proof.
  intros H flc slc.
  assert (C : lvl = 1 \/ lvl = 2 \/ lvl = 3 \/ lvl = 4 \/ lvl = 5) by lia.
  clear H; destruct C as [->|[->|[->|[->| ->]]]];
    (* the text only enters the root name: evaluate the rest *)
    remember (generateGenericData text _) as g eqn:E;
    cbv -[truncateIncidentName] in E; subst g;
    (split; [| repeat split; reflexivity]);
    match goal with
    | |- exists r f s, ?r0 :: ?l = _ /\ _ =>
        exists r0, (firstn flc l), (skipn flc l)
    end;
    (split; [reflexivity |]);
    repeat (split; [reflexivity |]);
    (split; [intros i n Hn; cbv in Hn; by_index i Hn |]);
    (split; [reflexivity |]);
    intros i n Hn; cbv in Hn; by_index i Hn.
Qed.

Lemma generate_structure_witness :
  1 <= 3 <= 5 /\
  length (filter is_root
            (generateGenericData (lit "Worker slipped on wet floor") 3)) = 1%nat.
Proof.
  split; [lia |].
  apply (generate_structure (lit "Worker slipped on wet floor") 3). lia.
Defined.

End GeneratorSpec.

(** ** Parent links under unique keys *)

Module LinksFacts.

Lemma parent_is_true (n : TreeNodeData) (k : Z) :
  parent_is n k = true <-> parent n = Some k.
Proof.
  unfold parent_is. destruct (parent n) as [p|].
  - rewrite Z.eqb_eq. split; congruence.
  - split; discriminate.
Qed.

Section UniqueKeys.

Variable ns : list TreeNodeData.
Hypothesis Hkeys : NoDup (map key ns).

Lemma key_inj (n n' : TreeNodeData) :
  In n ns -> In n' ns -> key n = key n' -> n = n'.
Proof using Hkeys.
  clear -Hkeys. induction ns as [|x l IH]; simpl in *; [tauto |].
  inversion Hkeys as [|? ? Hx Hl]; subst.
  intros [->|Hn] [->|Hn'] E; auto.
  - exfalso; apply Hx. rewrite E. now apply in_map.
  - exfalso; apply Hx. rewrite <- E. now apply in_map.
Qed.

Lemma nodes_nodup : NoDup ns.
Proof using Hkeys. exact (NoDup_map_inv key ns Hkeys). Qed.

Lemma DepthOf_key_in (k : Z) (d : nat) :
  DepthOf ns k d -> In k (map key ns).
Proof. destruct 1; now apply in_map. Qed.

(** The depth of a key is determined. *)
Lemma DepthOf_fun (k : Z) (d1 d2 : nat) :
  DepthOf ns k d1 -> DepthOf ns k d2 -> d1 = d2.
Proof using Hkeys.
  intros H1; revert d2.
  induction H1 as [n Hn Hp | n p d Hn Hp Hd IH]; intros d2 H2;
    inversion H2 as [n' Hn' Hp' E | n' p' d' Hn' Hp' Hd' E]; subst;
    apply key_inj in E; auto; subst n'; try congruence.
  f_equal. apply IH. congruence.
Qed.

Lemma Desc_depth (a k : Z) (d j : nat) :
  DepthOf ns a d -> Desc ns a k j -> DepthOf ns k (d + j).
Proof.
  intros Ha H; induction H as [| n p j Hn Hp _ IH].
  - now rewrite Nat.add_0_r.
  - rewrite Nat.add_succ_r. eapply depth_child; eauto.
Qed.

(** The keys on the parent chain of a node at depth [d] are [d + 1]
    different keys of the list. *)
Lemma DepthOf_chain (k : Z) (d : nat) :
  DepthOf ns k d ->
  exists path,
    length path = S d /\ NoDup path /\ incl path (map key ns) /\
    forall x, In x path -> exists d', (d' <= d)%nat /\ DepthOf ns x d'.
Proof using Hkeys.
  induction 1 as [n Hn Hp | n p d Hn Hp Hd IH].
  - exists [key n]. repeat split.
    + constructor; [simpl; tauto | constructor].
    + intros x [<-|[]]. now apply in_map.
    + intros x [<-|[]]. exists O. split; [lia | now constructor].
  - destruct IH as (path & Hlen & Hnd & Hincl & Hdep).
    exists (key n :: path). repeat split.
    + simpl; now rewrite Hlen.
    + constructor; [| assumption].
      intro Hin. destruct (Hdep _ Hin) as (d' & Hle & Hd').
      assert (DepthOf ns (key n) (S d)) by (eapply depth_child; eauto).
      assert (d' = S d) by (eapply DepthOf_fun; eauto). lia.
    + intros x [<-|Hx]; [now apply in_map | now apply Hincl].
    + intros x [<-|Hx].
      * exists (S d). split; [lia | eapply depth_child; eauto].
      * destruct (Hdep _ Hx) as (d' & Hle & Hd'). exists d'. split; [lia | assumption].
Qed.

Lemma DepthOf_bound (k : Z) (d : nat) :
  DepthOf ns k d -> (d < length ns)%nat.
Proof using Hkeys.
  intro H. destruct (DepthOf_chain k d H) as (path & Hlen & Hnd & Hincl & _).
  pose proof (NoDup_incl_length Hnd Hincl) as Hle.
  rewrite length_map in Hle. lia.
Qed.

Lemma Desc_under_child (a k : Z) (c : TreeNodeData) (j : nat) :
  In c ns -> parent c = Some a -> Desc ns (key c) k j -> Desc ns a k (S j).
Proof.
  intros Hc Hp H; induction H as [| n p j Hn Hpn _ IH].
  - eapply desc_child; eauto. constructor.
  - eapply desc_child; eauto.
Qed.

Lemma Desc_split_top (a k : Z) (j : nat) :
  Desc ns a k (S j) ->
  exists c, In c ns /\ parent c = Some a /\ Desc ns (key c) k j.
Proof.
  revert k; induction j as [|j IH]; intros k H;
    inversion H as [| n p j' Hn Hp Hd]; subst.
  - inversion Hd; subst. exists n. repeat split; auto. constructor.
  - destruct (IH _ Hd) as (c & Hc & Hpc & Hdc).
    exists c. repeat split; auto. eapply desc_child; eauto.
Qed.

Lemma in_subtree_cases (a k : Z) :
  in_subtree ns a k <->
  k = a \/ exists c, In c ns /\ parent c = Some a /\ in_subtree ns (key c) k.
Proof.
  split.
  - intros [[|j] H].
    + inversion H; auto.
    + right. destruct (Desc_split_top _ _ _ H) as (c & ? & ? & ?).
      exists c. repeat split; auto. now exists j.
  - intros [->|(c & Hc & Hp & j & H)].
    + exists O. constructor.
    + exists (S j). eapply Desc_under_child; eauto.
Qed.

End UniqueKeys.

End LinksFacts.

(** ** Editor: cascade delete *)

Module RemoveSpec.

Import Editor LinksFacts.

Lemma includes_In (xs : list Z) (k : Z) : includes xs k = true <-> In k xs.
Proof.
  unfold includes. rewrite existsb_exists. split.
  - intros (x & Hx & E). apply Z.eqb_eq in E. now subst.
  - intro H. exists k. split; [assumption | apply Z.eqb_refl].
Qed.

Section Collect.

Variable ns : list TreeNodeData.
Hypothesis Hkeys : NoDup (map key ns).

Lemma collect_children (f : nat) (cs : list TreeNodeData) :
  (forall c, In c cs ->
     exists l, getNodeAndChildren f (key c) ns = Some l /\
               forall x, In x l <-> in_subtree ns (key c) x) ->
  forall acc,
  exists l, fold_left (push_subtree (fun k => getNodeAndChildren f k ns))
                      cs (Some acc) = Some l /\
            forall x, In x l <->
                      In x acc \/ exists c, In c cs /\ in_subtree ns (key c) x.
Proof.
  induction cs as [|c cs IH]; intros Hcs acc; simpl.
  - exists acc. split; [reflexivity |].
    intro x. split; [tauto | intros [?|(c & [] & _)]; assumption].
  - destruct (Hcs c (or_introl eq_refl)) as (sub & Hsub & Hin).
    rewrite Hsub.
    destruct (IH (fun c' H' => Hcs c' (or_intror H')) (acc ++ sub))
      as (l & Hl & Hx).
    exists l. split; [assumption |].
    intro x. rewrite Hx, in_app_iff, Hin. split.
    + intros [[?|?]|(c' & ? & ?)]; eauto.
    + intros [?|(c' & [<-|?] & ?)]; eauto.
Qed.

(** With fuel for the levels below [k], the collected keys are
    exactly the subtree of [k]. *)
Lemma getNodeAndChildren_subtree (f : nat) :
  forall k d,
    DepthOf ns k d -> (length ns <= f + d)%nat ->
    exists l, getNodeAndChildren f k ns = Some l /\
              forall x, In x l <-> in_subtree ns k x.
Proof using Hkeys.
  induction f as [|f IH]; intros k d Hd Hfuel.
  - pose proof (DepthOf_bound ns Hkeys k d Hd). lia.
  - simpl.
    destruct (collect_children f (filter (fun n => parent_is n k) ns))
      with (acc := [k]) as (l & Hl & Hx).
    { intros c Hc. apply filter_In in Hc. destruct Hc as [Hc Hp].
      apply parent_is_true in Hp.
      apply (IH (key c) (S d)); [eapply depth_child; eauto | lia]. }
    exists l. split; [exact Hl |].
    intro x. rewrite Hx, in_subtree_cases. simpl. split.
    + intros [[<-|[]]|(c & Hc & Hs)]; [now left | right].
      apply filter_In in Hc. destruct Hc as [Hc Hp].
      apply parent_is_true in Hp. eauto.
    + intros [->|(c & Hc & Hp & Hs)]; [now left; left | right].
      exists c. split; [| assumption].
      apply filter_In. split; [assumption | now apply parent_is_true].
Qed.

End Collect.

(** The state left by [removeNode] once the keys to remove are known. *)
Lemma removeNode_result (s : State) (k : Z) (fuel : nat) (l : list Z) :
  getNodeAndChildren fuel k (diagramData s) = Some l ->
  removeNode fuel k s
  = Some (mkState (editForm s)
            (filter (fun n => negb (includes l (key n))) (diagramData s))
            (match editingNodeId s with
             | Some e => if e =? k then None else Some e
             | None => None
             end)
            (originalLevel s) (diagramError s) (isGeneratingDiagram s)
            (canRegenerateDiagram_value s)).
Proof.
  intro Hl. unfold removeNode. rewrite Hl.
  unfold set_diagramData, set_editingNodeId; simpl.
  destruct (editingNodeId s) as [e|] eqn:E; [destruct (e =? k) |];
    simpl; rewrite ?E; reflexivity.
Qed.

(** C3. On a list that forms a tree, removing a present key [k] returns
    (with fuel for the height of the tree), in a single update of the
    node list: the nodes left are exactly the nodes outside the subtree
    of [k], each one as it was and in the old order; their number is
    the old size minus the size of the subtree; and the edit marker is
    cleared when it pointed at [k] and kept otherwise. *)
Theorem removeNode_cascade (s : State) (k : Z) (fuel : nat) :
  is_tree (diagramData s) ->
  In k (map key (diagramData s)) ->
  (length (diagramData s) <= fuel)%nat ->
  exists s',
    removeNode fuel k s = Some s' /\
    (forall n, In n (diagramData s') <->
               In n (diagramData s) /\ ~ in_subtree (diagramData s) k (key n)) /\
    (exists keep, diagramData s' = filter keep (diagramData s)) /\
    (forall sub,
       NoDup sub ->
       (forall n, In n sub <->
                  In n (diagramData s) /\ in_subtree (diagramData s) k (key n)) ->
       Z.of_nat (length (diagramData s'))
       = Z.of_nat (length (diagramData s)) - Z.of_nat (length sub)) /\
    (editingNodeId s = Some k -> editingNodeId s' = None) /\
    (editingNodeId s <> Some k -> editingNodeId s' = editingNodeId s) /\
    editForm s' = editForm s /\ diagramError s' = diagramError s.
Proof.
  intros [Hkeys _ Hchains] Hk Hfuel.
  apply in_map_iff in Hk. destruct Hk as (nk & <- & Hnk).
  destruct (Hchains nk Hnk) as [d Hd].
  destruct (getNodeAndChildren_subtree (diagramData s) Hkeys fuel (key nk) d Hd)
    as (l & Hl & Hin); [lia |].
  rewrite (removeNode_result s (key nk) fuel l Hl).
  set (gone := fun n => includes l (key n)).
  assert (Hgone : forall n, gone n = true <-> in_subtree (diagramData s) (key nk) (key n)).
  { intro n. unfold gone. now rewrite includes_In, Hin. }
  eexists. split; [reflexivity |]. simpl.
  change (fun n => negb (includes l (key n))) with (fun n => negb (gone n)).
  repeat split.
  - apply filter_In in H. tauto.
  - apply filter_In in H. destruct H as [_ H].
    intro Hs. apply Hgone in Hs. rewrite Hs in H. discriminate.
  - intros [Hn Hs]. apply filter_In. split; [assumption |].
    destruct (gone n) eqn:G; [| reflexivity].
    exfalso. apply Hs. now apply Hgone.
  - now exists (fun n => negb (gone n)).
  - intros sub Hnd Hsub.
    pose proof (filter_length gone (diagramData s)) as Hlen.
    assert (Hperm : Permutation sub (filter gone (diagramData s))).
    { apply NoDup_Permutation; [assumption | |].
      - apply NoDup_filter. now apply nodes_nodup.
      - intro n. rewrite Hsub, filter_In, Hgone. tauto. }
    apply Permutation_length in Hperm. lia.
  - intros ->. now rewrite Z.eqb_refl.
  - intros Hne. destruct (editingNodeId s) as [e|]; [| reflexivity].
    destruct (Z.eqb_spec e (key nk)); [congruence | reflexivity].
Qed.

Lemma small_tree_is_tree : is_tree Samples.small_tree.
Proof.
  constructor.
  - repeat constructor; simpl; intuition discriminate.
  - exists (node 1 None (lit "Slip Incident")). repeat split.
    + simpl; auto.
    + intros n [<-|[<-|[<-|[<-|[]]]]]; simpl; intro; congruence.
  - assert (D1 : DepthOf Samples.small_tree 1 0).
    { apply (depth_root _ (node 1 None (lit "Slip Incident")));
        simpl; auto. }
    assert (D2 : DepthOf Samples.small_tree 2 1).
    { apply (depth_child _ (node 2 (Some 1) (lit "Environmental Factors")) 1);
        simpl; auto. }
    intros n [<-|[<-|[<-|[<-|[]]]]].
    + now exists 0%nat.
    + now exists 1%nat.
    + exists 2%nat.
      apply (depth_child _ (node 3 (Some 2) (lit "Wet Floor Condition")) 2);
        simpl; auto.
    + exists 1%nat.
      apply (depth_child _ (node 4 (Some 1) (lit "Safety Protocol Issues")) 1);
        simpl; auto.
Qed.

Lemma removeNode_cascade_witness :
  exists s',
    removeNode 4 2 (Samples.editor_on Samples.small_tree (Some 2)) = Some s' /\
    (forall n, In n (diagramData s') <->
               In n Samples.small_tree /\ ~ in_subtree Samples.small_tree 2 (key n)) /\
    editingNodeId s' = None.
Proof.
  destruct (removeNode_cascade
              (Samples.editor_on Samples.small_tree (Some 2)) 2 4)
    as (s' & Hrun & Hleft & _ & _ & Hedit & _).
  - exact small_tree_is_tree.
  - simpl; auto.
  - simpl; lia.
  - exists s'. repeat split; try apply Hleft; auto.
Defined.

End RemoveSpec.

(** ** Editor: rename, add, regenerate *)

Module NumFacts.

(** Up to [2^53] the sum is exact. *)
Lemma num_add_small (a b : Z) : Z.abs (a + b) <= 2 ^ 53 -> num_add a b = a + b.
Proof.
  intro H. unfold num_add, round_double.
  destruct (Z.leb_spec (Z.abs (a + b)) (2 ^ 53)); [reflexivity | lia].
Qed.

Lemma max_plus_one (xs : list Z) :
  (forall x, In x xs -> x < 2 ^ 53) ->
  num_add (max_with_0 xs) 1 = max_with_0 xs + 1.
Proof.
  intro H. apply num_add_small.
  assert (0 <= max_with_0 xs < 2 ^ 53); [| lia].
  induction xs as [|y l IH]; simpl; [lia |].
  fold (max_with_0 l).
  assert (0 <= max_with_0 l < 2 ^ 53) by (apply IH; intros; apply H; now right).
  specialize (H y (or_introl eq_refl)). lia.
Qed.

End NumFacts.

Module EditorSpec.

Import Editor Repository NumFacts.

Lemma trim_nil : trim [] = [].
Proof. reflexivity. Qed.

(** The guard of [updateNodeText] fires exactly on text that is empty
    after trimming. *)
Lemma empty_text_guard (newText : jsstring) :
  negb (truthy_str (Some newText)) || negb (truthy_str (Some (trim newText))) = true
  <-> trim newText = [].
Proof.
  destruct newText as [|c r]; [rewrite trim_nil; simpl; tauto |].
  cbn [truthy_str negb orb]. destruct (trim (c :: r)); simpl; split;
    congruence.
Qed.

(** C5. A new name that is empty after trimming is rejected: the error
    message is set and nothing else changes, so the node list (and with
    it the name of the node with that key), the edit marker, the form and
    all other fields stay as they were.  Any other name is accepted: every
    node carrying the key gets the trimmed text as its name and keeps its
    key, its parent and all its other properties; all other nodes stay as
    they are, each node stays at its place, edit mode is left, the error
    message is cleared and the other fields are kept.  Renaming node 2 to
    three blanks leaves its name unchanged. *)
Theorem updateNodeText_validation (s : State) (k : Z) (newText : jsstring) :
  (trim newText = [] ->
     diagramData (updateNodeText k newText s) = diagramData s /\
     editingNodeId (updateNodeText k newText s) = editingNodeId s /\
     editForm (updateNodeText k newText s) = editForm s /\
     originalLevel (updateNodeText k newText s) = originalLevel s /\
     isGeneratingDiagram (updateNodeText k newText s) = isGeneratingDiagram s /\
     canRegenerateDiagram_value (updateNodeText k newText s)
     = canRegenerateDiagram_value s /\
     diagramError (updateNodeText k newText s) = lit "Node text cannot be empty.") /\
  (trim newText <> [] ->
     length (diagramData (updateNodeText k newText s)) = length (diagramData s) /\
     (forall i n, nth_error (diagramData s) i = Some n ->
        exists n',
          nth_error (diagramData (updateNodeText k newText s)) i = Some n' /\
          (key n <> k -> n' = n) /\
          (key n = k ->
             name n' = trim newText /\
             key n' = key n /\ parent n' = parent n /\ level n' = level n /\
             category n' = category n /\ color n' = color n /\
             description n' = description n /\ children n' = children n)) /\
     (forall n', In n' (diagramData (updateNodeText k newText s)) ->
        key n' = k -> name n' = trim newText) /\
     editingNodeId (updateNodeText k newText s) = None /\
     diagramError (updateNodeText k newText s) = [] /\
     editForm (updateNodeText k newText s) = editForm s /\
     originalLevel (updateNodeText k newText s) = originalLevel s /\
     isGeneratingDiagram (updateNodeText k newText s) = isGeneratingDiagram s /\
     canRegenerateDiagram_value (updateNodeText k newText s)
     = canRegenerateDiagram_value s) /\
  option_map name
    (find (fun n => key n =? 2)
       (diagramData
          (updateNodeText 2 (lit "   ")
             (Samples.editor_on Samples.small_tree (Some 2)))))
  = Some (lit "Environmental Factors") /\
  diagramData
    (updateNodeText 2 (lit "   ") (Samples.editor_on Samples.small_tree (Some 2)))
  = Samples.small_tree.
Proof.
  split; [| split; [| split; reflexivity]].
  - intro He. apply empty_text_guard in He.
    unfold updateNodeText. rewrite He. repeat split.
  - intro Hne. unfold updateNodeText.
    destruct (negb (truthy_str (Some newText))
              || negb (truthy_str (Some (trim newText)))) eqn:G;
      [apply empty_text_guard in G; contradiction |].
    simpl. split; [apply length_map |].
    split; [| split; [| repeat split]].
    + intros i n Hn. rewrite nth_error_map, Hn. simpl.
      eexists. split; [reflexivity |].
      destruct (Z.eqb_spec (key n) k) as [E|E]; split; try congruence.
      intros _. repeat split.
    + intros n' Hn' Hk. apply in_map_iff in Hn'.
      destruct Hn' as (n & <- & _).
      destruct (Z.eqb_spec (key n) k) as [E|E]; [reflexivity | contradiction].
Qed.

Lemma updateNodeText_validation_witness :
  trim (lit "   ") = [] /\
  trim (lit " Wet floor ") <> [] /\
  diagramData
    (updateNodeText 3 (lit "   ") (Samples.editor_on Samples.small_tree (Some 3)))
  = Samples.small_tree /\
  editingNodeId
    (updateNodeText 3 (lit " Wet floor ")
       (Samples.editor_on Samples.small_tree (Some 3))) = None /\
  map name
    (diagramData
       (updateNodeText 3 (lit " Wet floor ")
          (Samples.editor_on Samples.small_tree (Some 3))))
  = [lit "Slip Incident"; lit "Environmental Factors"; lit "Wet floor";
     lit "Safety Protocol Issues"].
Proof.
  split; [reflexivity |]. split; [discriminate |]. split; [| split].
  - destruct (updateNodeText_validation
                (Samples.editor_on Samples.small_tree (Some 3)) 3 (lit "   "))
      as [Hreject _].
    apply Hreject. reflexivity.
  - destruct (updateNodeText_validation
                (Samples.editor_on Samples.small_tree (Some 3)) 3
                (lit " Wet floor "))
      as (_ & Haccept & _).
    apply Haccept. discriminate.
  - reflexivity.
Defined.

Lemma max_with_0_upper (xs : list Z) (x : Z) : In x xs -> x <= max_with_0 xs.
Proof.
  induction xs as [|y l IH]; simpl; [tauto |].
  intros [->|H]; [lia | specialize (IH H); lia].
Qed.

Lemma max_with_0_attained (xs : list Z) :
  max_with_0 xs = 0 \/ In (max_with_0 xs) xs.
Proof.
  induction xs as [|y l IH]; simpl; [now left |].
  destruct (Z.max_spec y (fold_right Z.max 0 l)) as [[_ E]|[_ E]];
    fold (max_with_0 l) in *; rewrite E; tauto.
Qed.

Lemma max_with_0_nonneg (xs : list Z) : 0 <= max_with_0 xs.
Proof. induction xs; simpl; [lia | fold (max_with_0 xs); lia]. Qed.

(** The new key is not always the largest key plus one.  On a list
    whose keys are all negative it is 1; on a list whose largest key is
    [2^53] it is [2^53] again, the key of a node that is already there. *)
Lemma addNewNode_key_not_max_plus_one :
  ((forall k, In k (map key Samples.negative_keys) -> k <= -5) /\
   In (-5) (map key Samples.negative_keys) /\
   exists newNode,
     diagramData (addNewNode (Samples.editor_on Samples.negative_keys None))
     = Samples.negative_keys ++ [newNode] /\
     key newNode <> -5 + 1) /\
  ((forall k, In k (map key Samples.huge_keys) -> k <= 2 ^ 53) /\
   In (2 ^ 53) (map key Samples.huge_keys) /\
   exists newNode,
     diagramData (addNewNode (Samples.editor_on Samples.huge_keys None))
     = Samples.huge_keys ++ [newNode] /\
     key newNode <> 2 ^ 53 + 1 /\
     In (key newNode) (map key Samples.huge_keys)).
Proof.
  split.
  - split; [intros k [<-|[]]; simpl; lia |].
    split; [now left |].
    exists (node 1 None (lit "New Analysis Point")).
    split; [reflexivity | discriminate].
  - split; [intros k [<-|[<-|[]]]; vm_compute; discriminate |].
    split; [right; now left |].
    exists (node (2 ^ 53) None (lit "New Analysis Point")).
    split; [reflexivity |]. split; [discriminate | right; now left].
Qed.

(** C7 (amended). [addNewNode] appends one node and changes no other;
    the new node has the placeholder name and no parent, so the number
    of parentless nodes grows by one, and it is the node in edit mode
    afterwards.  When all keys are below [2^53] its key is
    [max(0, existing keys) + 1]: 1 on an empty list or when all keys are
    negative, the largest key plus one as soon as some key is not
    negative, and above every existing key. *)
Theorem addNewNode_appends (s : State) :
  exists newNode,
    diagramData (addNewNode s) = diagramData s ++ [newNode] /\
    name newNode = lit "New Analysis Point" /\
    parent newNode = None /\
    editingNodeId (addNewNode s) = Some (key newNode) /\
    rootNodesCount (addNewNode s) = rootNodesCount s + 1 /\
    editForm (addNewNode s) = editForm s /\
    diagramError (addNewNode s) = diagramError s /\
    (diagramData s = [] -> key newNode = 1) /\
    ((forall n, In n (diagramData s) -> key n < 2 ^ 53) ->
       key newNode = max_with_0 (map key (diagramData s)) + 1 /\
       (forall n, In n (diagramData s) -> key n < key newNode) /\
       (forall n, In n (diagramData s) -> 0 <= key n ->
          exists m, In m (diagramData s) /\ key newNode = key m + 1 /\
                    forall n', In n' (diagramData s) -> key n' <= key m) /\
       ((forall n, In n (diagramData s) -> key n < 0) -> key newNode = 1)).
Proof.
  eexists. split; [reflexivity |]. cbn [name parent key node].
  split; [reflexivity |]. split; [reflexivity |]. split; [reflexivity |].
  split; [unfold rootNodesCount; simpl; rewrite filter_app, length_app; simpl; lia |].
  split; [reflexivity |]. split; [reflexivity |].
  split; [intros ->; reflexivity |].
  intro Hb.
  assert (E : num_add (max_with_0 (map key (diagramData s))) 1
              = max_with_0 (map key (diagramData s)) + 1).
  { apply max_plus_one. intros x Hx. apply in_map_iff in Hx.
    destruct Hx as (n & <- & Hn). now apply Hb. }
  rewrite E. split; [reflexivity |]. split; [| split].
  - intros n Hn.
    pose proof (max_with_0_upper (map key (diagramData s)) (key n)
                  (in_map key _ _ Hn)). lia.
  - intros n Hn H0.
    pose proof (max_with_0_upper _ _ (in_map key _ _ Hn)) as Hup.
    destruct (max_with_0_attained (map key (diagramData s))) as [E0|Hin].
    + exists n. repeat split; [assumption | lia |].
      intros n' Hn'. pose proof (max_with_0_upper _ _ (in_map key _ _ Hn')). lia.
    + apply in_map_iff in Hin. destruct Hin as (m & Em & Hm).
      exists m. repeat split; [assumption | lia |].
      intros n' Hn'. pose proof (max_with_0_upper _ _ (in_map key _ _ Hn')). lia.
  - intros Hneg.
    destruct (max_with_0_attained (map key (diagramData s))) as [E0|Hin];
      [lia |].
    apply in_map_iff in Hin. destruct Hin as (m & Em & Hm).
    specialize (Hneg m Hm).
    pose proof (max_with_0_nonneg (map key (diagramData s))). lia.
Qed.

Lemma addNewNode_appends_witness :
  (forall n, In n Samples.small_tree -> key n < 2 ^ 53) /\
  exists newNode,
    diagramData (addNewNode (Samples.editor_on Samples.small_tree None))
    = Samples.small_tree ++ [newNode] /\
    key newNode = 5.
Proof.
  assert (Hb : forall n, In n Samples.small_tree -> key n < 2 ^ 53).
  { intros n [<-|[<-|[<-|[<-|[]]]]]; reflexivity. }
  split; [exact Hb |].
  destruct (addNewNode_appends (Samples.editor_on Samples.small_tree None))
    as (nd & Hd & _ & _ & _ & _ & _ & _ & _ & Hk).
  exists nd. split; [exact Hd |].
  destruct (Hk Hb) as [-> _]. reflexivity.
Defined.

(** The computation of the guard gives a truthy value exactly on a
    trimmed description of more than ten characters with a level
    selected. *)
Lemma canRegenerateDiagram_body_truthy (s : State) :
  truthy (canRegenerateDiagram_body s) = true <->
  exists d l,
    form_description (editForm s) = Some d /\ 10 < strlen (trim d) /\
    form_analysisLevel (editForm s) = Some l /\ l <> [].
Proof.
  unfold canRegenerateDiagram_body, trimmed_description.
  destruct (form_description (editForm s)) as [d|]; simpl;
    [| split; [discriminate | intros (? & ? & E & _); discriminate]].
  destruct (trim d) as [|c r] eqn:T; simpl.
  - split; [discriminate |].
    intros (d' & ? & E & Hlen & _). injection E as <-.
    rewrite T in Hlen. unfold strlen in Hlen. simpl in Hlen. lia.
  - destruct (Z.gtb_spec (strlen (c :: r)) 10) as [Hgt|Hle]; simpl.
    + destruct (form_analysisLevel (editForm s)) as [[|c' l]|]; simpl.
      * split; [discriminate |]. intros (? & ? & _ & _ & E & Hl). congruence.
      * split; [| reflexivity]. intros _.
        exists d, (c' :: l). rewrite T. repeat split; [lia | discriminate].
      * split; [discriminate |]. intros (? & ? & _ & _ & E & _). discriminate.
    + split; [discriminate |].
      intros (d' & ? & E & Hlen & _). injection E as <-. rewrite T in Hlen. lia.
Qed.

(** The first read runs the computation and keeps its value. *)
Lemma canRegenerateDiagram_first (s : State) :
  canRegenerateDiagram_value s = None ->
  canRegenerateDiagram s
  = (canRegenerateDiagram_body s,
     set_canRegenerateDiagram_value (Some (canRegenerateDiagram_body s)) s).
Proof. intro H. unfold canRegenerateDiagram. now rewrite H. Qed.

(** After the first read the guard delivers the value of that read,
    whatever the form holds by then. *)
Lemma canRegenerateDiagram_frozen (s : State) (v : jsvalue) (f : Form) :
  canRegenerateDiagram_value s = Some v ->
  canRegenerateDiagram (set_editForm f s) = (v, set_editForm f s).
Proof. intro H. unfold canRegenerateDiagram. simpl. now rewrite H. Qed.




(** C4. A description of exactly ten characters (after trimming) with a
    level selected is turned away by [regenerateDiagram] on a form that
    held nothing else since the editor was built: the error message is
    set and the node list stays, whether the guard is read for the first
    time by this call, was read on the form as the constructor left it,
    or was read on this form before.  The later check in the same method,
    its message and the form validator all accept ten characters.  The
    guard keeps the value of its first read: read first on a longer
    description, it lets the ten characters through, and read first on
    the empty form, it turns away a description of 27 characters. *)
Theorem regenerateDiagram_ten_characters (st : Store) :
  option_map (fun d => strlen (trim d))
             (form_description Samples.ten_character_form) = Some 10 /\
  truthy_str (form_analysisLevel Samples.ten_character_form) = true /\
  editForm Samples.ten_character_editor = Samples.ten_character_form /\
  canRegenerateDiagram_value Samples.ten_character_editor = None /\
  (diagramData (regenerateDiagram st Samples.ten_character_editor)
   = diagramData Samples.ten_character_editor /\
   diagramError (regenerateDiagram st Samples.ten_character_editor)
   = lit "Please provide incident description and select a level first.") /\
  (diagramData
     (regenerateDiagram st
        (set_editForm Samples.ten_character_form
           (snd (canRegenerateDiagram Samples.constructed_editor))))
   = diagramData Samples.constructed_editor /\
   diagramError
     (regenerateDiagram st
        (set_editForm Samples.ten_character_form
           (snd (canRegenerateDiagram Samples.constructed_editor))))
   = lit "Please provide incident description and select a level first.") /\
  (diagramData
     (regenerateDiagram st (snd (canRegenerateDiagram Samples.ten_character_editor)))
   = diagramData Samples.ten_character_editor /\
   diagramError
     (regenerateDiagram st (snd (canRegenerateDiagram Samples.ten_character_editor)))
   = lit "Please provide incident description and select a level first.") /\
  diagramData
    (regenerateDiagram st
       (set_editForm Samples.ten_character_form
          (snd (canRegenerateDiagram
                  (Samples.editor_on Samples.small_tree None)))))
  = generateGenericData (lit "Oil spill.") 3 /\
  (strlen (trim (lit "Worker slipped on wet floor")) = 27 /\
   diagramData
     (regenerateDiagram st
        (set_editForm Samples.long_form
           (snd (canRegenerateDiagram Samples.constructed_editor))))
   = diagramData Samples.constructed_editor /\
   diagramError
     (regenerateDiagram st
        (set_editForm Samples.long_form
           (snd (canRegenerateDiagram Samples.constructed_editor))))
   = lit "Please provide incident description and select a level first.").
Proof. repeat split. Qed.

End EditorSpec.

(** ** Level labels *)

Module LevelLabelSpec.

Lemma char_matches_relax (p c : N) :
  char_matches false p c = true -> char_matches true p c = true.
Proof.
  unfold char_matches. intro H. apply N.eqb_eq in H. subst.
  apply N.eqb_refl.
Qed.

Lemma match_literal_relax (pat s r : jsstring) :
  match_literal false pat s = Some r -> match_literal true pat s = Some r.
Proof.
  revert s; induction pat as [|p pat IH]; intros [|c s];
    cbn [match_literal]; auto.
  destruct (char_matches false p c) eqn:E; [| discriminate].
  rewrite (char_matches_relax _ _ E). apply IH.
Qed.

Lemma match_here_relax (s ds : jsstring) :
  match_here false s = Some ds -> match_here true s = Some ds.
Proof.
  unfold match_here.
  destruct (match_literal false (lit "Level ") s) as [r|] eqn:E; [| discriminate].
  now rewrite (match_literal_relax _ _ _ E).
Qed.

(** A label without a match under the [i] flag has none without it. *)
Lemma match_Level_relax (s : jsstring) :
  match_Level true s = None -> match_Level false s = None.
Proof.
  induction s as [|c s IH]; [reflexivity | cbn [match_Level]].
  - destruct (match_here true (c :: s)) eqn:Et; [discriminate |].
    destruct (match_here false (c :: s)) eqn:Ef.
    + apply match_here_relax in Ef. congruence.
    + exact IH.
Qed.

(** Without a match the two extractions fall back to 1 and to 3. *)
Lemma no_match_fallbacks (label : jsstring) :
  match_Level true label = None ->
  extractLevelFromAnalysisLevel label = 1 /\
  extractLevelNumber (Some label) = 3 /\
  extractLevelNumber None = 3.
Proof.
  intro H. apply match_Level_relax in H.
  unfold extractLevelFromAnalysisLevel, extractLevelNumber. rewrite H.
  repeat split. now destruct label.
Qed.

Lemma match_literal_prefix (pat s r : jsstring) :
  match_literal false pat s = Some r -> s = pat ++ r.
Proof.
  revert s; induction pat as [|p pat IH]; intros [|c s];
    cbn [match_literal app]; try congruence.
  unfold char_matches. destruct (N.eqb_spec p c); [| discriminate].
  intro H. apply IH in H. congruence.
Qed.

Lemma take_digits_prefix (s : jsstring) :
  exists rest, s = take_digits s ++ rest /\
               forallb is_digit (take_digits s) = true.
Proof.
  induction s as [|c s (rest & E & H)]; simpl.
  - now exists [].
  - destruct (is_digit c) eqn:D.
    + exists rest. cbn [app forallb]. rewrite D, H. split; [| reflexivity].
      f_equal. exact E.
    + now exists (c :: s).
Qed.

(** A match of the two case-sensitive extractions is an occurrence of
    "Level " followed by a non-empty run of decimal digits. *)
Lemma match_Level_occurrence (s ds : jsstring) :
  match_Level false s = Some ds ->
  exists pre rest,
    s = pre ++ lit "Level " ++ ds ++ rest /\ ds <> [] /\
    forallb is_digit ds = true.
Proof.
  induction s as [|c s IH]; [discriminate | cbn [match_Level]].
  - destruct (match_here false (c :: s)) as [ds'|] eqn:E.
    + intro H; injection H as ->. unfold match_here in E.
      destruct (match_literal false (lit "Level ") (c :: s)) as [r|] eqn:L;
        [| discriminate].
      apply match_literal_prefix in L.
      destruct (take_digits_prefix r) as (rest & Hr & Hd).
      destruct (take_digits r) as [|x xs] eqn:T; [discriminate |].
      injection E as <-.
      exists [], rest. rewrite L, Hr at 1. repeat split; [discriminate | exact Hd].
    + intro H. destruct (IH H) as (pre & rest & -> & Hne & Hd).
      exists (c :: pre), rest. repeat split; assumption.
Qed.

(** C9. On a label written in lower case the history page falls back
    to 1 and the editor to 3, although a decimal number follows the
    word "level"; the dashboard's copy of the function, which carries
    the [i] flag, recovers 4.  With a capital L all three recover 4. *)
Theorem lower_case_label_not_matched :
  extractLevelFromAnalysisLevel (lit "level 4 - Detailed Analysis") = 1 /\
  extractLevelNumber (Some (lit "level 4 - Detailed Analysis")) = 3 /\
  dashboard_extractLevelNumber (lit "level 4 - Detailed Analysis") = 4 /\
  extractLevelFromAnalysisLevel (lit "Level 4 - Detailed Analysis") = 4 /\
  extractLevelNumber (Some (lit "Level 4 - Detailed Analysis")) = 4 /\
  dashboard_extractLevelNumber (lit "Level 4 - Detailed Analysis") = 4.
Proof. repeat split. Qed.

End LevelLabelSpec.

(** ** Repository *)

Module RepositorySpec.

Import Repository.

Lemma findIndex_None {A : Type} (p : A -> bool) (l : list A) :
  findIndex p l = None <-> forall x, In x l -> p x = false.
Proof.
  induction l as [|a l IH]; simpl.
  - split; [intros _ x [] | reflexivity].
  - destruct (p a) eqn:E.
    + split; [discriminate |]. intro H. rewrite (H a) in E by now left.
      discriminate.
    + destruct (findIndex p l); simpl.
      * split; [discriminate |]. intro H.
        assert (Hl : forall x, In x l -> p x = false) by (intros; apply H; now right).
        apply IH in Hl. discriminate.
      * split; [| reflexivity]. intros _ x [<-|Hx]; [assumption |].
        now apply IH.
Qed.

Lemma findIndex_Some {A : Type} (p : A -> bool) (l : list A) (i : nat) :
  findIndex p l = Some i ->
  exists x, nth_error l i = Some x /\ p x = true.
Proof.
  revert i; induction l as [|a l IH]; simpl; intro i; [discriminate |].
  destruct (p a) eqn:E.
  - intro H; injection H as <-. now exists a.
  - destruct (findIndex p l) as [j|]; [| discriminate].
    simpl. intro H; injection H as <-. now apply IH.
Qed.

Lemma assign_at_length {A : Type} (i : nat) (v : A) (l : list A) :
  length (assign_at i v l) = length l.
Proof.
  revert i; induction l as [|a l IH]; intros [|i]; simpl; auto.
Qed.

Lemma assign_at_nth {A : Type} (i j : nat) (v x : A) (l : list A) :
  nth_error l j = Some x ->
  nth_error (assign_at i v l) j = Some (if Nat.eqb j i then v else x).
Proof.
  revert i j; induction l as [|a l IH]; intros [|i] [|j]; simpl;
    try discriminate; auto.
Qed.

Section UpdateDiagram.

Variable JSON_stringify : list TreeNodeData -> jsstring.

(** C10. [updateDiagram] on a loaded store that holds a diagram with
    the given id delivers the updated diagram and a store in which
    incidents, statistics and the number of diagrams are as before and
    every diagram keeps its id, incident id, creation time and
    position; only the first diagram with that id may differ from its
    old value, keeping its title when the title argument is absent or
    empty and its serialized nodes when the node argument is absent.
    When no diagram has the id, or nothing is loaded, the call throws
    and the store is untouched. *)
Theorem updateDiagram_frame
        (diagramId : Z) (newTitle : option jsstring)
        (nodes : option (list TreeNodeData)) (st : Store) :
  (st = None ->
     updateDiagram JSON_stringify diagramId newTitle nodes st
     = (Throw (lit "Incidents data not loaded"), st)) /\
  (forall dat,
     st = Some dat ->
     (forall d, In d (diagrams dat) -> id d <> diagramId) ->
     updateDiagram JSON_stringify diagramId newTitle nodes st
     = (Throw (lit "Diagram not found"), st)) /\
  (forall dat d0,
     st = Some dat -> In d0 (diagrams dat) -> id d0 = diagramId ->
     exists d' dat' i,
       updateDiagram JSON_stringify diagramId newTitle nodes st
       = (Ok d', Some dat') /\
       incidents dat' = incidents dat /\ stats dat' = stats dat /\
       length (diagrams dat') = length (diagrams dat) /\
       nth_error (diagrams dat') i = Some d' /\ id d' = diagramId /\
       forall j d, nth_error (diagrams dat) j = Some d ->
         exists e,
           nth_error (diagrams dat') j = Some e /\
           id e = id d /\ incidentId e = incidentId d /\
           createdAt e = createdAt d /\ diagramPdf e = diagramPdf d /\
           (j <> i -> e = d) /\
           (newTitle = None \/ newTitle = Some [] -> title e = title d) /\
           (nodes = None -> diagramJson e = diagramJson d)).
Proof.
  split; [| split].
  - intros ->. reflexivity.
  - intros dat -> Hnone. unfold updateDiagram, bind, get_store.
    assert (E : findIndex (fun d => id d =? diagramId) (diagrams dat) = None).
    { apply findIndex_None. intros d Hd. apply Z.eqb_neq. now apply Hnone. }
    now rewrite E.
  - intros dat d0 -> Hin Hid. unfold updateDiagram, bind, get_store.
    destruct (findIndex (fun d => id d =? diagramId) (diagrams dat))
      as [i|] eqn:E.
    + destruct (findIndex_Some _ _ _ E) as (old & Hold & Hp).
      apply Z.eqb_eq in Hp. rewrite Hold. cbn.
      eexists _, _, i. split; [reflexivity |]. cbn.
      split; [reflexivity |]. split; [reflexivity |].
      split; [apply assign_at_length |].
      split; [rewrite (assign_at_nth _ _ _ _ _ Hold), Nat.eqb_refl; reflexivity |].
      split; [exact Hp |].
      intros j d Hd. rewrite (assign_at_nth _ _ _ _ _ Hd).
      eexists. split; [reflexivity |].
      destruct (Nat.eqb_spec j i) as [->|Hne].
      * rewrite Hold in Hd. injection Hd as <-.
        repeat split; try reflexivity.
        -- intro; congruence.
        -- intros [->| ->]; reflexivity.
        -- intros ->; reflexivity.
      * repeat split; reflexivity.
    + exfalso. rewrite findIndex_None in E. specialize (E d0 Hin).
      apply Z.eqb_neq in E. contradiction.
Qed.

End UpdateDiagram.

Lemma updateDiagram_frame_witness :
  (forall d, In d [Samples.warehouse_diagram; Samples.fire_diagram] -> id d <> 7) /\
  updateDiagram Samples.names_only 7 (Some (lit "Title")) None Samples.two_diagrams
  = (Throw (lit "Diagram not found"), Samples.two_diagrams) /\
  exists d' dat' i,
    updateDiagram Samples.names_only 2 None (Some Samples.small_tree)
                  Samples.two_diagrams
    = (Ok d', Some dat') /\
    nth_error (diagrams dat') i = Some d' /\
    title d' = lit "Control Panel Fire".
Proof.
  assert (Hnone : forall d, In d [Samples.warehouse_diagram; Samples.fire_diagram]
                            -> id d <> 7).
  { intros d [<-|[<-|[]]]; discriminate. }
  split; [exact Hnone |]. split.
  - destruct (updateDiagram_frame Samples.names_only 7 (Some (lit "Title")) None
                Samples.two_diagrams)
      as (_ & Hmissing & _).
    apply (Hmissing _ eq_refl Hnone).
  - destruct (updateDiagram_frame Samples.names_only 2 None
                (Some Samples.small_tree) Samples.two_diagrams)
      as (_ & _ & Hfound).
    destruct (Hfound _ Samples.fire_diagram eq_refl
                (or_intror (or_introl eq_refl)) eq_refl)
      as (d' & dat' & i & Hrun & _ & _ & _ & Hi & _ & Hall).
    exists d', dat', i. split; [exact Hrun |]. split; [exact Hi |].
    cbv in Hrun. injection Hrun as <- _. reflexivity.
Defined.

End RepositorySpec.

(** ** Depth assigner *)

Module DisplaySpec.

Import LinksFacts.

Lemma erase_keys (m : NodeMap) : map fst (erase m) = map fst m.
Proof. unfold erase. rewrite map_map. reflexivity. Qed.

Lemma erase_set_level (k d : Z) (m : NodeMap) :
  erase (set_level k d m) = erase m.
Proof.
  induction m as [|[k' v] m IH]; simpl; [reflexivity |].
  destruct (k' =? k); simpl; [reflexivity | now rewrite IH].
Qed.

Lemma lvl_set_level_same (k d : Z) (m : NodeMap) :
  In k (map fst m) -> lvl_of (set_level k d m) k = Some d.
Proof.
  unfold lvl_of. induction m as [|[k' v] m IH]; simpl; [tauto |].
  intros H. destruct (Z.eqb_spec k' k) as [->|Hne]; simpl.
  - now rewrite Z.eqb_refl.
  - destruct (Z.eqb_spec k' k); [contradiction |].
    apply IH. destruct H; [contradiction | assumption].
Qed.

Lemma lvl_set_level_other (k k' d : Z) (m : NodeMap) :
  k' <> k -> lvl_of (set_level k d m) k' = lvl_of m k'.
Proof.
  unfold lvl_of. intro Hne. induction m as [|[k0 v] m IH]; simpl; [reflexivity |].
  destruct (Z.eqb_spec k0 k) as [->|H0]; simpl.
  - destruct (Z.eqb_spec k k'); [congruence | reflexivity].
  - destruct (k0 =? k'); [reflexivity | exact IH].
Qed.

Lemma map_get_present (k : Z) (m : NodeMap) :
  In k (map fst m) -> exists v, map_get k m = Some v.
Proof.
  induction m as [|[k' v] m IH]; simpl; [tauto |].
  intros [->|H].
  - rewrite Z.eqb_refl. eauto.
  - destruct (k' =? k); eauto.
Qed.

Lemma map_get_entry (k : Z) (v : Leveled) (m : NodeMap) :
  NoDup (map fst m) -> In (k, v) m -> map_get k m = Some v.
Proof.
  induction m as [|[k' v'] m IH]; simpl; [tauto |].
  intros Hnd [E|H]; inversion Hnd as [|? ? Hk Hm]; subst.
  - injection E as -> ->. now rewrite Z.eqb_refl.
  - destruct (Z.eqb_spec k' k) as [->|_]; [| now apply IH].
    exfalso. apply Hk. change k with (fst (k, v)). now apply in_map.
Qed.

(** The visits only write levels. *)
Lemma forEach_child_erase (visit : Z -> NodeMap -> option NodeMap) (k : Z) :
  (forall c m m', visit c m = Some m' -> erase m' = erase m) ->
  forall entries m m',
    forEach_child visit k entries m = Some m' -> erase m' = erase m.
Proof.
  intros Hv entries; induction entries as [|[k0 child] rest IH]; simpl;
    intros m m' H.
  - now injection H as <-.
  - destruct (parent_is (base child) k); [| now apply IH].
    destruct (visit (key (base child)) m) as [m1|] eqn:E; [| discriminate].
    rewrite (IH _ _ H). now apply Hv in E.
Qed.

Lemma assign_erase (fuel : nat) :
  forall k d m m',
    assignDisplayLevelRecursive fuel k d m = Some m' -> erase m' = erase m.
Proof.
  induction fuel as [|f IH]; simpl; intros k d m m' H; [discriminate |].
  destruct (map_get k m); [| now injection H as <-].
  apply forEach_child_erase in H.
  - now rewrite H, erase_set_level.
  - intros c m0 m0'. apply IH.
Qed.

(** Building the map from a list with unique keys keeps the order. *)
Lemma map_set_fresh (k : Z) (v : Leveled) (m : NodeMap) :
  ~ In k (map fst m) -> map_set k v m = m ++ [(k, v)].
Proof.
  induction m as [|[k' v'] m IH]; simpl; intro H; [reflexivity |].
  destruct (Z.eqb_spec k' k) as [->|_]; [tauto |].
  rewrite IH; tauto.
Qed.

Lemma build_map (l : list TreeNodeData) :
  forall acc,
    NoDup (map fst acc ++ map key l) ->
    fold_left (fun m n => map_set (key n) (mkLeveled n 0) m) l acc
    = acc ++ map (fun n => (key n, mkLeveled n 0)) l.
Proof.
  induction l as [|n l IH]; simpl; intros acc H.
  - now rewrite app_nil_r.
  - rewrite map_set_fresh.
    + rewrite IH.
      * now rewrite <- app_assoc.
      * rewrite map_app, <- app_assoc. exact H.
    + apply NoDup_remove_2 in H. intro Hin. apply H.
      apply in_or_app. now left.
Qed.

Section Assign.

Variable ns : list TreeNodeData.
Hypothesis Hkeys : NoDup (map key ns).

Lemma over_ns_keys (m : NodeMap) : over_ns ns m -> map fst m = map key ns.
Proof.
  intro H. rewrite <- erase_keys, H, map_map. reflexivity.
Qed.

Lemma over_ns_nodes (m : NodeMap) :
  over_ns ns m -> map (fun e => base (snd e)) m = ns.
Proof.
  intro H. apply (f_equal (map snd)) in H. unfold erase in H.
  rewrite !map_map in H. simpl in H. now rewrite map_id in H.
Qed.

(** The [forEach] over the children of the node [k] at depth [d]. *)
Lemma forEach_child_levels (f : nat) (k : Z) (d : nat) :
  visit_ok ns f -> DepthOf ns k d -> (length ns <= f + S d)%nat ->
  forall entries cur,
    (forall e, In e entries -> In (base (snd e)) ns /\ fst e = key (base (snd e))) ->
    over_ns ns cur ->
    exists m',
      forEach_child
        (fun c m => assignDisplayLevelRecursive f c (Z.of_nat d + 1) m)
        k entries cur = Some m' /\
      over_ns ns m' /\
      (forall e x j,
         In e entries -> parent (base (snd e)) = Some k ->
         Desc ns (fst e) x j -> lvl_of m' x = Some (Z.of_nat (S d + j))) /\
      (forall x,
         lvl_of m' x = lvl_of cur x \/
         exists e, In e entries /\ parent (base (snd e)) = Some k /\
                   in_subtree ns (fst e) x).
Proof using Hkeys.
  intros Hvisit Hk Hfuel.
  induction entries as [|[k0 child] rest IH]; intros cur Hent Hcur.
  - exists cur. simpl. repeat split; auto. intros e x j [].
  - destruct (Hent (k0, child) (or_introl eq_refl)) as [Hin Hk0].
    simpl in Hin, Hk0. subst k0.
    assert (Hrest : forall e, In e rest ->
                      In (base (snd e)) ns /\ fst e = key (base (snd e)))
      by (intros e He; apply Hent; now right).
    cbn [forEach_child].
    destruct (parent_is (base child) k) eqn:Hp.
    + apply parent_is_true in Hp.
      assert (Hc : DepthOf ns (key (base child)) (S d))
        by (eapply depth_child; eauto).
      destruct (Hvisit (key (base child)) (S d) cur Hcur Hc Hfuel)
        as (m1 & Hrun & Hset & Hother).
      replace (Z.of_nat d + 1) with (Z.of_nat (S d)) by lia.
      rewrite Hrun.
      assert (Hm1 : over_ns ns m1).
      { unfold over_ns. rewrite (assign_erase _ _ _ _ _ Hrun). exact Hcur. }
      destruct (IH m1 Hrest Hm1) as (m' & Hrun' & Hm' & Hset' & Hother').
      replace (Z.of_nat d + 1) with (Z.of_nat (S d)) in Hrun' by lia.
      exists m'. split; [exact Hrun' |]. split; [exact Hm' |]. split.
      * intros e x j [<-|He] Hpe Hdesc; [| eapply Hset'; eauto].
        simpl in Hdesc.
        destruct (Hother' x) as [E|(e' & He' & Hpe' & j' & Hd')].
        -- rewrite E. now apply Hset.
        -- rewrite (Hset' e' x j' He' Hpe' Hd'). do 3 f_equal.
           assert (D1 : DepthOf ns x (S d + j)) by (eapply Desc_depth; eauto).
           assert (D2 : DepthOf ns x (S d + j')).
           { eapply Desc_depth; [| exact Hd'].
             destruct (Hrest e' He') as [Hn' ->].
             eapply depth_child; eauto. }
           pose proof (DepthOf_fun ns Hkeys _ _ _ D1 D2). lia.
      * intro x. destruct (Hother' x) as [E|(e' & He' & Hpe' & Hs')].
        -- rewrite E. destruct (Hother x) as [E1|Hs]; [now left | right].
           exists (key (base child), child). simpl. auto.
        -- right. exists e'. simpl. auto.
    + destruct (IH cur Hrest Hcur) as (m' & Hrun' & Hm' & Hset' & Hother').
      exists m'. split; [exact Hrun' |]. split; [exact Hm' |]. split.
      * intros e x j [<-|He] Hpe Hdesc; [| eapply Hset'; eauto].
        simpl in Hpe. apply parent_is_true in Hpe. congruence.
      * intro x. destruct (Hother' x) as [E|(e' & He' & Hpe' & Hs')];
          [now left | right].
        exists e'. simpl. auto.
Qed.

Lemma over_ns_entries (m : NodeMap) :
  over_ns ns m ->
  forall e, In e m -> In (base (snd e)) ns /\ fst e = key (base (snd e)).
Proof.
  intros H e He.
  assert (Hin : In (fst e, base (snd e)) (erase m)).
  { unfold erase. apply in_map_iff. eauto. }
  rewrite H in Hin. apply in_map_iff in Hin.
  destruct Hin as (n & E & Hn). injection E as E1 E2. subst. auto.
Qed.

(** Every call with enough fuel returns, having written the depth of
    each node of the subtree and nothing else. *)
Lemma visit_ok_all (f : nat) : visit_ok ns f.
Proof using Hkeys.
  induction f as [|f IH]; intros k d cur Hcur Hk Hfuel.
  - pose proof (DepthOf_bound ns Hkeys k d Hk). lia.
  - cbn [assignDisplayLevelRecursive].
    assert (Hin : In k (map fst cur)).
    { rewrite (over_ns_keys _ Hcur). eapply DepthOf_key_in; eauto. }
    destruct (map_get_present k cur Hin) as [v ->].
    set (m1 := set_level k (Z.of_nat d) cur).
    assert (Hm1 : over_ns ns m1).
    { unfold over_ns, m1. now rewrite erase_set_level. }
    destruct (forEach_child_levels f k d IH Hk ltac:(lia) m1 m1
                (over_ns_entries m1 Hm1) Hm1)
      as (m' & Hrun & Hm' & Hset & Hother).
    exists m'. split; [exact Hrun |]. split.
    + intros x [|j] Hdesc.
      * assert (Ex : x = k) by now inversion Hdesc.
        subst x. rewrite Nat.add_0_r.
        destruct (Hother k) as [E|(e & He & Hpe & j' & Hd')].
        -- rewrite E. now apply lvl_set_level_same.
        -- exfalso.
           destruct (over_ns_entries m1 Hm1 e He) as [Hn Hfst].
           rewrite Hfst in Hd'.
           assert (D : DepthOf ns k (S d + j')).
           { eapply Desc_depth; [| exact Hd']. eapply depth_child; eauto. }
           pose proof (DepthOf_fun ns Hkeys _ _ _ Hk D). lia.
      * destruct (Desc_split_top ns _ _ _ Hdesc) as (c & Hc & Hpc & Hdc).
        assert (He : exists e, In e m1 /\ base (snd e) = c).
        { rewrite <- (over_ns_nodes m1 Hm1) in Hc.
          apply in_map_iff in Hc. destruct Hc as (e & <- & He). eauto. }
        destruct He as (e & He & <-).
        destruct (over_ns_entries m1 Hm1 e He) as [_ Hfst].
        rewrite <- Hfst in Hdc.
        rewrite (Hset e x j He Hpc Hdc). do 2 f_equal. lia.
    + intro x. destruct (Hother x) as [E|(e & He & Hpe & j' & Hd')].
      * destruct (Z.eq_dec x k) as [->|Hne].
        -- right. exists O. constructor.
        -- left. rewrite E. now apply lvl_set_level_other.
      * right. destruct (over_ns_entries m1 Hm1 e He) as [Hn Hfst].
        rewrite Hfst in Hd'. exists (S j').
        eapply Desc_under_child; eauto.
Qed.

End Assign.

Lemma find_unique {A : Type} (p : A -> bool) (l : list A) (x : A) :
  In x l -> p x = true -> (forall y, In y l -> p y = true -> y = x) ->
  find p l = Some x.
Proof.
  induction l as [|a l IH]; simpl; [tauto |].
  intros Hin Hx Huniq. destruct (p a) eqn:E.
  - f_equal. apply Huniq; auto.
  - destruct Hin as [->|Hin]; [congruence |]. apply IH; auto.
Qed.

Lemma no_parent_absent (n : TreeNodeData) :
  parent n <> Some 0 -> (no_parent n = true <-> parent n = None).
Proof.
  unfold no_parent, truthy_num. destruct (parent n) as [p|]; simpl.
  - intro H. rewrite negb_involutive, Z.eqb_eq.
    split; [intros -> | discriminate]. congruence.
  - tauto.
Qed.

Section Output.

Variable ns : list TreeNodeData.
Variable rn : TreeNodeData.
Hypothesis Hkeys : NoDup (map key ns).
Hypothesis Hroot : In rn ns.
Hypothesis Hparent : parent rn = None.
Hypothesis Huniq : forall n, In n ns -> parent n = None -> n = rn.

(** With a single parentless node, depth is distance from it. *)
Lemma DepthOf_from_root (x : Z) (d : nat) :
  DepthOf ns x d -> Desc ns (key rn) x d.
Proof using Huniq.
  induction 1 as [n Hn Hp | n p d Hn Hp _ IH].
  - rewrite (Huniq n Hn Hp). constructor.
  - eapply desc_child; eauto.
Qed.

(** The result of the assigner once [find] has located [rn]. *)
Lemma assignDisplayLevels_from_root (fuel : nat) :
  find no_parent ns = Some rn ->
  (length ns <= fuel)%nat ->
  exists out,
    assignDisplayLevels fuel ns = Some out /\
    map base out = ns /\
    (forall e d, In e out -> DepthOf ns (key (base e)) d ->
                 displayLevel e = Z.of_nat d) /\
    (forall e, In e out -> ~ reachable ns (key (base e)) -> displayLevel e = 0).
Proof using Hkeys Hroot Hparent Huniq.
  intros Hfind Hfuel. unfold assignDisplayLevels.
  rewrite Hfind, (build_map ns []) by exact Hkeys. cbn [app].
  set (m0 := map (fun n => (key n, mkLeveled n 0)) ns).
  assert (Hm0 : over_ns ns m0).
  { unfold over_ns, erase, m0. rewrite map_map. reflexivity. }
  assert (D0 : DepthOf ns (key rn) 0) by now constructor.
  destruct (visit_ok_all ns Hkeys fuel (key rn) O m0 Hm0 D0 ltac:(lia))
    as (m' & Hrun & Hset & Hother).
  change (Z.of_nat 0) with 0 in Hrun. rewrite Hrun. cbn [option_map].
  assert (Hm' : over_ns ns m').
  { unfold over_ns. rewrite (assign_erase _ _ _ _ _ Hrun). exact Hm0. }
  assert (Hlvl : forall e, In e (map snd m') ->
                   lvl_of m' (key (base e)) = Some (displayLevel e)).
  { intros e He. apply in_map_iff in He. destruct He as ([k0 e'] & E & He).
    simpl in E. subst e'.
    destruct (over_ns_entries ns m' Hm' _ He) as [_ Hfst]. simpl in Hfst.
    subst k0. unfold lvl_of.
    rewrite (map_get_entry _ e m'); [reflexivity | | exact He].
    now rewrite (over_ns_keys ns m' Hm'). }
  exists (map snd m'). split; [reflexivity |]. split; [| split].
  - rewrite map_map. exact (over_ns_nodes ns m' Hm').
  - intros e d He Hd. apply DepthOf_from_root in Hd.
    pose proof (Hset _ _ Hd) as H. rewrite (Hlvl e He) in H.
    now injection H.
  - intros e He Hun. destruct (Hother (key (base e))) as [E|[j Hj]].
    + rewrite (Hlvl e He) in E.
      assert (Hn : In (base e) ns).
      { rewrite <- (over_ns_nodes ns m' Hm'). apply in_map_iff in He.
        destruct He as (x & <- & Hx). apply in_map_iff. eauto. }
      assert (H0 : lvl_of m0 (key (base e)) = Some 0).
      { unfold lvl_of. rewrite (map_get_entry _ (mkLeveled (base e) 0) m0).
        - reflexivity.
        - unfold m0. rewrite map_map. exact Hkeys.
        - unfold m0. apply in_map_iff. eauto. }
      congruence.
    + exfalso. apply Hun. exists (0 + j)%nat. eapply Desc_depth; eauto.
Qed.

End Output.

(** The tree invariants hold for a list whose root has key 0 and comes
    after its child, yet the assigner takes the child (parent 0) for the
    root: child and root both end at depth 0. *)
Lemma zero_keyed_root_depths :
  is_tree Samples.zero_keyed_root /\
  exists e pe,
    assignDisplayLevels 2 Samples.zero_keyed_root = Some [e; pe] /\
    parent (base pe) = None /\
    parent (base e) = Some (key (base pe)) /\
    reachable Samples.zero_keyed_root (key (base e)) /\
    displayLevel e <> displayLevel pe + 1.
Proof.
  assert (D0 : DepthOf Samples.zero_keyed_root 0 0).
  { apply (depth_root _ (node 0 None (lit "Incident"))); simpl; auto. }
  assert (D5 : DepthOf Samples.zero_keyed_root 5 1).
  { apply (depth_child _ (node 5 (Some 0) (lit "Cause")) 0); simpl; auto. }
  split.
  - constructor.
    + repeat constructor; simpl; intuition discriminate.
    + exists (node 0 None (lit "Incident")). repeat split.
      * simpl; auto.
      * intros n [<-|[<-|[]]]; simpl; intro; congruence.
    + intros n [<-|[<-|[]]]; [now exists 1%nat | now exists 0%nat].
  - exists (mkLeveled (node 5 (Some 0) (lit "Cause")) 0),
           (mkLeveled (node 0 None (lit "Incident")) 0).
    repeat split; [now exists 1%nat | simpl; lia].
Qed.

(** C2 (amended). On a list with unique keys and exactly one node
    without a parent, in which no node gives 0 as its parent, the
    assigner returns (with fuel for the height of the tree) the same
    nodes in the same order; the root gets depth 0, every node whose
    parent chain ends at the root gets its distance from the root, so one
    more than its parent, and every other node is left at 0. *)
Theorem assignDisplayLevels_depths
        (ns : list TreeNodeData) (rn : TreeNodeData) (fuel : nat) :
  NoDup (map key ns) ->
  In rn ns -> parent rn = None ->
  (forall n, In n ns -> parent n = None -> n = rn) ->
  (forall n, In n ns -> parent n <> Some 0) ->
  (length ns <= fuel)%nat ->
  exists out,
    assignDisplayLevels fuel ns = Some out /\
    map base out = ns /\
    (forall e, In e out -> base e = rn -> displayLevel e = 0) /\
    (forall e d, In e out -> DepthOf ns (key (base e)) d ->
                 displayLevel e = Z.of_nat d) /\
    (forall e pe, In e out -> In pe out ->
                  reachable ns (key (base e)) ->
                  parent (base e) = Some (key (base pe)) ->
                  displayLevel e = displayLevel pe + 1) /\
    (forall e, In e out -> ~ reachable ns (key (base e)) -> displayLevel e = 0).
Proof.
  intros Hkeys Hroot Hparent Huniq Hzero Hfuel.
  assert (Hfind : find no_parent ns = Some rn).
  { apply find_unique; [assumption | |].
    - apply no_parent_absent; [now apply Hzero | assumption].
    - intros y Hy Hp. apply Huniq; [assumption |].
      apply no_parent_absent; [now apply Hzero | assumption]. }
  destruct (assignDisplayLevels_from_root ns rn Hkeys Hroot Hparent Huniq
              fuel Hfind Hfuel)
    as (out & Hrun & Hnodes & Hdepth & Hrest).
  exists out. split; [exact Hrun |]. split; [exact Hnodes |].
  assert (Hin : forall e, In e out -> In (base e) ns).
  { intros e He. rewrite <- Hnodes. now apply in_map. }
  split; [| split; [| split]].
  - intros e He E. apply (Hdepth e O He). rewrite E. now constructor.
  - exact Hdepth.
  - intros e pe He Hpe [d Hd] Hp.
    inversion Hd as [n Hn Hpn E Ed | n p d' Hn Hpn Hd' E Ed].
    + apply (key_inj ns Hkeys) in E; auto. subst n. congruence.
    + apply (key_inj ns Hkeys) in E; auto. subst n.
      rewrite Hp in Hpn. injection Hpn as Epe. rewrite <- Epe in Hd'.
      rewrite (Hdepth e d He Hd), (Hdepth pe d' Hpe Hd'). lia.
  - exact Hrest.
Qed.

Lemma assignDisplayLevels_depths_witness :
  exists out,
    assignDisplayLevels 4 Samples.small_tree = Some out /\
    map base out = Samples.small_tree /\
    map displayLevel out = [0; 1; 2; 1].
Proof.
  destruct (assignDisplayLevels_depths Samples.small_tree
              (node 1 None (lit "Slip Incident")) 4)
    as (out & Hrun & Hnodes & _).
  - repeat constructor; simpl; intuition discriminate.
  - simpl; auto.
  - reflexivity.
  - intros n [<-|[<-|[<-|[<-|[]]]]]; simpl; intro; congruence.
  - intros n [<-|[<-|[<-|[<-|[]]]]]; simpl; discriminate.
  - simpl; lia.
  - exists out. split; [exact Hrun |]. split; [exact Hnodes |].
    cbv in Hrun. injection Hrun as <-. reflexivity.
Defined.

End DisplaySpec.

(** ** Generator: shape of the output at every level *)

Module GeneratorShape.

Import LinksFacts.

(** The level only matters between -2 and 3. *)
Lemma generate_clamped (text : jsstring) (lvl : Z) :
  generateGenericData text lvl
  = generateGenericData text (Z.max (-2) (Z.min 3 lvl)).
Proof.
  unfold generateGenericData.
  destruct (Z.ltb_spec lvl (-2)); [| destruct (Z.ltb_spec 3 lvl)].
  - replace (Z.max (-2) (Z.min 3 lvl)) with (-2) by lia.
    replace (Z.to_nat (Z.min 5 (lvl + 2))) with O by lia.
    destruct (Z.geb_spec lvl 2); [lia | reflexivity].
  - replace (Z.max (-2) (Z.min 3 lvl)) with 3 by lia.
    replace (Z.min 5 (lvl + 2)) with 5 by lia.
    destruct (Z.geb_spec lvl 2); [reflexivity | lia].
  - replace (Z.max (-2) (Z.min 3 lvl)) with lvl by lia. reflexivity.
Qed.

(** The text only enters the name of the first node. *)
Lemma generate_tail (text : jsstring) (lvl : Z) :
  generateGenericData text lvl
  = node 1 None (truncateIncidentName text) :: tl (generateGenericData [] lvl).
Proof.
  rewrite (generate_clamped text), (generate_clamped []).
  assert (C : Z.max (-2) (Z.min 3 lvl) = -2 \/ Z.max (-2) (Z.min 3 lvl) = -1 \/
              Z.max (-2) (Z.min 3 lvl) = 0 \/ Z.max (-2) (Z.min 3 lvl) = 1 \/
              Z.max (-2) (Z.min 3 lvl) = 2 \/ Z.max (-2) (Z.min 3 lvl) = 3) by lia.
  destruct C as [->|[->|[->|[->|[->| ->]]]]]; reflexivity.
Qed.

Lemma depth_walk_sound (fuel : nat) (ns : list TreeNodeData) :
  forall k d, depth_walk fuel ns k = Some d -> DepthOf ns k d.
Proof.
  induction fuel as [|f IH]; simpl; intros k d H; [discriminate |].
  destruct (find (fun n => key n =? k) ns) as [n|] eqn:F; [| discriminate].
  apply find_some in F. destruct F as [Hn Hk]. apply Z.eqb_eq in Hk. subst k.
  destruct (parent n) as [p|] eqn:P.
  - destruct (depth_walk f ns p) as [d'|] eqn:W; [| discriminate].
    injection H as <-. eapply depth_child; eauto.
  - injection H as <-. now constructor.
Qed.

Lemma tree_check_sound (ns : list TreeNodeData) :
  NoDup (map key ns) -> tree_check ns = true -> is_tree ns.
Proof.
  intros Hkeys H. unfold tree_check in H.
  destruct (filter is_root ns) as [|r [|]] eqn:F; try discriminate.
  constructor; [assumption | |].
  - assert (Hr : In r (filter is_root ns)) by (rewrite F; now left).
    apply filter_In in Hr. destruct Hr as [Hr Hp].
    exists r. split; [assumption |]. split.
    + unfold is_root in Hp. destruct (parent r); [discriminate | reflexivity].
    + intros n Hn Hpn.
      assert (Hin : In n (filter is_root ns)).
      { apply filter_In. split; [assumption |]. unfold is_root. now rewrite Hpn. }
      rewrite F in Hin. destruct Hin as [<-|[]]. reflexivity.
  - intros n Hn. rewrite forallb_forall in H. specialize (H n Hn).
    destruct (depth_walk (length ns) ns (key n)) as [d|] eqn:W; [| discriminate].
    exists d. eapply depth_walk_sound; eauto.
Qed.

Lemma consecutive_nodup (n : nat) : NoDup (map Z.of_nat (seq 1 n)).
Proof.
  apply Finite.Injective_map_NoDup; [| apply seq_NoDup].
  intros a b. apply Nat2Z.inj.
Qed.

Lemma generated_tree_facts (text : jsstring) (lvl : Z) :
  map key (generateGenericData text lvl)
  = map Z.of_nat (seq 1 (length (generateGenericData text lvl))) /\
  is_tree (generateGenericData text lvl) /\
  option_map parent (hd_error (generateGenericData text lvl)) = Some None.
Proof.
  rewrite generate_tail, (generate_clamped [] lvl).
  generalize (truncateIncidentName text). intro nm.
  assert (C : Z.max (-2) (Z.min 3 lvl) = -2 \/ Z.max (-2) (Z.min 3 lvl) = -1 \/
              Z.max (-2) (Z.min 3 lvl) = 0 \/ Z.max (-2) (Z.min 3 lvl) = 1 \/
              Z.max (-2) (Z.min 3 lvl) = 2 \/ Z.max (-2) (Z.min 3 lvl) = 3) by lia.
  assert (G : forall l,
             tree_check (node 1 None nm :: tl (generateGenericData [] l)) = true ->
             map key (node 1 None nm :: tl (generateGenericData [] l))
             = map Z.of_nat
                 (seq 1 (length (node 1 None nm :: tl (generateGenericData [] l)))) ->
             map key (node 1 None nm :: tl (generateGenericData [] l))
             = map Z.of_nat
                 (seq 1 (length (node 1 None nm :: tl (generateGenericData [] l)))) /\
             is_tree (node 1 None nm :: tl (generateGenericData [] l)) /\
             Some (@None Z) = Some None).
  { intros l Hc Hk. split; [exact Hk |]. split; [| reflexivity].
    apply tree_check_sound; [| exact Hc].
    rewrite Hk. apply consecutive_nodup. }
  destruct C as [->|[->|[->|[->|[->| ->]]]]]; apply G; reflexivity.
Qed.

(** X1. For every text and every integer level the generated list keeps
    the invariants of the data model: its keys are 1, 2, ..., n in list
    order, exactly one node (the first) has no parent, and the parent
    chain of every node ends at it. *)
Theorem generate_is_tree (text : jsstring) (lvl : Z) :
  map key (generateGenericData text lvl)
  = map Z.of_nat (seq 1 (length (generateGenericData text lvl))) /\
  is_tree (generateGenericData text lvl) /\
  option_map parent (hd_error (generateGenericData text lvl)) = Some None.
Proof. exact (generated_tree_facts text lvl). Qed.

(** X2. Levels 3 and above all give the list of level 3, which has 12
    nodes; level 2 gives 11 nodes and level 1 gives 4. *)
Theorem generate_saturates (text : jsstring) (lvl : Z) :
  3 <= lvl ->
  generateGenericData text lvl = generateGenericData text 3 /\
  length (generateGenericData text lvl) = 12%nat /\
  length (generateGenericData text 2) = 11%nat /\
  length (generateGenericData text 1) = 4%nat.
Proof.
  intro H. rewrite (generate_clamped text lvl).
  replace (Z.max (-2) (Z.min 3 lvl)) with 3 by lia.
  rewrite !(generate_tail text). repeat split.
Qed.

Lemma generate_saturates_witness :
  3 <= 5 /\
  generateGenericData (lit "Worker slipped on wet floor") 5
  = generateGenericData (lit "Worker slipped on wet floor") 3.
Proof.
  split; [lia |].
  apply (generate_saturates (lit "Worker slipped on wet floor") 5). lia.
Defined.

(** X28. The generated list depends on the text only through the root
    name, which is the truncated text, and on the level only through its
    value clamped to the range from -2 to 3: two calls deliver the same
    list exactly when the truncated texts agree and the clamped levels
    agree, and every node but the root is the same for all texts. *)
Theorem generate_depends_on (text1 text2 : jsstring) (lvl1 lvl2 : Z) :
  (generateGenericData text1 lvl1 = generateGenericData text2 lvl2 <->
   truncateIncidentName text1 = truncateIncidentName text2 /\
   Z.max (-2) (Z.min 3 lvl1) = Z.max (-2) (Z.min 3 lvl2)) /\
  tl (generateGenericData text1 lvl1) = tl (generateGenericData text2 lvl1).
Proof.
  split; [split |].
  - intro E. rewrite (generate_tail text1), (generate_tail text2) in E.
    injection E as En Et. split; [exact En |].
    apply (f_equal (@length _)) in Et.
    rewrite (generate_clamped [] lvl1), (generate_clamped [] lvl2) in Et.
    assert (C1 : Z.max (-2) (Z.min 3 lvl1) = -2 \/ Z.max (-2) (Z.min 3 lvl1) = -1 \/
                 Z.max (-2) (Z.min 3 lvl1) = 0 \/ Z.max (-2) (Z.min 3 lvl1) = 1 \/
                 Z.max (-2) (Z.min 3 lvl1) = 2 \/ Z.max (-2) (Z.min 3 lvl1) = 3) by lia.
    assert (C2 : Z.max (-2) (Z.min 3 lvl2) = -2 \/ Z.max (-2) (Z.min 3 lvl2) = -1 \/
                 Z.max (-2) (Z.min 3 lvl2) = 0 \/ Z.max (-2) (Z.min 3 lvl2) = 1 \/
                 Z.max (-2) (Z.min 3 lvl2) = 2 \/ Z.max (-2) (Z.min 3 lvl2) = 3) by lia.
    destruct C1 as [E1|[E1|[E1|[E1|[E1|E1]]]]];
      destruct C2 as [E2|[E2|[E2|[E2|[E2|E2]]]]];
      rewrite E1, E2 in *; first [reflexivity | discriminate Et].
  - intros [En El].
    rewrite (generate_tail text1), (generate_tail text2), En.
    rewrite (generate_clamped [] lvl1), (generate_clamped [] lvl2), El.
    reflexivity.
  - now rewrite (generate_tail text1), (generate_tail text2).
Qed.

Lemma generate_depends_on_witness :
  generateGenericData
    (lit "Worker slipped on wet floor in warehouse section B") 7
  = generateGenericData
      (lit "Worker slipped on wet floor near the loading dock") 3.
Proof.
  apply (generate_depends_on
           (lit "Worker slipped on wet floor in warehouse section B")
           (lit "Worker slipped on wet floor near the loading dock") 7 3).
  split; reflexivity.
Defined.

End GeneratorShape.

(** ** Depth assigner: fuel, generated diagrams, lists without a root *)

Module DisplayMore.

Import DisplaySpec.

Lemma forEach_child_mono (visit visit' : Z -> NodeMap -> option NodeMap) (k : Z) :
  (forall c m m', visit c m = Some m' -> visit' c m = Some m') ->
  forall entries m m',
    forEach_child visit k entries m = Some m' ->
    forEach_child visit' k entries m = Some m'.
Proof.
  intros Hv entries; induction entries as [|[k0 child] rest IH]; simpl;
    intros m m' H; [exact H |].
  destruct (parent_is (base child) k); [| now apply IH].
  destruct (visit (key (base child)) m) as [m1|] eqn:E; [| discriminate].
  rewrite (Hv _ _ _ E). now apply IH.
Qed.

(** A call that returned returns the same map with more fuel. *)
Lemma assign_more_fuel (f f' : nat) :
  (f <= f')%nat ->
  forall k d m m',
    assignDisplayLevelRecursive f k d m = Some m' ->
    assignDisplayLevelRecursive f' k d m = Some m'.
Proof.
  revert f'; induction f as [|f IH]; intros f' Hle k d m m' H;
    [discriminate |].
  destruct f' as [|f']; [lia |]. simpl in *.
  destruct (map_get k m); [| exact H].
  eapply forEach_child_mono; [| exact H].
  intros c m0 m0'. apply IH. lia.
Qed.

Lemma assignDisplayLevels_more_fuel (f f' : nat) (ns : list TreeNodeData)
      (out : list Leveled) :
  (f <= f')%nat ->
  assignDisplayLevels f ns = Some out -> assignDisplayLevels f' ns = Some out.
Proof.
  intros Hle. unfold assignDisplayLevels.
  destruct (find no_parent ns) as [r|]; [| auto].
  destruct (assignDisplayLevelRecursive f (key r) 0 _) as [m|] eqn:E;
    [| discriminate].
  now rewrite (assign_more_fuel f f' Hle _ _ _ _ E).
Qed.

(** X3. Whatever the text and the level, the diagram generated for it
    is at most two levels deep: the assigner puts the root at depth 0, the
    nodes under the root at depth 1 and all remaining nodes at depth 2,
    keeping the order of the list. *)
Theorem generated_depths (text : jsstring) (lvl : Z) (fuel : nat) :
  (3 <= fuel)%nat ->
  assignDisplayLevels fuel (generateGenericData text lvl)
  = Some (map (fun n => mkLeveled n match parent n with
                                    | None => 0
                                    | Some p => if p =? 1 then 1 else 2
                                    end)
              (generateGenericData text lvl)).
Proof.
  intro Hfuel. apply (assignDisplayLevels_more_fuel 3 fuel); [exact Hfuel |].
  rewrite GeneratorShape.generate_tail, (GeneratorShape.generate_clamped [] lvl).
  generalize (truncateIncidentName text). intro nm.
  assert (C : Z.max (-2) (Z.min 3 lvl) = -2 \/ Z.max (-2) (Z.min 3 lvl) = -1 \/
              Z.max (-2) (Z.min 3 lvl) = 0 \/ Z.max (-2) (Z.min 3 lvl) = 1 \/
              Z.max (-2) (Z.min 3 lvl) = 2 \/ Z.max (-2) (Z.min 3 lvl) = 3) by lia.
  destruct C as [->|[->|[->|[->|[->| ->]]]]]; reflexivity.
Qed.

Lemma generated_depths_witness :
  (3 <= 12)%nat /\
  option_map (map displayLevel)
    (assignDisplayLevels 12 (generateGenericData (lit "Worker slipped on wet floor") 5))
  = Some [0; 1; 1; 1; 1; 1; 2; 2; 2; 2; 2; 2].
Proof.
  split; [lia |].
  rewrite (generated_depths (lit "Worker slipped on wet floor") 5 12) by lia.
  reflexivity.
Defined.

(** X4. When every node names a parent (none is absent or 0) no root is
    found: the assigner returns at once, whatever the fuel, with every
    node at depth 0; with unique keys the nodes come back in their order. *)
Theorem no_root_all_zero (ns : list TreeNodeData) (fuel : nat) :
  (forall n, In n ns -> no_parent n = false) ->
  NoDup (map key ns) ->
  assignDisplayLevels fuel ns = Some (map (fun n => mkLeveled n 0) ns).
Proof.
  intros Hnone Hkeys. unfold assignDisplayLevels.
  destruct (find no_parent ns) as [r|] eqn:F.
  - apply find_some in F. destruct F as [Hr Hp].
    rewrite (Hnone r Hr) in Hp. discriminate.
  - rewrite (build_map ns []) by exact Hkeys.
    simpl. now rewrite map_map.
Qed.

Lemma no_root_all_zero_witness :
  assignDisplayLevels 0 [node 2 (Some 3) (lit "a"); node 3 (Some 2) (lit "b")]
  = Some [mkLeveled (node 2 (Some 3) (lit "a")) 0;
          mkLeveled (node 3 (Some 2) (lit "b")) 0].
Proof.
  apply (no_root_all_zero [node 2 (Some 3) (lit "a"); node 3 (Some 2) (lit "b")] 0).
  - intros n [<-|[<-|[]]]; reflexivity.
  - repeat constructor; simpl; intuition discriminate.
Defined.

End DisplayMore.

(** ** Node colours *)

Module ColoursSpec.

Import Colours.

Lemma rem8_cases (d : Z) :
  0 <= d ->
  Z.rem d 8 = 0 \/ Z.rem d 8 = 1 \/ Z.rem d 8 = 2 \/ Z.rem d 8 = 3 \/
  Z.rem d 8 = 4 \/ Z.rem d 8 = 5 \/ Z.rem d 8 = 6 \/ Z.rem d 8 = 7.
Proof.
  intro H. pose proof (Z.rem_bound_pos d 8 H ltac:(lia)). lia.
Qed.

(** X5. The fill colour of a node is never missing: the root blue is
    used at depth 0 and only there, every other depth gets a colour of the
    palette, the palette repeats with period 8 from depth 1 on, and all
    negative depths fall back to the first palette colour. *)
Theorem fill_palette (d : Z) :
  (fill d = lit "#4A90E2" <-> d = 0) /\
  (d <> 0 -> In (fill d) levelColors) /\
  (1 <= d -> fill (d + 8) = fill d /\
             nth_error levelColors (Z.to_nat ((d - 1) mod 8)) = Some (fill d)) /\
  (d < 0 -> fill d = lit "#E3F2FD").
Proof.
  assert (Hpal : d <> 0 -> In (fill d) levelColors).
  { intro Hne. unfold fill. destruct (Z.eqb_spec d 0); [contradiction |].
    change (Z.of_nat (length levelColors)) with 8.
    destruct (Z.le_gt_cases 0 (d - 1)) as [Hpos|Hneg].
    - destruct (rem8_cases (d - 1) Hpos) as [E|[E|[E|[E|[E|[E|[E|E]]]]]]];
        rewrite E; cbv; tauto.
    - assert (Hr : Z.rem (d - 1) 8 <= 0) by (apply Z.rem_nonpos; lia).
      destruct (Z.eq_dec (Z.rem (d - 1) 8) 0) as [E|E].
      + rewrite E. cbv; tauto.
      + unfold index. destruct (Z.ltb_spec (Z.rem (d - 1) 8) 0); [| lia].
        cbv; tauto. }
  split; [| split; [exact Hpal | split]].
  - split.
    + intro E. destruct (Z.eq_dec d 0) as [|Hne]; [assumption |].
      specialize (Hpal Hne). rewrite E in Hpal.
      cbv in Hpal. repeat (destruct Hpal as [Hpal|Hpal]; [discriminate |]).
      contradiction.
    + intros ->. reflexivity.
  - intro H1. unfold fill.
    destruct (Z.eqb_spec d 0); [lia |]. destruct (Z.eqb_spec (d + 8) 0); [lia |].
    change (Z.of_nat (length levelColors)) with 8.
    replace (d + 8 - 1) with (d - 1 + 1 * 8) by lia.
    rewrite Z.rem_add by lia.
    rewrite Z.rem_mod_nonneg by lia.
    split; [reflexivity |].
    pose proof (Z.mod_pos_bound (d - 1) 8 ltac:(lia)) as Hb.
    assert (C : (d - 1) mod 8 = 0 \/ (d - 1) mod 8 = 1 \/ (d - 1) mod 8 = 2 \/
                (d - 1) mod 8 = 3 \/ (d - 1) mod 8 = 4 \/ (d - 1) mod 8 = 5 \/
                (d - 1) mod 8 = 6 \/ (d - 1) mod 8 = 7) by lia.
    destruct C as [E|[E|[E|[E|[E|[E|[E|E]]]]]]]; rewrite E; reflexivity.
  - intro Hneg. unfold fill. destruct (Z.eqb_spec d 0); [lia |].
    change (Z.of_nat (length levelColors)) with 8.
    assert (Hr : Z.rem (d - 1) 8 <= 0) by (apply Z.rem_nonpos; lia).
    destruct (Z.eq_dec (Z.rem (d - 1) 8) 0) as [E|E].
    + rewrite E. reflexivity.
    + unfold index. destruct (Z.ltb_spec (Z.rem (d - 1) 8) 0); [| lia].
      reflexivity.
Qed.

Lemma fill_palette_witness :
  1 <= 3 /\ fill (3 + 8) = fill 3 /\ fill (-4) = lit "#E3F2FD".
Proof.
  split; [lia |]. split.
  - destruct (fill_palette 3) as (_ & _ & Hper & _). apply Hper. lia.
  - destruct (fill_palette (-4)) as (_ & _ & _ & Hneg). apply Hneg. lia.
Defined.

End ColoursSpec.

(** ** Editor: levels of nodes *)

Module EditorViewsSpec.

Import Editor EditorViews LinksFacts DisplaySpec.

Section Levels.

Variable ns : list TreeNodeData.
Hypothesis Hkeys : NoDup (map key ns).
Hypothesis Hzero : forall n, In n ns -> parent n <> Some 0.

Lemma find_parent (n pn : TreeNodeData) :
  In pn ns -> parent n = Some (key pn) ->
  find (fun m => parent_is n (key m)) ns = Some pn.
Proof using Hkeys.
  intros Hpn Hp. apply find_unique; [assumption | |].
  - now apply parent_is_true.
  - intros y Hy Hy'. apply parent_is_true in Hy'.
    apply (key_inj ns Hkeys); [assumption | assumption | congruence].
Qed.

(** The loop counts the steps up to the root. *)
Lemma getNodeLevel_loop_depth (d : nat) :
  forall n fuel lvl,
    In n ns -> DepthOf ns (key n) d -> (d < fuel)%nat ->
    getNodeLevel_loop fuel lvl n ns = Some (lvl + Z.of_nat d).
Proof using Hkeys Hzero.
  induction d as [|d IH]; intros n fuel lvl Hn Hd Hfuel;
    (destruct fuel as [|fuel]; [lia |]); cbn [getNodeLevel_loop];
    inversion Hd as [n' Hn' Hp' E Ed | n' p d' Hn' Hp' Hd' E Ed];
    apply (key_inj ns Hkeys) in E; auto; subst n'.
  - unfold truthy_num. rewrite Hp'. f_equal. lia.
  - assert (Hpz : p <> 0) by (intros ->; exact (Hzero n Hn Hp')).
    unfold truthy_num. rewrite Hp'.
    destruct (Z.eqb_spec p 0); [contradiction |]. simpl.
    pose proof (DepthOf_key_in ns p d Hd') as Hin.
    apply in_map_iff in Hin. destruct Hin as (pn & <- & Hpn).
    rewrite (find_parent n pn Hpn Hp').
    rewrite (IH pn fuel (lvl + 1) Hpn Hd') by lia. f_equal. lia.
Qed.

End Levels.

(** X6. On a list with unique keys, one parentless node and no parent
    equal to 0, the level the editor computes for a node whose parent
    chain ends at the root is the depth the diagram assigns to it. *)
Theorem editor_level_is_display_level
        (s : State) (rn : TreeNodeData) (fuel : nat) :
  NoDup (map key (diagramData s)) ->
  In rn (diagramData s) -> parent rn = None ->
  (forall n, In n (diagramData s) -> parent n = None -> n = rn) ->
  (forall n, In n (diagramData s) -> parent n <> Some 0) ->
  (length (diagramData s) <= fuel)%nat ->
  exists out,
    assignDisplayLevels fuel (diagramData s) = Some out /\
    forall e, In e out -> reachable (diagramData s) (key (base e)) ->
              getNodeLevel fuel s (base e) = Some (displayLevel e).
Proof.
  intros Hkeys Hroot Hparent Huniq Hzero Hfuel.
  assert (Hfind : find no_parent (diagramData s) = Some rn).
  { apply find_unique; [assumption | |].
    - apply no_parent_absent; [now apply Hzero | assumption].
    - intros y Hy Hp. apply Huniq; [assumption |].
      apply no_parent_absent; [now apply Hzero | assumption]. }
  destruct (assignDisplayLevels_from_root (diagramData s) rn Hkeys Hroot Hparent
              Huniq fuel Hfind Hfuel)
    as (out & Hrun & Hnodes & Hdepth & _).
  exists out. split; [exact Hrun |].
  intros e He [d Hd].
  assert (Hin : In (base e) (diagramData s)).
  { rewrite <- Hnodes. now apply in_map. }
  rewrite (Hdepth e d He Hd). unfold getNodeLevel.
  rewrite (getNodeLevel_loop_depth (diagramData s) Hkeys Hzero d (base e) fuel 0
             Hin Hd).
  - reflexivity.
  - pose proof (DepthOf_bound (diagramData s) Hkeys _ _ Hd). lia.
Qed.

Lemma editor_level_is_display_level_witness :
  exists out,
    assignDisplayLevels 4 Samples.small_tree = Some out /\
    forall e, In e out -> reachable Samples.small_tree (key (base e)) ->
              getNodeLevel 4 (Samples.editor_on Samples.small_tree None) (base e)
              = Some (displayLevel e).
Proof.
  apply (editor_level_is_display_level
           (Samples.editor_on Samples.small_tree None)
           (node 1 None (lit "Slip Incident")) 4).
  - repeat constructor; simpl; intuition discriminate.
  - simpl; auto.
  - reflexivity.
  - intros n [<-|[<-|[<-|[<-|[]]]]]; simpl; intro; congruence.
  - intros n [<-|[<-|[<-|[<-|[]]]]]; simpl; discriminate.
  - simpl; lia.
Defined.

(** X7. A node whose parent key belongs to no node is put at level 1 by
    the editor, while the diagram leaves it at depth 0 (with unique keys
    and a root found elsewhere). *)
Theorem dangling_parent_levels
        (s : State) (rn n : TreeNodeData) (p : Z) (fuel : nat) :
  NoDup (map key (diagramData s)) ->
  In rn (diagramData s) -> parent rn = None ->
  (forall m, In m (diagramData s) -> parent m = None -> m = rn) ->
  find no_parent (diagramData s) = Some rn ->
  In n (diagramData s) -> parent n = Some p -> p <> 0 ->
  ~ In p (map key (diagramData s)) ->
  (length (diagramData s) <= fuel)%nat ->
  getNodeLevel fuel s n = Some 1 /\
  exists out,
    assignDisplayLevels fuel (diagramData s) = Some out /\
    forall e, In e out -> base e = n -> displayLevel e = 0.
Proof.
  intros Hkeys Hroot Hparent Huniq Hfind Hn Hp Hpz Hmiss Hfuel. split.
  - unfold getNodeLevel. destruct fuel as [|fuel].
    + destruct (diagramData s); [contradiction | simpl in Hfuel; lia].
    + simpl. unfold truthy_num. rewrite Hp.
      destruct (Z.eqb_spec p 0); [contradiction |]. simpl.
      destruct (find (fun m => parent_is n (key m)) (diagramData s)) as [pn|] eqn:F;
        [| reflexivity].
      apply find_some in F. destruct F as [Hpn Hk].
      apply parent_is_true in Hk. exfalso. apply Hmiss.
      apply in_map_iff. exists pn. split; [congruence | assumption].
  - destruct (assignDisplayLevels_from_root (diagramData s) rn Hkeys Hroot Hparent
                Huniq fuel Hfind Hfuel)
      as (out & Hrun & Hnodes & _ & Hrest).
    exists out. split; [exact Hrun |].
    intros e He Hb. apply Hrest; [exact He |].
    rewrite Hb. intros [d Hd].
    inversion Hd as [n' Hn' Hp' E Ed | n' p' d' Hn' Hp' Hd' E Ed];
      apply (key_inj _ Hkeys) in E; auto; subst n'; [congruence |].
    apply Hmiss. rewrite Hp in Hp'. injection Hp' as <-.
    eapply DepthOf_key_in; eauto.
Qed.

Lemma dangling_parent_levels_witness :
  getNodeLevel 2
    (Samples.editor_on [node 1 None (lit "Incident"); node 2 (Some 9) (lit "Cause")] None)
    (node 2 (Some 9) (lit "Cause")) = Some 1 /\
  exists out,
    assignDisplayLevels 2 [node 1 None (lit "Incident"); node 2 (Some 9) (lit "Cause")]
    = Some out /\
    forall e, In e out -> base e = node 2 (Some 9) (lit "Cause") -> displayLevel e = 0.
Proof.
  apply (dangling_parent_levels
           (Samples.editor_on
              [node 1 None (lit "Incident"); node 2 (Some 9) (lit "Cause")] None)
           (node 1 None (lit "Incident")) (node 2 (Some 9) (lit "Cause")) 9 2).
  - repeat constructor; simpl; intuition discriminate.
  - simpl; auto.
  - reflexivity.
  - intros m [<-|[<-|[]]]; simpl; intro; congruence.
  - reflexivity.
  - simpl; auto.
  - reflexivity.
  - discriminate.
  - simpl; intuition discriminate.
  - simpl; lia.
Defined.

Lemma bucket_push (k l : Z) (n : TreeNodeData) (o : LevelObject) :
  bucket k (obj_push l n o) = bucket k o ++ (if l =? k then [n] else []).
Proof.
  unfold bucket. induction o as [|[k' b] o IH]; simpl.
  - destruct (l =? k); reflexivity.
  - destruct (Z.eqb_spec k' l) as [->|Hne]; simpl.
    + destruct (l =? k); [reflexivity | now rewrite app_nil_r].
    + destruct (Z.eqb_spec k' k) as [->|_]; [| exact IH].
      destruct (Z.eqb_spec l k); [congruence | now rewrite app_nil_r].
Qed.

Lemma group_nodes_buckets (level_of : TreeNodeData -> option Z)
      (xs : list TreeNodeData) :
  forall o o',
    group_nodes level_of xs o = Some o' ->
    (forall x, In x xs -> exists l, level_of x = Some l) /\
    forall k, bucket k o' = bucket k o ++ filter (at_level level_of k) xs.
Proof.
  induction xs as [|x xs IH]; simpl; intros o o' H.
  - injection H as <-. split; [intros x [] | intro k; now rewrite app_nil_r].
  - destruct (level_of x) as [l|] eqn:E; [| discriminate].
    destruct (IH _ _ H) as [Hall Hb]. split.
    + intros y [<-|Hy]; eauto.
    + intro k. rewrite Hb, bucket_push, <- app_assoc. f_equal.
      unfold at_level at 2. rewrite E. destruct (l =? k); reflexivity.
Qed.

Lemma for_upto_collect {B : Type} (f : Z -> B) (n : nat) :
  forall i acc,
    for_upto n i (fun j res => res ++ [f j]) acc
    = acc ++ map (fun j => f (i + Z.of_nat j)) (seq 0 n).
Proof.
  induction n as [|n IH]; intros i acc; simpl.
  - now rewrite app_nil_r.
  - rewrite IH, <- app_assoc. simpl. rewrite Z.add_0_r. do 2 f_equal.
    rewrite <- seq_shift, map_map. apply map_ext. intro j. f_equal. lia.
Qed.

Lemma filter_split_perm {A : Type} (p : A -> bool) (l : list A) :
  Permutation (filter p l ++ filter (fun x => negb (p x)) l) l.
Proof.
  induction l as [|x l IH]; simpl; [constructor |].
  destruct (p x); simpl.
  - now constructor.
  - apply Permutation_sym, Permutation_cons_app, Permutation_sym, IH.
Qed.

Lemma filter_within {A : Type} (p q : A -> bool) (l : list A) :
  (forall x, p x = true -> q x = true) ->
  filter p (filter q l) = filter p l.
Proof.
  intro H. induction l as [|x l IH]; simpl; [reflexivity |].
  destruct (q x) eqn:Q; simpl.
  - destruct (p x); now rewrite IH.
  - destruct (p x) eqn:P; [| exact IH].
    apply H in P. congruence.
Qed.

(** Buckets for different keys that cover all elements partition the list. *)
Lemma buckets_perm {A : Type} (f : A -> option Z) (ks : list Z) :
  NoDup ks ->
  forall l : list A,
    (forall x, In x l -> exists k, f x = Some k /\ In k ks) ->
    Permutation
      (concat (map (fun k => filter (fun x => match f x with
                                              | Some v => v =? k
                                              | None => false
                                              end) l) ks))
      l.
Proof.
  induction 1 as [|k ks Hk Hnd IH]; intros l Hl; simpl.
  - destruct l as [|x l]; [constructor |].
    destruct (Hl x (or_introl eq_refl)) as (k & _ & []).
  - set (here := fun x => match f x with Some v => v =? k | None => false end).
    eapply Permutation_trans; [| apply (filter_split_perm here l)].
    apply Permutation_app_head.
    eapply Permutation_trans;
      [| apply (IH (filter (fun x => negb (here x)) l))].
    + apply Permutation_refl'. f_equal. apply map_ext_in. intros k' Hk'.
      symmetry. apply filter_within. intros x Hx. unfold here.
      destruct (f x) as [v|]; [| discriminate].
      apply Z.eqb_eq in Hx. subst v.
      destruct (Z.eqb_spec k' k) as [->|_]; [contradiction | reflexivity].
    + intros x Hx. apply filter_In in Hx. destruct Hx as [Hx Hh].
      destruct (Hl x Hx) as (k' & E & [<-|Hin]); [| eauto].
      unfold here in Hh. rewrite E, Z.eqb_refl in Hh. discriminate.
Qed.

Lemma getNodeLevel_loop_lower (nodes : list TreeNodeData) (fuel : nat) :
  forall lvl n r, getNodeLevel_loop fuel lvl n nodes = Some r -> lvl <= r.
Proof.
  induction fuel as [|f IH]; simpl; intros lvl n r H; [discriminate |].
  destruct (truthy_num (parent n)); [| injection H as <-; lia].
  destruct (find _ nodes) as [pn|].
  - apply IH in H. lia.
  - injection H as <-. lia.
Qed.

Lemma seq_nth_error (n i j : nat) : nth_error (seq 0 n) i = Some j -> j = i.
Proof.
  intro H.
  assert (Hlt : (i < n)%nat).
  { rewrite <- (length_seq n 0). apply nth_error_Some. congruence. }
  apply (nth_error_nth _ _ O) in H. rewrite seq_nth in H by exact Hlt. lia.
Qed.

Lemma map_returning_spec {A B : Type} (f : A -> option B) (xs : list A) (ys : list B) :
  map_returning f xs = Some ys -> map f xs = map Some ys.
Proof.
  revert ys; induction xs as [|x xs IH]; simpl; intros ys H.
  - now injection H as <-.
  - destruct (f x) as [y|]; [| discriminate].
    destruct (map_returning f xs) as [ys'|]; [| discriminate].
    injection H as <-. simpl. f_equal. now apply IH.
Qed.

(** X8. When [getNodesByLevel] returns, its buckets partition the node
    list: there is one bucket for each level from 0 to the largest level,
    bucket [i] holds exactly the nodes of level [i] in list order, and the
    buckets together are a rearrangement of the node list. *)
Theorem getNodesByLevel_partition
        (fuel : nat) (s : State) (buckets : list (list TreeNodeData)) :
  getNodesByLevel fuel s = Some buckets ->
  exists maxLevel,
    getMaxLevel fuel s = Some maxLevel /\ 0 <= maxLevel /\
    Z.of_nat (length buckets) = maxLevel + 1 /\
    (forall i b, nth_error buckets i = Some b ->
        b = filter (at_level (getNodeLevel fuel s) (Z.of_nat i)) (diagramData s)) /\
    Permutation (concat buckets) (diagramData s).
Proof.
  unfold getNodesByLevel, getMaxLevel.
  destruct (group_nodes _ _ []) as [o|] eqn:G; [| discriminate].
  destruct (map_returning _ _) as [lvls|] eqn:L; [| discriminate].
  cbn [option_map]. intro H. injection H as <-.
  destruct (group_nodes_buckets _ _ _ _ G) as [Hall Hb].
  apply map_returning_spec in L.
  set (M := max_with_0 lvls).
  assert (HM : 0 <= M) by apply EditorSpec.max_with_0_nonneg.
  change (fun (i : Z) (result : list (list TreeNodeData)) =>
            result ++ [match obj_get i o with
                       | Some b => b
                       | None => []
                       end])
    with (fun (j : Z) (res : list (list TreeNodeData)) => res ++ [bucket j o]).
  rewrite (for_upto_collect (fun j => bucket j o)). cbn [app].
  exists M. split; [reflexivity |]. split; [exact HM |].
  assert (Hbuckets :
            map (fun j => bucket (0 + Z.of_nat j) o) (seq 0 (Z.to_nat (M + 1)))
            = map (fun k => filter (at_level (getNodeLevel fuel s) k) (diagramData s))
                  (map Z.of_nat (seq 0 (Z.to_nat (M + 1))))).
  { rewrite map_map. apply map_ext. intro j. now rewrite Hb. }
  split; [rewrite length_map, length_seq; lia |]. split.
  - intros i b Hi. rewrite Hbuckets, nth_error_map in Hi.
    rewrite nth_error_map in Hi.
    destruct (nth_error (seq 0 (Z.to_nat (M + 1))) i) as [j|] eqn:E;
      [| discriminate].
    apply seq_nth_error in E. simpl in Hi. injection Hi as <-.
    now subst j.
  - rewrite Hbuckets. apply buckets_perm.
    + apply Finite.Injective_map_NoDup; [| apply seq_NoDup].
      intros a b. apply Nat2Z.inj.
    + intros x Hx. destruct (Hall x Hx) as [l El]. exists l. split; [exact El |].
      assert (Hl : In l lvls).
      { assert (Hs : In (Some l) (map Some lvls)).
        { rewrite <- L, <- El. now apply in_map. }
        apply in_map_iff in Hs. destruct Hs as (l' & E' & Hl').
        now injection E' as ->. }
      pose proof (EditorSpec.max_with_0_upper lvls l Hl) as Hup.
      assert (Hlo : 0 <= l).
      { unfold getNodeLevel in El. now apply getNodeLevel_loop_lower in El. }
      apply in_map_iff. exists (Z.to_nat l). split; [lia |].
      apply in_seq. fold M in Hup. lia.
Qed.

Lemma getNodesByLevel_partition_witness :
  getNodesByLevel 4 (Samples.editor_on Samples.small_tree None)
  = Some [ [node 1 None (lit "Slip Incident")];
           [node 2 (Some 1) (lit "Environmental Factors");
            node 4 (Some 1) (lit "Safety Protocol Issues")];
           [node 3 (Some 2) (lit "Wet Floor Condition")] ] /\
  Permutation
    (concat [ [node 1 None (lit "Slip Incident")];
              [node 2 (Some 1) (lit "Environmental Factors");
               node 4 (Some 1) (lit "Safety Protocol Issues")];
              [node 3 (Some 2) (lit "Wet Floor Condition")] ])
    Samples.small_tree.
Proof.
  split; [reflexivity |].
  destruct (getNodesByLevel_partition 4
              (Samples.editor_on Samples.small_tree None) _ eq_refl)
    as (M & _ & _ & _ & _ & Hperm).
  exact Hperm.
Defined.

End EditorViewsSpec.

(** ** Trimming *)

Module TrimFacts.

Lemma trimStart_shape (s : jsstring) :
  trimStart s = [] \/
  exists c r, trimStart s = c :: r /\ is_space c = false.
Proof.
  induction s as [|c s IH]; simpl; [now left |].
  destruct (is_space c) eqn:E; [exact IH | right; eauto].
Qed.

Lemma trimStart_fixed (c : N) (r : jsstring) :
  is_space c = false -> trimStart (c :: r) = c :: r.
Proof. intro H. simpl. now rewrite H. Qed.

Lemma trimStart_idem (s : jsstring) : trimStart (trimStart s) = trimStart s.
Proof.
  destruct (trimStart_shape s) as [->|(c & r & -> & H)]; [reflexivity |].
  now apply trimStart_fixed.
Qed.

(** Leading white space is stripped up to a last character that is not
    white space, at the latest. *)
Lemma trimStart_keeps_last (l : jsstring) (c : N) :
  is_space c = false -> exists u, trimStart (l ++ [c]) = u ++ [c].
Proof.
  intro H. induction l as [|x l [u IH]]; simpl.
  - rewrite H. now exists [].
  - destruct (is_space x); [eauto |]. now exists (x :: l).
Qed.

Lemma trimEnd_keeps_first (c : N) (r : jsstring) :
  is_space c = false -> exists r', trimEnd (c :: r) = c :: r'.
Proof.
  intro H. unfold trimEnd. simpl.
  destruct (trimStart_keeps_last (rev r) c H) as [u ->].
  rewrite rev_app_distr. simpl. eauto.
Qed.

(** A trimmed string is empty or starts with a character that is not
    white space. *)
Lemma trim_shape (s : jsstring) :
  trim s = [] \/ exists c r, trim s = c :: r /\ is_space c = false.
Proof.
  unfold trim. destruct (trimStart_shape s) as [->|(c & r & -> & H)].
  - now left.
  - right. destruct (trimEnd_keeps_first c r H) as [r' ->]. eauto.
Qed.

Lemma trimEnd_idem (s : jsstring) : trimEnd (trimEnd s) = trimEnd s.
Proof.
  unfold trimEnd. now rewrite rev_involutive, trimStart_idem.
Qed.

Lemma trim_idem (s : jsstring) : trim (trim s) = trim s.
Proof.
  destruct (trim_shape s) as [E|(c & r & E & H)].
  - rewrite E. reflexivity.
  - unfold trim at 1. rewrite E, (trimStart_fixed c r H), <- E.
    unfold trim. apply trimEnd_idem.
Qed.


End TrimFacts.

(** ** Editor: deleting, adding and renaming compose *)

Module EditorMore.

Import Editor EditorViews LinksFacts RemoveSpec.

Lemma filter_none {A : Type} (p : A -> bool) (l : list A) :
  (forall x, In x l -> p x = false) -> filter p l = [].
Proof.
  induction l as [|x l IH]; simpl; intro H; [reflexivity |].
  rewrite (H x) by now left. apply IH. intros y Hy. apply H. now right.
Qed.

Lemma filter_all {A : Type} (p : A -> bool) (l : list A) :
  (forall x, In x l -> p x = true) -> filter p l = l.
Proof.
  induction l as [|x l IH]; simpl; intro H; [reflexivity |].
  rewrite (H x) by now left. f_equal. apply IH. intros y Hy. apply H. now right.
Qed.

Lemma parent_is_false (n : TreeNodeData) (k : Z) :
  parent n <> Some k -> parent_is n k = false.
Proof.
  intro H. destruct (parent_is n k) eqn:E; [| reflexivity].
  apply parent_is_true in E. contradiction.
Qed.

(** A key that no node names as parent is collected alone. *)
Lemma getNodeAndChildren_childless (fuel : nat) (k : Z) (nodes : list TreeNodeData) :
  (forall n, In n nodes -> parent n <> Some k) ->
  getNodeAndChildren (S fuel) k nodes = Some [k].
Proof.
  intro H. simpl. rewrite filter_none; [reflexivity |].
  intros n Hn. apply parent_is_false. now apply H.
Qed.

Lemma includes_single (k x : Z) : includes [k] x = (x =? k).
Proof. unfold includes. simpl. now rewrite orb_false_r. Qed.

(** X9. Deleting a key that no node names as its parent (a leaf, or a
    key that is not in the list) removes the nodes carrying that key and
    nothing else; for a key that is not in the list the node list is left
    as it is. *)
Theorem removeNode_childless (s : State) (k : Z) (fuel : nat) :
  (forall n, In n (diagramData s) -> parent n <> Some k) ->
  (1 <= fuel)%nat ->
  exists s',
    removeNode fuel k s = Some s' /\
    diagramData s' = filter (fun n => negb (key n =? k)) (diagramData s) /\
    (~ In k (map key (diagramData s)) -> diagramData s' = diagramData s).
Proof.
  intros Hleaf Hfuel. destruct fuel as [|fuel]; [lia |].
  rewrite (removeNode_result s k (S fuel) [k])
    by now apply getNodeAndChildren_childless.
  eexists. split; [reflexivity |]. cbn [diagramData]. split.
  - apply filter_ext. intro n. now rewrite includes_single.
  - intro Habsent. apply filter_all. intros n Hn. rewrite includes_single.
    destruct (Z.eqb_spec (key n) k) as [E|_]; [| reflexivity].
    exfalso. apply Habsent. rewrite <- E. now apply in_map.
Qed.

Lemma removeNode_childless_witness :
  exists s',
    removeNode 1 3 (Samples.editor_on Samples.small_tree None) = Some s' /\
    diagramData s'
    = [ node 1 None (lit "Slip Incident");
        node 2 (Some 1) (lit "Environmental Factors");
        node 4 (Some 1) (lit "Safety Protocol Issues") ].
Proof.
  destruct (removeNode_childless (Samples.editor_on Samples.small_tree None) 3 1)
    as (s' & Hrun & Hdata & _).
  - intros n [<-|[<-|[<-|[<-|[]]]]]; simpl; discriminate.
  - lia.
  - exists s'. split; [exact Hrun | exact Hdata].
Defined.

(** X10. Deleting the root of a tree empties the node list. *)
Theorem removeNode_root_empties (s : State) (rn : TreeNodeData) (fuel : nat) :
  is_tree (diagramData s) ->
  In rn (diagramData s) -> parent rn = None ->
  (length (diagramData s) <= fuel)%nat ->
  exists s', removeNode fuel (key rn) s = Some s' /\ diagramData s' = [].
Proof.
  intros [Hkeys (r & Hr & Hpr & Huniq) Hchains] Hrn Hp Hfuel.
  assert (E : rn = r) by now apply Huniq. subst r.
  assert (D0 : DepthOf (diagramData s) (key rn) 0) by now constructor.
  destruct (getNodeAndChildren_subtree (diagramData s) Hkeys fuel (key rn) O D0)
    as (l & Hl & Hin); [lia |].
  rewrite (removeNode_result s (key rn) fuel l Hl).
  eexists. split; [reflexivity |]. cbn [diagramData].
  apply filter_none. intros n Hn.
  destruct (Hchains n Hn) as [d Hd].
  apply (DisplaySpec.DepthOf_from_root (diagramData s) rn Huniq) in Hd.
  assert (Hinc : includes l (key n) = true).
  { apply includes_In, Hin. now exists d. }
  now rewrite Hinc.
Qed.

Lemma removeNode_root_empties_witness :
  exists s',
    removeNode 4 1 (Samples.editor_on Samples.small_tree (Some 3)) = Some s' /\
    diagramData s' = [].
Proof.
  apply (removeNode_root_empties
           (Samples.editor_on Samples.small_tree (Some 3))
           (node 1 None (lit "Slip Incident")) 4).
  - exact small_tree_is_tree.
  - simpl; auto.
  - reflexivity.
  - simpl; lia.
Defined.

(** With all keys below [2^53] the new key is the largest key (or 0)
    plus one, exactly. *)
Lemma addNewNode_exact (s : State) :
  (forall n, In n (diagramData s) -> key n < 2 ^ 53) ->
  addNewNode s
  = set_editingNodeId (Some (max_with_0 (map key (diagramData s)) + 1))
      (set_diagramData
         (diagramData s
          ++ [node (max_with_0 (map key (diagramData s)) + 1) None
                   (lit "New Analysis Point")]) s).
Proof.
  intro Hb. unfold addNewNode. cbn [key node].
  rewrite NumFacts.max_plus_one; [reflexivity |].
  intros x Hx. apply in_map_iff in Hx. destruct Hx as (n & <- & Hn). now apply Hb.
Qed.

(** X11. Adding a node keeps the keys unique, as long as all keys are
    below [2^53]. *)
Theorem addNewNode_keeps_keys_unique (s : State) :
  (forall n, In n (diagramData s) -> key n < 2 ^ 53) ->
  NoDup (map key (diagramData s)) ->
  NoDup (map key (diagramData (addNewNode s))).
Proof.
  intros Hb H. rewrite (addNewNode_exact s Hb). simpl. rewrite map_app. simpl.
  apply NoDup_app_remove_l with (l := []). simpl.
  apply Permutation_NoDup with
    (l := (max_with_0 (map key (diagramData s)) + 1) :: map key (diagramData s)).
  - apply Permutation_cons_append.
  - constructor; [| exact H]. intro Hin.
    pose proof (EditorSpec.max_with_0_upper _ _ Hin). lia.
Qed.

Lemma addNewNode_keeps_keys_unique_witness :
  NoDup (map key (diagramData (addNewNode (Samples.editor_on Samples.small_tree None)))).
Proof.
  apply addNewNode_keeps_keys_unique.
  - intros n [<-|[<-|[<-|[<-|[]]]]]; reflexivity.
  - repeat constructor; simpl; intuition discriminate.
Defined.

(** X12. With all keys below [2^53], adding a node and deleting the
    node in edit mode (the new one) again gives back the node list and
    leaves edit mode, provided no node already names the new key as its
    parent. *)
Theorem add_then_remove (s : State) (fuel : nat) :
  (forall n, In n (diagramData s) -> key n < 2 ^ 53) ->
  (forall n, In n (diagramData s) ->
             parent n <> Some (max_with_0 (map key (diagramData s)) + 1)) ->
  (1 <= fuel)%nat ->
  exists k s',
    editingNodeId (addNewNode s) = Some k /\
    k = max_with_0 (map key (diagramData s)) + 1 /\
    removeNode fuel k (addNewNode s) = Some s' /\
    diagramData s' = diagramData s /\ editingNodeId s' = None.
Proof.
  intros Hb Hfree Hfuel. destruct fuel as [|fuel]; [lia |].
  rewrite (addNewNode_exact s Hb).
  set (k := max_with_0 (map key (diagramData s)) + 1).
  exists k.
  rewrite (removeNode_result _ k (S fuel) [k]).
  - eexists. split; [reflexivity |]. split; [reflexivity |].
    split; [reflexivity |].
    cbn [diagramData editingNodeId set_diagramData set_editingNodeId key node].
    split.
    + rewrite filter_app. cbn [filter key node].
      rewrite includes_single, Z.eqb_refl. cbn [negb].
      rewrite app_nil_r. apply filter_all. intros n Hn.
      rewrite includes_single.
      pose proof (EditorSpec.max_with_0_upper _ _ (in_map key _ _ Hn)).
      destruct (Z.eqb_spec (key n) k); [unfold k in *; lia | reflexivity].
    + now rewrite Z.eqb_refl.
  - apply getNodeAndChildren_childless. simpl.
    intros n Hn. apply in_app_or in Hn. destruct Hn as [Hn|[<-|[]]].
    + now apply Hfree.
    + discriminate.
Qed.

Lemma add_then_remove_witness :
  exists k s',
    editingNodeId (addNewNode (Samples.editor_on Samples.small_tree None)) = Some k /\
    k = 5 /\
    removeNode 1 k (addNewNode (Samples.editor_on Samples.small_tree None)) = Some s' /\
    diagramData s' = Samples.small_tree /\ editingNodeId s' = None.
Proof.
  apply (add_then_remove (Samples.editor_on Samples.small_tree None) 1).
  - intros n [<-|[<-|[<-|[<-|[]]]]]; reflexivity.
  - intros n [<-|[<-|[<-|[<-|[]]]]]; simpl; discriminate.
  - lia.
Defined.

Lemma push_subtree_stuck (recurse : Z -> option (list Z)) (cs : list TreeNodeData) :
  fold_left (push_subtree recurse) cs None = None.
Proof. induction cs; simpl; auto. Qed.

Lemma push_subtree_diverges (recurse : Z -> option (list Z))
      (cs : list TreeNodeData) (c : TreeNodeData) :
  In c cs -> recurse (key c) = None ->
  forall acc, fold_left (push_subtree recurse) cs acc = None.
Proof.
  induction cs as [|x cs IH]; simpl; intros Hc Hrec acc; [contradiction |].
  destruct Hc as [->|Hc].
  - destruct acc; simpl; rewrite ?Hrec; apply push_subtree_stuck.
  - now apply IH.
Qed.

(** X13. A node that names itself as its parent makes the deletion of
    its key run without end, and with it, when the key is not 0 and keys
    are unique, the computation of its level and of the level buckets. *)
Theorem self_parent_never_returns (s : State) (n : TreeNodeData) (fuel : nat) :
  In n (diagramData s) -> parent n = Some (key n) ->
  removeNode fuel (key n) s = None /\
  (key n <> 0 -> NoDup (map key (diagramData s)) ->
   getNodeLevel fuel s n = None /\ getNodesByLevel fuel s = None).
Proof.
  intros Hn Hp. split.
  - unfold removeNode.
    assert (H : getNodeAndChildren fuel (key n) (diagramData s) = None).
    { induction fuel as [|f IH]; [reflexivity |]. simpl.
      apply (push_subtree_diverges _ _ n); [| exact IH].
      apply filter_In. split; [exact Hn | now apply parent_is_true]. }
    now rewrite H.
  - intros Hz Hkeys.
    assert (H : forall lvl, getNodeLevel_loop fuel lvl n (diagramData s) = None).
    { induction fuel as [|f IH]; intro lvl; [reflexivity |]. simpl.
      unfold truthy_num. rewrite Hp.
      destruct (Z.eqb_spec (key n) 0); [contradiction |]. simpl.
      rewrite (DisplaySpec.find_unique _ _ n); [apply IH | exact Hn | |].
      - now apply parent_is_true.
      - intros y Hy Hy'. apply parent_is_true in Hy'.
        apply (key_inj _ Hkeys); [assumption | assumption | congruence]. }
    split; [apply H |].
    unfold getNodesByLevel.
    assert (G : forall xs o, In n xs ->
                  group_nodes (getNodeLevel fuel s) xs o = None).
    { induction xs as [|x xs IHx]; intros o Hin; [contradiction |]. simpl.
      destruct Hin as [->|Hin].
      - unfold getNodeLevel at 1. now rewrite H.
      - destruct (getNodeLevel fuel s x); [now apply IHx | reflexivity]. }
    now rewrite G.
Qed.

Lemma self_parent_never_returns_witness :
  removeNode 50 2
    (Samples.editor_on [node 1 None (lit "Incident"); node 2 (Some 2) (lit "Loop")] None)
  = None.
Proof.
  apply (self_parent_never_returns
           (Samples.editor_on
              [node 1 None (lit "Incident"); node 2 (Some 2) (lit "Loop")] None)
           (node 2 (Some 2) (lit "Loop")) 50).
  - simpl; auto.
  - reflexivity.
Defined.

End EditorMore.

(** ** Editor: regenerated diagrams, stored names, level labels *)

Module EditorValidity.

Import Editor EditorViews Repository TrimFacts.






(** X15. After a rename that is accepted, every node carrying the key
    holds a name that is not empty and has no white space at either end:
    trimming it again changes nothing, the node passes the save check, and
    renaming once more with the stored name leaves the node list as it is. *)
Theorem renamed_node_is_trimmed (s : State) (k : Z) (newText : jsstring) :
  trim newText <> [] ->
  forall n, In n (diagramData (updateNodeText k newText s)) -> key n = k ->
    name n = trim newText /\ trim (name n) = name n /\ name n <> [] /\
    invalid_name n = false /\
    diagramData (updateNodeText k (name n) (updateNodeText k newText s))
    = diagramData (updateNodeText k newText s).
Proof.
  intros Hne.
  assert (Hg : negb (truthy_str (Some newText))
               || negb (truthy_str (Some (trim newText))) = false).
  { destruct (negb (truthy_str (Some newText))
              || negb (truthy_str (Some (trim newText)))) eqn:G; [| reflexivity].
    apply EditorSpec.empty_text_guard in G. contradiction. }
  assert (Hdata : forall s0,
             diagramData (updateNodeText k newText s0)
             = map (fun n => if key n =? k then with_name n (trim newText) else n)
                   (diagramData s0)).
  { intro s0. unfold updateNodeText. rewrite Hg. reflexivity. }
  intros n Hn Hk. rewrite Hdata in Hn. apply in_map_iff in Hn.
  destruct Hn as (n0 & E & Hn0).
  assert (Hname : name n = trim newText).
  { destruct (Z.eqb_spec (key n0) k) as [_|Hk0].
    - now subst n.
    - subst n. contradiction. }
  split; [exact Hname |]. rewrite Hname.
  split; [apply trim_idem |]. split; [exact Hne |]. split.
  - unfold invalid_name. rewrite Hname, trim_idem.
    destruct (trim newText) as [|c r]; [contradiction | reflexivity].
  - assert (Hg' : negb (truthy_str (Some (trim newText)))
                  || negb (truthy_str (Some (trim (trim newText)))) = false).
    { rewrite trim_idem. destruct (trim newText); [contradiction | reflexivity]. }
    unfold updateNodeText at 1. rewrite Hg'. cbn [diagramData set_diagramData
      set_diagramError stopEditingNode set_editingNodeId].
    rewrite trim_idem, Hdata, map_map. apply map_ext. intro m.
    destruct (Z.eqb_spec (key m) k) as [Hm|Hm].
    + cbn [key with_name]. destruct (Z.eqb_spec (key m) k); [reflexivity | contradiction].
    + destruct (Z.eqb_spec (key m) k); [contradiction | reflexivity].
Qed.

Lemma renamed_node_is_trimmed_witness :
  trim (lit "  Wet floor ") <> [] /\
  forall n,
    In n (diagramData (updateNodeText 3 (lit "  Wet floor ")
                         (Samples.editor_on Samples.small_tree (Some 3)))) ->
    key n = 3 -> name n = lit "Wet floor".
Proof.
  split; [discriminate |]. intros n Hn Hk.
  destruct (renamed_node_is_trimmed
              (Samples.editor_on Samples.small_tree (Some 3)) 3 (lit "  Wet floor ")
              ltac:(discriminate) n Hn Hk) as [Hname _].
  exact Hname.
Defined.

End EditorValidity.

(** ** Level labels: writing and reading back *)

Module LabelRoundTrip.

Import EditorViews.

(** X16. The labels the editor writes for the levels 1 to 5 are read
    back as the same level by the editor, the history page and the
    dashboard; any other number is written as the label of level 3.  The
    labels the main page writes for the levels 3 to 5 are read back
    likewise, and any other number is written as level 3. *)
Theorem written_labels_read_back (lvl : Z) :
  extractLevelNumber (Some (getLevelFromNumber lvl))
  = (if (1 <=? lvl) && (lvl <=? 5) then lvl else 3) /\
  extractLevelFromAnalysisLevel (getLevelFromNumber lvl)
  = extractLevelNumber (Some (getLevelFromNumber lvl)) /\
  dashboard_extractLevelNumber (getLevelFromNumber lvl)
  = extractLevelNumber (Some (getLevelFromNumber lvl)) /\
  extractLevelFromAnalysisLevel (mapLevelToAnalysisLevel lvl)
  = (if (3 <=? lvl) && (lvl <=? 5) then lvl else 3) /\
  extractLevelNumber (Some (mapLevelToAnalysisLevel lvl))
  = extractLevelFromAnalysisLevel (mapLevelToAnalysisLevel lvl).
Proof.
  assert (C : lvl = 1 \/ lvl = 2 \/ lvl = 3 \/ lvl = 4 \/ lvl = 5 \/
              (lvl < 1 \/ 5 < lvl)) by lia.
  destruct C as [->|[->|[->|[->|[->|Hout]]]]]; try (repeat split; reflexivity).
  assert (E1 : getLevelFromNumber lvl = lit "Level 3 - Moderate Analysis").
  { unfold getLevelFromNumber.
    repeat match goal with
           | |- context [?a =? ?b] => destruct (Z.eqb_spec a b); [lia |]
           end.
    reflexivity. }
  assert (E2 : mapLevelToAnalysisLevel lvl = lit "Level 3 - Basic Analysis").
  { unfold mapLevelToAnalysisLevel. cbn [find fst snd].
    repeat match goal with
           | |- context [?a =? ?b] => destruct (Z.eqb_spec a b); [lia |]
           end.
    reflexivity. }
  rewrite E1, E2.
  replace ((1 <=? lvl) && (lvl <=? 5)) with false
    by (symmetry; apply andb_false_iff; lia).
  replace ((3 <=? lvl) && (lvl <=? 5)) with false
    by (symmetry; apply andb_false_iff; lia).
  repeat split.
Qed.

Lemma match_literal_self (ignoreCase : bool) (pat r : jsstring) :
  match_literal ignoreCase pat (pat ++ r) = Some r.
Proof.
  induction pat as [|p pat IH]; cbn [match_literal app]; [reflexivity |].
  assert (H : char_matches ignoreCase p p = true).
  { unfold char_matches. destruct ignoreCase; apply N.eqb_refl. }
  now rewrite H.
Qed.

Lemma take_digits_all (ds rest : jsstring) :
  forallb is_digit ds = true ->
  match rest with
  | [] => True
  | c :: _ => is_digit c = false
  end ->
  take_digits (ds ++ rest) = ds.
Proof.
  intros Hds Hrest. induction ds as [|d ds IH]; simpl in *.
  - destruct rest as [|c r]; [reflexivity |]. simpl. now rewrite Hrest.
  - apply andb_true_iff in Hds. destruct Hds as [Hd Hds].
    rewrite Hd. f_equal. now apply IH.
Qed.

(** X17. A label that starts with "Level ", then a run of one to
    fifteen decimal digits, then nothing or a character that is not a
    digit, is read as the value of that run by the history page, the
    editor and the dashboard alike. *)
Theorem label_with_number (ds rest : jsstring) :
  ds <> [] ->
  (length ds <= 15)%nat ->
  forallb is_digit ds = true ->
  match rest with
  | [] => True
  | c :: _ => is_digit c = false
  end ->
  extractLevelFromAnalysisLevel (lit "Level " ++ ds ++ rest) = parseInt10 ds /\
  extractLevelNumber (Some (lit "Level " ++ ds ++ rest)) = parseInt10 ds /\
  dashboard_extractLevelNumber (lit "Level " ++ ds ++ rest) = parseInt10 ds.
Proof.
  intros Hne _ Hds Hrest.
  assert (Hm : forall b, match_Level b (lit "Level " ++ ds ++ rest) = Some ds).
  { intro b.
    assert (Hh : match_here b (lit "Level " ++ ds ++ rest) = Some ds).
    { unfold match_here. rewrite match_literal_self.
      rewrite (take_digits_all ds rest Hds Hrest).
      destruct ds; [contradiction | reflexivity]. }
    change (lit "Level " ++ ds ++ rest)
      with (76%N :: (lit "evel " ++ ds ++ rest)) in *.
    cbn [match_Level]. now rewrite Hh. }
  unfold extractLevelFromAnalysisLevel, extractLevelNumber,
    dashboard_extractLevelNumber.
  rewrite !Hm. repeat split.
Qed.

Lemma label_with_number_witness :
  extractLevelFromAnalysisLevel (lit "Level 12 - Extended Analysis") = 12 /\
  extractLevelNumber (Some (lit "Level 12 - Extended Analysis")) = 12 /\
  dashboard_extractLevelNumber (lit "Level 12 - Extended Analysis") = 12.
Proof.
  apply (label_with_number (lit "12") (lit " - Extended Analysis")).
  - discriminate.
  - apply Nat.leb_le. reflexivity.
  - reflexivity.
  - reflexivity.
Defined.

End LabelRoundTrip.

(** ** Repository: titles, creating, saving, deleting, history *)

Module RepositoryOpsSpec.

Import Repository RepositoryOps RepositorySpec.

Lemma str_eqb_eq (a b : jsstring) : str_eqb a b = true <-> a = b.
Proof.
  revert b; induction a as [|x a IH]; intros [|y b]; simpl;
    try (split; [discriminate | discriminate]); [tauto |].
  rewrite andb_true_iff, N.eqb_eq, IH. split.
  - intros [-> ->]; reflexivity.
  - intro E; injection E as -> ->; auto.
Qed.

Lemma str_eqb_refl (a : jsstring) : str_eqb a a = true.
Proof. now apply str_eqb_eq. Qed.

Lemma split_space_nonempty (s : jsstring) : split_space s <> [].
Proof.
  destruct s as [|c r]; simpl; [discriminate |].
  destruct (c =? 32)%N; [discriminate |].
  destruct (split_space r); discriminate.
Qed.

Lemma join_cons (w : jsstring) (ws : list jsstring) :
  ws <> [] -> join_space (w :: ws) = w ++ 32%N :: join_space ws.
Proof. destruct ws; [contradiction | reflexivity]. Qed.

(** Splitting at blanks and joining with blanks gives the string back. *)
Lemma join_split (s : jsstring) : join_space (split_space s) = s.
Proof.
  induction s as [|c r IH]; [reflexivity |]. cbn [split_space].
  pose proof (split_space_nonempty r) as Hne.
  destruct (N.eqb_spec c 32) as [->|Hc].
  - rewrite join_cons by exact Hne. now rewrite IH.
  - destruct (split_space r) as [|w ws]; [contradiction |].
    destruct ws as [|w' ws].
    + simpl in *. now rewrite IH.
    + rewrite join_cons by discriminate.
      rewrite join_cons in IH by discriminate.
      rewrite <- IH. reflexivity.
Qed.

Lemma join_app (a b : list jsstring) :
  a <> [] -> b <> [] ->
  join_space (a ++ b) = join_space a ++ 32%N :: join_space b.
Proof.
  intros Ha Hb. induction a as [|w a IH]; [contradiction |].
  destruct a as [|w' a].
  - destruct b as [|x b]; [contradiction | reflexivity].
  - change (join_space ((w :: w' :: a) ++ b))
      with (w ++ 32%N :: join_space ((w' :: a) ++ b)).
    rewrite IH by discriminate.
    change (join_space (w :: w' :: a)) with (w ++ 32%N :: join_space (w' :: a)).
    now rewrite <- app_assoc.
Qed.

(** X18. The title made from a description is the description itself
    when it has at most four words (pieces between blanks); with more
    words it is the first four words followed by "...", and those four
    words and a blank start the description; an empty description gives
    "Untitled Incident". *)
Theorem generateTitle_words (description : jsstring) :
  (description = [] -> generateTitle description = lit "Untitled Incident") /\
  (description <> [] -> (length (split_space description) <= 4)%nat ->
     generateTitle description = description) /\
  ((4 < length (split_space description))%nat ->
     exists rest,
       description
       = join_space (firstn 4 (split_space description)) ++ 32%N :: rest /\
       generateTitle description
       = join_space (firstn 4 (split_space description)) ++ lit "...").
Proof.
  split; [intros ->; reflexivity | split].
  - intros Hne Hlen. unfold generateTitle.
    destruct description as [|c r]; [contradiction |]. cbn [truthy_str negb].
    destruct (Z.gtb_spec (Z.of_nat (length (split_space (c :: r)))) 4); [lia |].
    rewrite firstn_all2 by exact Hlen. rewrite join_split. apply app_nil_r.
  - intro Hlen. unfold generateTitle.
    destruct description as [|c r]; [simpl in Hlen; lia |]. cbn [truthy_str negb].
    destruct (Z.gtb_spec (Z.of_nat (length (split_space (c :: r)))) 4); [| lia].
    exists (join_space (skipn 4 (split_space (c :: r)))). split; [| reflexivity].
    rewrite <- join_app.
    + now rewrite firstn_skipn, join_split.
    + intro E. apply (f_equal (@length _)) in E.
      rewrite firstn_length_le in E by lia. discriminate.
    + intro E. apply (f_equal (@length _)) in E.
      rewrite length_skipn in E. change (length (@nil jsstring)) with O in E. lia.
Qed.

Lemma generateTitle_words_witness :
  generateTitle (lit "Worker slipped on wet floor near dock")
  = lit "Worker slipped on wet..." /\
  generateTitle (lit "Ladder fall") = lit "Ladder fall".
Proof.
  split.
  - destruct (generateTitle_words (lit "Worker slipped on wet floor near dock"))
      as (_ & _ & Hlong).
    destruct Hlong as (rest & _ & ->); [simpl; lia | reflexivity].
  - destruct (generateTitle_words (lit "Ladder fall")) as (_ & Hshort & _).
    apply Hshort; [discriminate | simpl; lia].
Defined.

Lemma max_with_0_bound (xs : list Z) (x : Z) : In x xs -> x < max_with_0 xs + 1.
Proof. intro H. pose proof (EditorSpec.max_with_0_upper xs x H). lia. Qed.

(** With all ids below [2^53], the id handed out next is above every
    id in the store. *)
Lemma generateId_fresh (dat : IncidentsData) :
  (forall r, In r (incidents dat) -> rec_id r < 2 ^ 53) ->
  (forall d, In d (diagrams dat) -> id d < 2 ^ 53) ->
  (forall r, In r (incidents dat) -> rec_id r < generateId (Some dat)) /\
  (forall d, In d (diagrams dat) -> id d < generateId (Some dat)).
Proof.
  intros Hbi Hbd. unfold generateId.
  rewrite NumFacts.max_plus_one.
  - split.
    + intros r Hr. apply max_with_0_bound, in_or_app. left. now apply in_map.
    + intros d Hd. apply max_with_0_bound, in_or_app. right. now apply in_map.
  - intros x Hx. apply in_app_or in Hx.
    destruct Hx as [Hx|Hx]; apply in_map_iff in Hx;
      destruct Hx as (y & <- & Hy); auto.
Qed.

Lemma findIndex_app_last {A : Type} (p : A -> bool) (l : list A) (x : A) :
  (forall y, In y l -> p y = false) -> p x = true ->
  findIndex p (l ++ [x]) = Some (length l).
Proof.
  intros Hl Hx. induction l as [|a l IH]; simpl.
  - now rewrite Hx.
  - rewrite (Hl a) by now left. rewrite IH; [reflexivity |].
    intros y Hy. apply Hl. now right.
Qed.

Lemma insert_in {A : Type} (cmp : A -> A -> Z) (x y : A) (l : list A) :
  In y (insert_sorted cmp x l) <-> y = x \/ In y l.
Proof.
  induction l as [|a l IH]; simpl; [intuition |].
  destruct (cmp x a <=? 0); simpl; [intuition |].
  rewrite IH. intuition.
Qed.

Lemma sort_in {A : Type} (cmp : A -> A -> Z) (l : list A) (y : A) :
  In y l -> In y (stable_sort cmp l).
Proof.
  induction l as [|a l IH]; simpl; [tauto |].
  intro H. apply insert_in. destruct H as [->|H]; auto.
Qed.

Lemma insert_perm {A : Type} (cmp : A -> A -> Z) (x : A) (l : list A) :
  Permutation (insert_sorted cmp x l) (x :: l).
Proof.
  induction l as [|a l IH]; simpl; [constructor; constructor |].
  destruct (cmp x a <=? 0); [apply Permutation_refl |].
  eapply Permutation_trans; [apply perm_skip, IH | apply perm_swap].
Qed.

Lemma sort_perm {A : Type} (cmp : A -> A -> Z) (l : list A) :
  Permutation (stable_sort cmp l) l.
Proof.
  induction l as [|a l IH]; simpl; [constructor |].
  eapply Permutation_trans; [apply insert_perm | now constructor].
Qed.

Section Clock.

Variable now : Z.
Variable monthStart : Z.
Variable JSON_stringify : list TreeNodeData -> jsstring.

(** X19. Without loaded data [createDiagram] throws.  On loaded data
    it appends one diagram, which carries the given incident id, title
    and the serialized nodes; incidents, statistics and the other
    diagrams stay as they are, and an incident with that id is then
    delivered with the new diagram after its old ones.  When all ids in
    the store are below [2^53], the new id is above every one of them
    and an update of the new diagram's id finds it. *)
Theorem createDiagram_appends
        (incId : Z) (newTitle : jsstring) (nodes : list TreeNodeData)
        (dat : IncidentsData) :
  createDiagram now JSON_stringify incId newTitle nodes None
  = (Throw (lit "Incidents data not loaded"), None) /\
  exists d' dat',
    createDiagram now JSON_stringify incId newTitle nodes (Some dat)
    = (Ok d', Some dat') /\
    diagrams dat' = diagrams dat ++ [d'] /\
    incidents dat' = incidents dat /\ stats dat' = stats dat /\
    incidentId d' = incId /\ title d' = newTitle /\
    diagramJson d' = JSON_stringify nodes /\ createdAt d' = now /\
    (forall r, rec_id r = incId ->
       incident_diagrams (with_diagrams dat' r)
       = incident_diagrams (with_diagrams dat r) ++ [d']) /\
    ((forall r, In r (incidents dat) -> rec_id r < 2 ^ 53) ->
     (forall d, In d (diagrams dat) -> id d < 2 ^ 53) ->
     (forall d, In d (diagrams dat) -> id d < id d') /\
     (forall r, In r (incidents dat) -> rec_id r < id d') /\
     (forall t n, exists d'' st'',
        updateDiagram JSON_stringify (id d') t n (Some dat') = (Ok d'', st'') /\
        id d'' = id d' /\ incidentId d'' = incId)).
Proof.
  split; [reflexivity |].
  cbv [createDiagram bind get_store put_store ret].
  eexists _, _. split; [reflexivity |].
  cbn [diagrams incidents stats incidentId title diagramJson createdAt id].
  repeat (split; [reflexivity |]).
  split.
  - intros r Hr. unfold with_diagrams. cbn [incident_diagrams diagrams].
    rewrite filter_app. cbn [filter incidentId].
    rewrite Hr, Z.eqb_refl. reflexivity.
  - intros Hbi Hbd.
    destruct (generateId_fresh dat Hbi Hbd) as [Hinc Hdia].
    split; [exact Hdia |]. split; [exact Hinc |].
    intros t n. unfold updateDiagram, bind, get_store. cbn [diagrams].
    rewrite findIndex_app_last.
    + rewrite nth_error_app2, Nat.sub_diag by lia. cbn.
      eexists _, _. split; [reflexivity |]. split; reflexivity.
    + intros y Hy. apply Z.eqb_neq. specialize (Hdia y Hy).
      cbn [id]. lia.
    + apply Z.eqb_refl.
Qed.

Lemma splice1_findIndex {A : Type} (p : A -> bool) (l : list A) (i : nat) :
  findIndex p l = Some i ->
  (length (splice1 i l) + 1 = length l)%nat /\
  (forall x, In x (splice1 i l) -> In x l) /\
  ((forall x y, In x l -> In y l -> p x = true -> p y = true -> x = y) ->
   NoDup l ->
   splice1 i l = filter (fun x => negb (p x)) l).
Proof.
  revert i; induction l as [|a l IH]; simpl; intro i; [discriminate |].
  destruct (p a) eqn:E.
  - intro H; injection H as <-. simpl. split; [lia |]. split; [auto |].
    intros Huniq Hnd. inversion Hnd as [|? ? Ha Hl]; subst.
    symmetry. apply EditorMore.filter_all. intros x Hx.
    destruct (p x) eqn:Px; [| reflexivity].
    exfalso. apply Ha. rewrite (Huniq a x); auto.
  - destruct (findIndex p l) as [j|] eqn:F; [| discriminate].
    simpl. intro H; injection H as <-.
    destruct (IH j eq_refl) as (Hlen & Hin & Hfil). simpl.
    split; [lia |]. split.
    + intros x [->|Hx]; auto.
    + intros Huniq Hnd. inversion Hnd as [|? ? Ha Hl]; subst.
      f_equal. apply Hfil; [| assumption].
      intros x y Hx Hy. apply Huniq; now right.
Qed.

(** X20. Deleting an incident that exists removes one record with that
    id (the only one when ids are unique) and every diagram that belongs to
    it, keeps all other diagrams in their order, and brings the total of
    the statistics in line with the records left; an id that no record
    carries makes the call throw and leaves the store untouched. *)
Theorem deleteIncident_cascade (incId : Z) (dat : IncidentsData) :
  ((forall r, In r (incidents dat) -> rec_id r <> incId) ->
   deleteIncident monthStart incId (Some dat)
   = (Throw (lit "Incident record not found"), Some dat)) /\
  (forall r0, In r0 (incidents dat) -> rec_id r0 = incId ->
   exists dat',
     deleteIncident monthStart incId (Some dat) = (Ok true, Some dat') /\
     diagrams dat' = filter (fun d => negb (incidentId d =? incId)) (diagrams dat) /\
     (forall d, In d (diagrams dat') -> incidentId d <> incId) /\
     (forall d, In d (diagrams dat) -> incidentId d <> incId -> In d (diagrams dat')) /\
     (length (incidents dat') + 1 = length (incidents dat))%nat /\
     (forall r, In r (incidents dat') -> In r (incidents dat)) /\
     total (stats dat') = Z.of_nat (length (incidents dat')) /\
     (NoDup (map rec_id (incidents dat)) ->
      incidents dat'
      = filter (fun r => negb (rec_id r =? incId)) (incidents dat) /\
      getIncidentById dat' incId = None)).
Proof.
  split.
  - intro Hnone. unfold deleteIncident, bind, get_store.
    assert (E : findIndex (fun r => rec_id r =? incId) (incidents dat) = None).
    { apply findIndex_None. intros r Hr. apply Z.eqb_neq. now apply Hnone. }
    now rewrite E.
  - intros r0 Hr0 Hid. unfold deleteIncident, bind, get_store.
    destruct (findIndex (fun r => rec_id r =? incId) (incidents dat)) as [i|] eqn:E.
    + destruct (splice1_findIndex _ _ _ E) as (Hlen & Hin & Hfil).
      cbv [put_store ret updateStats].
      eexists. split; [reflexivity |].
      cbn [diagrams incidents stats total].
      split; [reflexivity |]. split; [| split; [| split; [| split; [| split]]]].
      * intros d Hd. apply filter_In in Hd. destruct Hd as [_ Hd].
        apply negb_true_iff, Z.eqb_neq in Hd. exact Hd.
      * intros d Hd Hne. apply filter_In. split; [exact Hd |].
        now apply negb_true_iff, Z.eqb_neq.
      * exact Hlen.
      * exact Hin.
      * reflexivity.
      * intro Hnd.
        assert (Hsp : splice1 i (incidents dat)
                      = filter (fun r => negb (rec_id r =? incId)) (incidents dat)).
        { apply Hfil.
          - intros x y Hx Hy Px Py. apply Z.eqb_eq in Px, Py.
            clear -Hnd Hx Hy Px Py. revert Hx Hy.
            induction (incidents dat) as [|a l IH]; [contradiction |].
            simpl in Hnd. inversion Hnd as [|? ? Ha Hl]; subst.
            intros [->|Hx] [->|Hy]; auto.
            + exfalso. apply Ha.
              replace (rec_id x) with (rec_id y) by congruence.
              now apply in_map.
            + exfalso. apply Ha.
              replace (rec_id y) with (rec_id x) by congruence.
              now apply in_map.
          - exact (NoDup_map_inv rec_id _ Hnd). }
        split; [exact Hsp |].
        unfold getIncidentById. cbn [incidents]. rewrite Hsp.
        destruct (find _ _) as [r|] eqn:F; [| reflexivity].
        apply find_some in F. destruct F as [Hr Hk].
        apply filter_In in Hr. destruct Hr as [_ Hr]. rewrite Hk in Hr.
        discriminate.
    + exfalso. rewrite findIndex_None in E. specialize (E r0 Hr0).
      apply Z.eqb_neq in E. contradiction.
Qed.

(** X21. Without loaded data [saveIncident] throws.  On loaded data
    it appends one record with the given user name, the time of the call,
    and the given title or, when that is empty, the title made from the
    description; the records and diagrams already stored stay as they
    are, the total of the statistics is the new number of records, and the
    record shows up in the history of its user.  When all ids in the
    store are below [2^53], the id of the new record is above every one
    of them. *)
Theorem saveIncident_appends
        (userName : jsstring) (dto : CreateIncidentRequest) (dat : IncidentsData) :
  saveIncident now monthStart userName dto None
  = (Throw (lit "Incidents data not loaded"), None) /\
  exists r' dat',
    saveIncident now monthStart userName dto (Some dat) = (Ok r', Some dat') /\
    incidents dat' = incidents dat ++ [r'] /\
    diagrams dat' = diagrams dat /\
    total (stats dat') = Z.of_nat (length (incidents dat)) + 1 /\
    rec_userName r' = userName /\ rec_recordedDate r' = now /\
    (dto_title dto <> [] -> rec_title r' = dto_title dto) /\
    (dto_title dto = [] ->
       rec_title r' = generateTitle (or_empty (dto_description dto))) /\
    In r' (map incident_record (getHistoryForUser dat' userName)) /\
    ((forall r, In r (incidents dat) -> rec_id r < 2 ^ 53) ->
     (forall d, In d (diagrams dat) -> id d < 2 ^ 53) ->
     (forall r, In r (incidents dat) -> rec_id r < rec_id r') /\
     (forall d, In d (diagrams dat) -> id d < rec_id r')).
Proof.
  split; [reflexivity |].
  cbv [saveIncident bind get_store put_store ret updateStats].
  eexists _, _. split; [reflexivity |].
  cbn [diagrams incidents stats total rec_userName rec_recordedDate rec_title rec_id].
  split; [reflexivity |]. split; [reflexivity |].
  split; [rewrite length_app; simpl; lia |].
  split; [reflexivity |]. split; [reflexivity |]. split; [| split; [| split]].
  - intro Hne. destruct (dto_title dto); [contradiction | reflexivity].
  - intros ->. cbn [truthy_str].
    destruct (dto_description dto) as [[|c r]|]; reflexivity.
  - unfold getHistoryForUser. rewrite map_map. cbn [incident_record with_diagrams].
    rewrite map_id. apply sort_in. cbn [incidents].
    apply filter_In. split.
    + apply in_or_app. right. now left.
    + cbn [rec_userName]. apply str_eqb_refl.
  - intros Hbi Hbd. exact (generateId_fresh dat Hbi Hbd).
Qed.

End Clock.

Lemma loaded_ids_small :
  (forall r, In r (incidents SampleStore.loaded) -> rec_id r < 2 ^ 53) /\
  (forall d, In d (diagrams SampleStore.loaded) -> id d < 2 ^ 53).
Proof.
  split.
  - intros r [<-|[<-|[<-|[]]]]; reflexivity.
  - intros d [<-|[<-|[]]]; reflexivity.
Qed.

Lemma createDiagram_appends_witness :
  ((forall r, In r (incidents SampleStore.loaded) -> rec_id r < 2 ^ 53) /\
   (forall d, In d (diagrams SampleStore.loaded) -> id d < 2 ^ 53)) /\
  exists d' dat',
    createDiagram 1721049600 Samples.names_only 6 (lit "Ladder Fall - Analysis Diagram")
                  Samples.small_tree (Some SampleStore.loaded)
    = (Ok d', Some dat') /\
    id d' = 7 /\
    incident_diagrams (with_diagrams dat' SampleStore.ladder_record) = [d'] /\
    (forall d, In d (diagrams SampleStore.loaded) -> id d < id d').
Proof.
  split; [exact loaded_ids_small |].
  destruct (createDiagram_appends 1721049600 Samples.names_only 6
              (lit "Ladder Fall - Analysis Diagram") Samples.small_tree
              SampleStore.loaded)
    as (_ & d' & dat' & Hrun & _ & _ & _ & _ & _ & _ & _ & Hlink & Hfresh).
  exists d', dat'. split; [exact Hrun |]. split; [| split].
  - cbv in Hrun. injection Hrun as <- _. reflexivity.
  - rewrite (Hlink SampleStore.ladder_record eq_refl). reflexivity.
  - destruct loaded_ids_small as [Hbi Hbd].
    destruct (Hfresh Hbi Hbd) as [Hd _]. exact Hd.
Defined.

Lemma deleteIncident_cascade_witness :
  (forall r, In r (incidents SampleStore.loaded) -> rec_id r <> 9) /\
  deleteIncident 1719792000 9 (Some SampleStore.loaded)
  = (Throw (lit "Incident record not found"), Some SampleStore.loaded) /\
  exists dat',
    deleteIncident 1719792000 2 (Some SampleStore.loaded) = (Ok true, Some dat') /\
    diagrams dat' = [Samples.warehouse_diagram] /\
    getIncidentById dat' 2 = None.
Proof.
  assert (Hnone : forall r, In r (incidents SampleStore.loaded) -> rec_id r <> 9).
  { intros r [<-|[<-|[<-|[]]]]; discriminate. }
  split; [exact Hnone |].
  destruct (deleteIncident_cascade 1719792000 9 SampleStore.loaded) as [Hmissing _].
  split; [exact (Hmissing Hnone) |].
  destruct (deleteIncident_cascade 1719792000 2 SampleStore.loaded) as [_ Hfound].
  destruct (Hfound SampleStore.fire_record (or_intror (or_introl eq_refl)) eq_refl)
    as (dat' & Hrun & Hdia & _ & _ & _ & _ & _ & Huniq).
  exists dat'. split; [exact Hrun |]. split; [rewrite Hdia; reflexivity |].
  apply Huniq. repeat constructor; simpl; intuition discriminate.
Defined.

Lemma saveIncident_appends_witness :
  dto_title SampleStore.near_miss_request = [] /\
  exists r' dat',
    saveIncident 1723282200 1722470400 (lit "jdoe") SampleStore.near_miss_request
                 (Some SampleStore.loaded)
    = (Ok r', Some dat') /\
    rec_title r' = lit "Near miss - forklift..." /\
    In r' (map incident_record (getHistoryForUser dat' (lit "jdoe"))) /\
    (forall r, In r (incidents SampleStore.loaded) -> rec_id r < rec_id r').
Proof.
  split; [reflexivity |].
  destruct (saveIncident_appends 1723282200 1722470400 (lit "jdoe")
              SampleStore.near_miss_request SampleStore.loaded)
    as (_ & r' & dat' & Hrun & _ & _ & _ & _ & _ & _ & Htitle & Hhist & Hfresh).
  exists r', dat'. split; [exact Hrun |]. split; [| split; [exact Hhist |]].
  - rewrite (Htitle eq_refl). reflexivity.
  - destruct loaded_ids_small as [Hbi Hbd].
    destruct (Hfresh Hbi Hbd) as [Hr _]. exact Hr.
Defined.

Lemma insert_HdRel (a x : IncidentRecord) (l : list IncidentRecord) :
  HdRel not_older a l -> not_older a x ->
  HdRel not_older a (insert_sorted newest_first x l).
Proof.
  intros Hl Hx. destruct l as [|y l]; simpl; [now constructor |].
  destruct (newest_first x y <=? 0); constructor; [exact Hx |].
  now inversion Hl.
Qed.

Lemma insert_Sorted (x : IncidentRecord) (l : list IncidentRecord) :
  Sorted not_older l -> Sorted not_older (insert_sorted newest_first x l).
Proof.
  induction 1 as [|y l Hs IH Hhd]; simpl; [repeat constructor |].
  destruct (Z.leb_spec (newest_first x y) 0) as [Hle|Hgt].
  - constructor; [now constructor |]. constructor.
    unfold not_older, newest_first in *. lia.
  - constructor; [exact IH |]. apply insert_HdRel; [exact Hhd |].
    unfold not_older, newest_first in *. lia.
Qed.

Lemma sort_Sorted (l : list IncidentRecord) :
  Sorted not_older (stable_sort newest_first l).
Proof.
  induction l as [|a l IH]; simpl; [constructor | now apply insert_Sorted].
Qed.

(** X22. The history of a user holds exactly the stored records of that
    user, each once for each time it is stored, from the newest to the
    oldest, and each with exactly the diagrams that carry its id. *)
Theorem history_newest_first (dat : IncidentsData) (userName : jsstring) :
  Permutation (map incident_record (getHistoryForUser dat userName))
              (filter (fun r => str_eqb (rec_userName r) userName) (incidents dat)) /\
  Sorted not_older (map incident_record (getHistoryForUser dat userName)) /\
  (forall e, In e (getHistoryForUser dat userName) ->
     rec_userName (incident_record e) = userName /\
     In (incident_record e) (incidents dat) /\
     incident_diagrams e
     = filter (fun d => incidentId d =? rec_id (incident_record e)) (diagrams dat)) /\
  (forall r, In r (incidents dat) -> rec_userName r = userName ->
     In r (map incident_record (getHistoryForUser dat userName))).
Proof.
  assert (E : map incident_record (getHistoryForUser dat userName)
              = stable_sort newest_first
                  (filter (fun r => str_eqb (rec_userName r) userName)
                          (incidents dat))).
  { unfold getHistoryForUser. rewrite map_map. cbn [incident_record with_diagrams].
    apply map_id. }
  rewrite E. split; [apply sort_perm |]. split; [apply sort_Sorted |]. split.
  - intros e He. unfold getHistoryForUser in He. apply in_map_iff in He.
    destruct He as (r & <- & Hr). cbn [incident_record incident_diagrams with_diagrams].
    apply (Permutation_in _ (sort_perm _ _)) in Hr.
    apply filter_In in Hr. destruct Hr as [Hr Hu]. apply str_eqb_eq in Hu. auto.
  - intros r Hr Hu. apply sort_in, filter_In. split; [exact Hr |].
    now apply str_eqb_eq.
Qed.

Lemma history_newest_first_witness :
  map incident_record (getHistoryForUser SampleStore.loaded (lit "jdoe"))
  = [SampleStore.ladder_record; SampleStore.slip_record] /\
  In SampleStore.slip_record
     (map incident_record (getHistoryForUser SampleStore.loaded (lit "jdoe"))).
Proof.
  split; [reflexivity |].
  destruct (history_newest_first SampleStore.loaded (lit "jdoe"))
    as (_ & _ & _ & Hall).
  apply Hall; [simpl; auto | reflexivity].
Defined.

Lemma tally_get_set (k k' : jsstring) (v : Z) (acc : list (jsstring * Z)) :
  tally_get k' (tally_set k v acc)
  = if str_eqb k k' then Some v else tally_get k' acc.
Proof.
  induction acc as [|[k0 v0] acc IH]; simpl.
  - reflexivity.
  - destruct (str_eqb k0 k) eqn:E0; simpl.
    + apply str_eqb_eq in E0. subst k0. destruct (str_eqb k k'); reflexivity.
    + destruct (str_eqb k0 k') eqn:E1; [| exact IH].
      apply str_eqb_eq in E1. subst k0.
      destruct (str_eqb k k') eqn:E2; [| reflexivity].
      apply str_eqb_eq in E2. subst k. rewrite str_eqb_refl in E0. discriminate.
Qed.

Lemma tally_step_count (k : jsstring) (acc : list (jsstring * Z)) (r : IncidentRecord) :
  tally_count k (tally_step acc r)
  = tally_count k acc + (if str_eqb (label_or_unknown r) k then 1 else 0).
Proof.
  unfold tally_count, tally_step. fold (label_or_unknown r).
  rewrite tally_get_set.
  destruct (str_eqb (label_or_unknown r) k) eqn:E.
  - apply str_eqb_eq in E. subst k.
    destruct (tally_get (label_or_unknown r) acc) as [v|]; [| reflexivity].
    destruct (Z.eqb_spec v 0); lia.
  - lia.
Qed.

Lemma tally_fold_count (k : jsstring) (rs : list IncidentRecord) :
  forall acc,
    tally_count k (fold_left tally_step rs acc)
    = tally_count k acc
      + Z.of_nat (length (filter (fun r => str_eqb (label_or_unknown r) k) rs)).
Proof.
  induction rs as [|r rs IH]; intro acc; simpl; [lia |].
  rewrite IH, tally_step_count.
  destruct (str_eqb (label_or_unknown r) k); simpl length; lia.
Qed.

(** X23. After [updateStats] the total is the number of stored records
    and the count of this month lies between 0 and the total; when no
    label is the name of an inherited object property, the count kept for
    a label is the number of records that carry it (records without a
    label counting under "Unknown"). *)
Theorem updateStats_counts (monthStart : Z) (dat : IncidentsData) (label : jsstring) :
  (forall r, In r (incidents dat) -> ~ In (label_or_unknown r) inherited_names) ->
  total (stats (updateStats monthStart dat)) = Z.of_nat (length (incidents dat)) /\
  0 <= thisMonth (stats (updateStats monthStart dat))
    <= total (stats (updateStats monthStart dat)) /\
  tally_count label (byAnalysisLevel (stats (updateStats monthStart dat)))
  = Z.of_nat (length (filter (fun r => str_eqb (label_or_unknown r) label)
                             (incidents dat))) /\
  incidents (updateStats monthStart dat) = incidents dat /\
  diagrams (updateStats monthStart dat) = diagrams dat.
Proof.
  intros _.
  unfold updateStats. cbn [stats total thisMonth byAnalysisLevel incidents diagrams].
  split; [reflexivity |]. split; [| split; [| split; reflexivity]].
  - pose proof (filter_length_le (fun r => rec_recordedDate r >=? monthStart)
                  (incidents dat)). lia.
  - rewrite tally_fold_count. reflexivity.
Qed.

Lemma updateStats_counts_witness :
  tally_count (lit "Level 4 - Detailed Analysis")
    (byAnalysisLevel (stats (updateStats 1719792000 SampleStore.loaded))) = 2 /\
  thisMonth (stats (updateStats 1719792000 SampleStore.loaded)) = 1.
Proof.
  destruct (updateStats_counts 1719792000 SampleStore.loaded
              (lit "Level 4 - Detailed Analysis"))
    as (_ & _ & Hcount & _).
  - intros r [<-|[<-|[<-|[]]]]; cbv; intuition discriminate.
  - split; [rewrite Hcount; reflexivity | reflexivity].
Defined.

Lemma not_older_trans : Relations_1.Transitive not_older.
Proof. intros a b c. unfold not_older. lia. Qed.

Lemma insert_at_front (x : IncidentRecord) (l : list IncidentRecord) :
  (forall z, In z l -> not_older x z) ->
  insert_sorted newest_first x l = x :: l.
Proof.
  intro H. destruct l as [|y l]; [reflexivity |]. simpl.
  specialize (H y (or_introl eq_refl)). unfold not_older, newest_first in *.
  destruct (Z.leb_spec (rec_recordedDate y - rec_recordedDate x) 0);
    [reflexivity | lia].
Qed.

Lemma sort_sorted_id (l : list IncidentRecord) :
  Sorted not_older l -> stable_sort newest_first l = l.
Proof.
  induction 1 as [|a l Hs IH Hhd]; simpl; [reflexivity |].
  rewrite IH. destruct Hhd as [|y l Hy]; [reflexivity |].
  simpl. unfold not_older, newest_first in *.
  destruct (Z.leb_spec (rec_recordedDate y - rec_recordedDate a) 0);
    [reflexivity | lia].
Qed.

Lemma filter_insert (p : IncidentRecord -> bool) (x : IncidentRecord)
      (l : list IncidentRecord) :
  StronglySorted not_older l ->
  filter p (insert_sorted newest_first x l)
  = if p x then insert_sorted newest_first x (filter p l) else filter p l.
Proof.
  induction 1 as [|y l Hs IH Hall]; simpl.
  - destruct (p x); reflexivity.
  - destruct (Z.leb_spec (newest_first x y) 0) as [Hle|Hgt]; simpl.
    + destruct (p x); [| reflexivity].
      symmetry. apply insert_at_front. intros z Hz.
      assert (Hz' : In z (y :: l)).
      { destruct (p y); [destruct Hz as [<-|Hz]; [now left |] |];
          right; now apply filter_In in Hz. }
      unfold not_older, newest_first in *.
      destruct Hz' as [<-|Hz']; [lia |].
      rewrite Forall_forall in Hall. specialize (Hall z Hz'). lia.
    + rewrite IH. destruct (p y), (p x); simpl; try reflexivity.
      destruct (Z.leb_spec (newest_first x y) 0); [lia | reflexivity].
Qed.

Lemma sort_StronglySorted (l : list IncidentRecord) :
  StronglySorted not_older (stable_sort newest_first l).
Proof. apply Sorted_StronglySorted; [apply not_older_trans | apply sort_Sorted]. Qed.

(** Filtering commutes with the sort. *)
Lemma filter_sort (p : IncidentRecord -> bool) (l : list IncidentRecord) :
  filter p (stable_sort newest_first l) = stable_sort newest_first (filter p l).
Proof.
  induction l as [|a l IH]; simpl; [reflexivity |].
  rewrite filter_insert by apply sort_StronglySorted.
  rewrite IH. destruct (p a); reflexivity.
Qed.

(** X27. [getAllIncidents] delivers every stored record, newest first,
    each with exactly the diagrams that carry its id, and leaves the
    store with its records in that order and everything else as it was;
    a second call delivers the same and changes nothing more, and the
    history of every user is the same before and after. *)
Theorem getAllIncidents_reorders_store (dat : IncidentsData) (userName : jsstring) :
  map incident_record (fst (getAllIncidents dat))
  = incidents (snd (getAllIncidents dat)) /\
  (forall e, In e (fst (getAllIncidents dat)) ->
     In (incident_record e) (incidents dat) /\
     incident_diagrams e
     = filter (fun d => incidentId d =? rec_id (incident_record e)) (diagrams dat)) /\
  Permutation (incidents (snd (getAllIncidents dat))) (incidents dat) /\
  Sorted not_older (incidents (snd (getAllIncidents dat))) /\
  diagrams (snd (getAllIncidents dat)) = diagrams dat /\
  stats (snd (getAllIncidents dat)) = stats dat /\
  getAllIncidents (snd (getAllIncidents dat)) = getAllIncidents dat /\
  getHistoryForUser (snd (getAllIncidents dat)) userName
  = getHistoryForUser dat userName.
Proof.
  unfold getAllIncidents. cbn [fst snd incidents diagrams stats].
  split; [| split; [| split; [apply sort_perm | split; [apply sort_Sorted |]]]].
  - rewrite map_map. cbn [incident_record with_diagrams]. apply map_id.
  - intros e He. apply in_map_iff in He. destruct He as (r & <- & Hr).
    cbn [incident_record incident_diagrams with_diagrams diagrams].
    split; [| reflexivity].
    exact (Permutation_in r (sort_perm newest_first (incidents dat)) Hr).
  - split; [reflexivity |]. split; [reflexivity |]. split.
    + now rewrite (sort_sorted_id _ (sort_Sorted (incidents dat))).
    + unfold getHistoryForUser. cbn [incidents].
      rewrite filter_sort, (sort_sorted_id _ (sort_Sorted _)). reflexivity.
Qed.

Lemma findIndex_assign_at {A : Type} (p : A -> bool) (l : list A) (i : nat) (v : A) :
  findIndex p l = Some i -> p v = true ->
  findIndex p (assign_at i v l) = Some i.
Proof.
  revert i; induction l as [|a l IH]; simpl; intros i H Hv; [discriminate |].
  destruct (p a) eqn:E.
  - injection H as <-. simpl. now rewrite Hv.
  - destruct (findIndex p l) as [j|] eqn:F; [| discriminate].
    injection H as <-. simpl. rewrite E, (IH j eq_refl Hv). reflexivity.
Qed.

Lemma assign_at_twice {A : Type} (i : nat) (v w : A) (l : list A) :
  assign_at i v (assign_at i w l) = assign_at i v l.
Proof.
  revert i; induction l as [|a l IH]; intros [|i]; simpl; auto.
  now rewrite IH.
Qed.

Lemma assign_at_same {A : Type} (i : nat) (v : A) (l : list A) :
  (i < length l)%nat -> nth_error (assign_at i v l) i = Some v.
Proof.
  revert i; induction l as [|a l IH]; intros [|i]; simpl; intro H;
    try lia; auto. apply IH. lia.
Qed.

(** X24. Applying the same diagram update a second time changes
    nothing: the second call delivers what the first delivered and leaves
    the store the first call left. *)
Theorem updateDiagram_idempotent
        (JSON_stringify : list TreeNodeData -> jsstring)
        (diagramId : Z) (newTitle : option jsstring)
        (nodes : option (list TreeNodeData)) (st : Store) :
  updateDiagram JSON_stringify diagramId newTitle nodes
                (snd (updateDiagram JSON_stringify diagramId newTitle nodes st))
  = updateDiagram JSON_stringify diagramId newTitle nodes st.
Proof.
  destruct st as [dat|]; [| reflexivity].
  unfold updateDiagram, bind, get_store.
  destruct (findIndex (fun d => id d =? diagramId) (diagrams dat)) as [i|] eqn:E.
  - destruct (findIndex_Some _ _ _ E) as (old & Hold & Hp).
    rewrite Hold. cbn [put_store ret snd diagrams incidents stats].
    set (u := mkUpdates _ _).
    assert (Hi : (i < length (diagrams dat))%nat).
    { apply nth_error_Some. congruence. }
    rewrite (findIndex_assign_at _ _ _ (spread old u) E) by exact Hp.
    rewrite (assign_at_same i _ _ Hi), assign_at_twice.
    assert (Hs : spread (spread old u) u = spread old u).
    { unfold spread. cbn [id incidentId title diagramJson diagramPdf createdAt].
      destruct (upd_title u), (upd_diagramJson u); reflexivity. }
    rewrite Hs. reflexivity.
  - cbn [throw snd]. rewrite E. reflexivity.
Qed.

End RepositoryOpsSpec.

(** ** History page: pages *)

Module HistoryPageSpec.

Import HistoryPage.

Lemma ceil_div_bounds (n d : Z) :
  0 < d -> n <= d * ceil_div n d < n + d.
Proof.
  intro Hd. unfold ceil_div.
  pose proof (Z.mul_div_le (- n) d Hd).
  pose proof (Z.mul_succ_div_gt (- n) d Hd). lia.
Qed.

Lemma firstn_plus {A : Type} (a b : nat) (l : list A) :
  firstn (a + b) l = firstn a l ++ firstn b (skipn a l).
Proof.
  revert l; induction a as [|a IH]; intro l; [reflexivity |].
  destruct l as [|x l]; simpl; [now rewrite firstn_nil | now rewrite IH].
Qed.

Lemma chunks_concat {A : Type} (per m : nat) (l : list A) :
  concat (map (fun j => firstn per (skipn (j * per) l)) (seq 0 m))
  = firstn (m * per) l.
Proof.
  induction m as [|m IH]; [reflexivity |].
  rewrite seq_S, map_app, concat_app, IH. simpl.
  rewrite app_nil_r, (Nat.add_comm per), firstn_plus. reflexivity.
Qed.

Section Pages.

Variable A : Type.
Variable l : list A.
Variable per : Z.
Hypothesis Hper : 0 < per.

Lemma page_chunk (k : Z) :
  1 <= k ->
  page A l per k = firstn (Z.to_nat per) (skipn (Z.to_nat ((k - 1) * per)) l).
Proof using Hper.
  intro Hk. unfold page, paginatedIncidents, slice.
  cbn [currentPage itemsPerPage filteredIncidents].
  set (start := (k - 1) * per). set (n := Z.of_nat (length l)).
  assert (Hs : 0 <= start) by (unfold start; nia).
  destruct (Z.ltb_spec start 0); [lia |].
  destruct (Z.ltb_spec (start + per) 0); [lia |].
  destruct (Z.le_gt_cases n start) as [Hge|Hlt].
  - rewrite !Z.min_r by lia. rewrite Z.sub_diag. simpl.
    rewrite (skipn_all2 l) by (unfold n in Hge; lia).
    now rewrite firstn_nil.
  - rewrite (Z.min_l start n) by lia.
    assert (Hlen : length (skipn (Z.to_nat start) l) = Z.to_nat (n - start)).
    { rewrite length_skipn. unfold n. lia. }
    destruct (Z.le_gt_cases (start + per) n) as [Hin|Hout].
    + rewrite Z.min_l by lia. f_equal. lia.
    + rewrite Z.min_r by lia.
      rewrite <- Hlen, firstn_all. symmetry. apply firstn_all2. lia.
Qed.

Lemma totalPages_bounds :
  Z.of_nat (length l) <= per * totalPages A (mkPager A l 1 per)
  < Z.of_nat (length l) + per.
Proof using Hper.
  unfold totalPages. cbn [filteredIncidents itemsPerPage].
  now apply ceil_div_bounds.
Qed.

Lemma page_facts :
  0 <= totalPages A (mkPager A l 1 per) /\
  (forall k, 1 <= k <= totalPages A (mkPager A l 1 per) ->
             page A l per k <> [] /\ Z.of_nat (length (page A l per k)) <= per) /\
  (forall k, totalPages A (mkPager A l 1 per) < k -> page A l per k = []).
Proof using Hper.
  pose proof totalPages_bounds as Hb.
  set (tp := totalPages A (mkPager A l 1 per)) in *.
  split; [nia |]. split.
  - intros k Hk. rewrite (page_chunk k) by lia. split.
    + intro E. apply (f_equal (@length _)) in E.
      rewrite length_firstn, length_skipn in E.
      change (length (@nil A)) with O in E.
      assert ((k - 1) * per < Z.of_nat (length l)) by nia.
      assert (0 <= (k - 1) * per) by nia. lia.
    + rewrite length_firstn. lia.
  - intros k Hk. rewrite (page_chunk k) by nia.
    rewrite skipn_all2; [apply firstn_nil |]. nia.
Qed.

End Pages.

(** X25. With a positive page size, the pages 1 to [totalPages] put one
    after the other give the filtered list; each of these pages holds at
    least one and at most [itemsPerPage] entries; every later page is
    empty; and there are no pages exactly when the list is empty. *)
Theorem pages_partition (A : Type) (l : list A) (per : Z) :
  0 < per ->
  concat (map (fun j => page A l per (Z.of_nat j + 1))
              (seq 0 (Z.to_nat (totalPages A (mkPager A l 1 per)))))
  = l /\
  (forall k, 1 <= k <= totalPages A (mkPager A l 1 per) ->
             page A l per k <> [] /\ Z.of_nat (length (page A l per k)) <= per) /\
  (forall k, totalPages A (mkPager A l 1 per) < k -> page A l per k = []) /\
  (totalPages A (mkPager A l 1 per) = 0 <-> l = []).
Proof.
  intro Hper.
  pose proof (totalPages_bounds A l per Hper) as Hb.
  destruct (page_facts A l per Hper) as (Htp & Hin & Hout).
  set (tp := totalPages A (mkPager A l 1 per)) in *.
  split; [| split; [exact Hin | split; [exact Hout |]]].
  - rewrite (map_ext_in _ (fun j => firstn (Z.to_nat per)
                                      (skipn (j * Z.to_nat per) l))).
    + rewrite chunks_concat. apply firstn_all2. nia.
    + intros j _. rewrite (page_chunk A l per Hper) by lia.
      do 2 f_equal. nia.
  - split.
    + intro E. rewrite E in Hb. destruct l; [reflexivity | simpl in Hb; lia].
    + intros E. rewrite E in Hb. simpl in Hb. nia.
Qed.

Lemma pages_partition_witness :
  0 < 2 /\
  totalPages nat (mkPager nat [10; 20; 30; 40; 50]%nat 1 2) = 3 /\
  concat (map (fun j => page nat [10; 20; 30; 40; 50]%nat 2 (Z.of_nat j + 1))
              (seq 0 3))
  = [10; 20; 30; 40; 50]%nat.
Proof.
  split; [lia |]. split; [reflexivity |].
  destruct (pages_partition nat [10; 20; 30; 40; 50]%nat 2) as [Hcat _]; [lia |].
  exact Hcat.
Defined.

(** X26. [goToPage] only moves the pager, and never out of range: from
    a page between 1 and [totalPages] it arrives at such a page again (the
    one asked for when that is in range, the old one otherwise), so the
    page shown afterwards is not empty. *)
Theorem goToPage_stays_in_range (A : Type) (p : Pager A) (k : Z) :
  0 < itemsPerPage A p ->
  1 <= currentPage A p <= totalPages A p ->
  filteredIncidents A (goToPage A k p) = filteredIncidents A p /\
  itemsPerPage A (goToPage A k p) = itemsPerPage A p /\
  1 <= currentPage A (goToPage A k p) <= totalPages A (goToPage A k p) /\
  (1 <= k <= totalPages A p -> currentPage A (goToPage A k p) = k) /\
  (~ 1 <= k <= totalPages A p ->
   currentPage A (goToPage A k p) = currentPage A p) /\
  paginatedIncidents A (goToPage A k p) <> [].
Proof.
  intros Hper Hcur. destruct p as [l cur per]. cbn [itemsPerPage currentPage] in *.
  destruct (page_facts A l per Hper) as (_ & Hin & _).
  unfold goToPage, page, totalPages in *.
  cbn [filteredIncidents itemsPerPage currentPage] in *.
  set (tp := ceil_div (Z.of_nat (length l)) per) in *.
  destruct (Z.geb_spec k 1) as [H1|H1];
    [destruct (Z.leb_spec k tp) as [H2|H2] |];
    cbn [andb filteredIncidents itemsPerPage currentPage];
    (split; [reflexivity |]); (split; [reflexivity |]).
  - split; [lia |]. split; [reflexivity |]. split; [intro; lia |].
    apply Hin. lia.
  - split; [lia |]. split; [intro; lia |]. split; [reflexivity |].
    apply Hin. lia.
  - split; [lia |]. split; [intro; lia |]. split; [reflexivity |].
    apply Hin. lia.
Qed.

Lemma goToPage_stays_in_range_witness :
  currentPage nat (goToPage nat 3 (mkPager nat [10; 20; 30; 40; 50]%nat 1 2)) = 3 /\
  currentPage nat (goToPage nat 4 (mkPager nat [10; 20; 30; 40; 50]%nat 1 2)) = 1.
Proof.
  split.
  - destruct (goToPage_stays_in_range nat (mkPager nat [10; 20; 30; 40; 50]%nat 1 2) 3)
      as (_ & _ & _ & Hin & _);
      [reflexivity | split; vm_compute; discriminate |].
    apply Hin. split; vm_compute; discriminate.
  - destruct (goToPage_stays_in_range nat (mkPager nat [10; 20; 30; 40; 50]%nat 1 2) 4)
      as (_ & _ & _ & _ & Hout & _);
      [reflexivity | split; vm_compute; discriminate |].
    apply Hout. intros [_ H]. apply H. reflexivity.
Defined.

End HistoryPageSpec.
